(** * OpenCEP: the tree-based evaluation mechanism

    A shallow embedding of [misc/Utils.py] and
    [evaluation/TreeBasedEvaluationMechanism.py], and the properties of the
    partial-match stores, of the join, of expiration and of the two negation
    modes that are stated about them.

    Conventions.
    - [datetime] and [timedelta] values are integers (a number of ticks);
      [timedelta.max] is the constant [timedelta_max].  The range checks of
      Python's [datetime] arithmetic (OverflowError) are not modelled.
    - Python objects that are compared by identity (nodes, partial matches)
      carry an identifier; nodes live in a heap indexed by these identifiers.
    - A computation either returns, raises, blocks on an empty [Queue], or
      exceeds the recursion budget it was given. *)

From Stdlib Require Import ZArith Lia Bool List Sorted Permutation.
From stdpp Require Import base tactics option list sorting gmap strings.

Local Open Scope Z_scope.

(** ** Outcomes of a Python computation *)

Inductive exn : Type :=
| Exception
| IndexError
| NameError
| ValueError
| AttributeError
| NotImplementedError.

Inductive error : Type :=
| PyRaise (e : exn)   (* an exception propagates to the caller *)
| Blocks              (* [Queue.get] on an empty queue never returns *)
| NoFuel.             (* the recursion budget of the model is exhausted *)

Inductive Res (A : Type) : Type :=
| Ok (a : A)
| Err (e : error).
Arguments Ok {A} a.
Arguments Err {A} e.

Definition res_bind {A B} (r : Res A) (k : A -> Res B) : Res B :=
  match r with
  | Ok a => k a
  | Err e => Err e
  end.

Definition raise {A} (e : exn) : Res A := Err (PyRaise e).

Declare Scope res_scope.
Delimit Scope res_scope with res.
Notation "x <~ r ; k" := (res_bind r (fun x => k))
  (at level 20, r at level 100, k at level 200, only parsing) : res_scope.
Notation "' p <~ r ; k" := (res_bind r (fun x => match x with p => k end))
  (at level 20, p pattern, r at level 100, k at level 200, only parsing) : res_scope.

(** ** Python lists *)

Module PyList.

(** [l[i]] with Python's negative indices. *)
Definition getitem {A} (l : list A) (i : Z) : Res A :=
  let n := Z.of_nat (length l) in
  if (0 <=? i) && (i <? n) then
    match l !! Z.to_nat i with Some x => Ok x | None => raise IndexError end
  else if (- n <=? i) && (i <? 0) then
    match l !! Z.to_nat (n + i) with Some x => Ok x | None => raise IndexError end
  else raise IndexError.

(** The position a slice bound or an insertion index [i] denotes. *)
Definition clamp {A} (l : list A) (i : Z) : nat :=
  let n := Z.of_nat (length l) in
  if i <? 0 then Z.to_nat (Z.max 0 (n + i)) else Z.to_nat (Z.min i n).

(** [l[i:]] *)
Definition slice_from {A} (l : list A) (i : Z) : list A := drop (clamp l i) l.

(** [l[:i]] *)
Definition slice_to {A} (l : list A) (i : Z) : list A := take (clamp l i) l.

(** [l.insert(i, x)] *)
Definition insert {A} (l : list A) (i : Z) (x : A) : list A :=
  take (clamp l i) l ++ x :: drop (clamp l i) l.

End PyList.

(** ** misc/Utils.py *)

Module Utils.

Section Merge.
Context {A : Type} (key : A -> Z).

(** The first loop of [merge]: [i] counts the elements already emitted
    and the loop runs while [i < new_len], so [budget] is
    [new_len - i]. *)
Fixpoint merge_loop (budget : nat) (arr1 arr2 : list A) (i1 i2 : nat)
         (ret : list A) : Res (list A * nat * nat) :=
  match budget with
  | O => Ok (ret, i1, i2)
  | S budget' =>
      if (i1 <? length arr1)%nat && (i2 <? length arr2)%nat then
        (a <~ PyList.getitem arr1 (Z.of_nat i1) ;
         b <~ PyList.getitem arr2 (Z.of_nat i2) ;
         if key a <? key b
         then merge_loop budget' arr1 arr2 (S i1) i2 (ret ++ [a])
         else merge_loop budget' arr1 arr2 i1 (S i2) (ret ++ [b]))%res
      else Ok (ret, i1, i2)
  end.

(** [while i1 < len(arr1): ret.append(arr1[i1]); i1 += 1] *)
Definition copy_rest (arr : list A) (i : nat) (ret : list A) : list A :=
  ret ++ drop i arr.

Definition merge (arr1 arr2 : list A) : Res (list A) :=
  (let new_len := (length arr1 + length arr2)%nat in
   '(ret, i1, i2) <~ merge_loop new_len arr1 arr2 0 0 [] ;
   Ok (copy_rest arr2 i2 (copy_rest arr1 i1 ret)))%res.

(** [is_sorted]: no adjacent pair is out of order. *)
Fixpoint is_sorted (arr : list A) : bool :=
  match arr with
  | [] => true
  | x :: rest =>
      match rest with
      | [] => true
      | y :: _ => if key x >? key y then false else is_sorted rest
      end
  end.
End Merge.

Section MergeAccordingTo.
Context {A B : Type} (key : A -> Z).

Fixpoint merge_according_to_loop (budget : nat) (arr1 arr2 : list A)
         (actual1 actual2 : list B) (i1 i2 : nat) (ret : list B)
  : Res (list B * nat * nat) :=
  match budget with
  | O => Ok (ret, i1, i2)
  | S budget' =>
      if (i1 <? length arr1)%nat && (i2 <? length arr2)%nat then
        (a <~ PyList.getitem arr1 (Z.of_nat i1) ;
         b <~ PyList.getitem arr2 (Z.of_nat i2) ;
         if key a <? key b
         then x <~ PyList.getitem actual1 (Z.of_nat i1) ;
              merge_according_to_loop budget' arr1 arr2 actual1 actual2
                                      (S i1) i2 (ret ++ [x])
         else y <~ PyList.getitem actual2 (Z.of_nat i2) ;
              merge_according_to_loop budget' arr1 arr2 actual1 actual2
                                      i1 (S i2) (ret ++ [y]))%res
      else Ok (ret, i1, i2)
  end.

(** The two trailing loops run while [i1 < len(arr1)] (not
    [len(actual1)]) and read [actual1[i1]]. *)
Fixpoint copy_rest_according_to (budget : nat) (actual : list B) (i : nat)
         (ret : list B) : Res (list B) :=
  match budget with
  | O => Ok ret
  | S budget' =>
      (x <~ PyList.getitem actual (Z.of_nat i) ;
       copy_rest_according_to budget' actual (S i) (ret ++ [x]))%res
  end.

Definition merge_according_to (arr1 arr2 : list A) (actual1 actual2 : list B)
  : Res (list B) :=
  if negb (length arr1 =? length actual1)%nat
     || negb (length arr2 =? length actual2)%nat
  then raise Exception
  else
    (let new_len := (length arr1 + length arr2)%nat in
     '(ret, i1, i2) <~ merge_according_to_loop new_len arr1 arr2 actual1 actual2 0 0 [] ;
     ret <~ copy_rest_according_to (length arr1 - i1) actual1 i1 ret ;
     copy_rest_according_to (length arr2 - i2) actual2 i2 ret)%res.
End MergeAccordingTo.

Section Find.
Context {A : Type} (first_timestamp : A -> Z).

(** The [while start <= end] loop of [find_partial_match_by_timestamp]. *)
Fixpoint find_loop (fuel : nat) (partial_matches : list A) (timestamp : Z)
         (start end_ : Z) : Res Z :=
  if start <=? end_ then
    match fuel with
    | O => Err NoFuel
    | S fuel' =>
        (let mid := (start + end_) / 2 in
         pm_mid <~ PyList.getitem partial_matches mid ;
         let mid_date := first_timestamp pm_mid in
         pm_prev <~ PyList.getitem partial_matches (mid - 1) ;
         if (first_timestamp pm_prev <? timestamp) && (timestamp <=? mid_date)
         then Ok mid
         else if timestamp >? mid_date
              then find_loop fuel' partial_matches timestamp (mid + 1) end_
              else find_loop fuel' partial_matches timestamp start (mid - 1))%res
    end
  else raise Exception.

Definition find_partial_match_by_timestamp (partial_matches : list A)
           (timestamp : Z) : Res Z :=
  let length_ := Z.of_nat (length partial_matches) in
  match partial_matches with
  | [] => Ok 0
  | pm0 :: _ =>
      if first_timestamp pm0 >=? timestamp then Ok 0
      else if length_ =? 1 then Ok 1
      else
        (last <~ PyList.getitem partial_matches (-1) ;
         if first_timestamp last <? timestamp then Ok length_
         else find_loop (length partial_matches) partial_matches timestamp
                        0 (length_ - 1))%res
  end.
End Find.

End Utils.

(** ** Time *)

Definition datetime := Z.
Definition timedelta := Z.

(** [timedelta.max]: 999999999 days, 23:59:59.999999, in microseconds. *)
Definition timedelta_max : timedelta := 86399999999999999999.

(** ** base/Formula.py

    Values are integers.  [DivTerm] (Python's true division, a float) is not
    embedded; nothing below depends on the arithmetic of terms.  The [names]
    argument of [get_term_of] and [get_formula_of] is used only through
    [name in names]; it is a set of names at an internal node and a single
    string (so [in] is the substring test) at a leaf, and is passed here as
    that membership test. *)

(** Modelled from the spec: the payload of an event (base/Event.py is not
    part of the sources) is a record of named attributes. *)
Definition Payload := gmap string Z.

Definition Binding := gmap string Payload.

Inductive Term : Type :=
| AtomicTerm (value : Z)
| IdentifierTerm (name : string) (getattr_func : Payload -> Res Z)
| PlusTerm (lhs rhs : Term)
| MinusTerm (lhs rhs : Term)
| MulTerm (lhs rhs : Term).

Inductive RelationOp : Type :=
| EqOp | NotEqOp | GreaterThanOp | SmallerThanOp | GreaterThanEqOp | SmallerThanEqOp.

Inductive Formula : Type :=
| AtomicFormula (relation_op : RelationOp) (left_term right_term : Term)
| AndFormula (left_formula right_formula : Formula)
| TrueFormula.

Module FormulaOps.

Fixpoint Term_eval (t : Term) (binding : Binding) : Res Z :=
  match t with
  | AtomicTerm v => Ok v
  | IdentifierTerm name getattr_func =>
      match binding !! name with
      | None => raise NameError
      | Some p => getattr_func p
      end
  | PlusTerm l r => (x <~ Term_eval l binding ; y <~ Term_eval r binding ; Ok (x + y))%res
  | MinusTerm l r => (x <~ Term_eval l binding ; y <~ Term_eval r binding ; Ok (x - y))%res
  | MulTerm l r => (x <~ Term_eval l binding ; y <~ Term_eval r binding ; Ok (x * y))%res
  end.

Definition relation (op : RelationOp) (x y : Z) : bool :=
  match op with
  | EqOp => x =? y
  | NotEqOp => negb (x =? y)
  | GreaterThanOp => x >? y
  | SmallerThanOp => x <? y
  | GreaterThanEqOp => x >=? y
  | SmallerThanEqOp => x <=? y
  end.

Fixpoint eval (f : Formula) (binding : Binding) : Res bool :=
  match f with
  | AtomicFormula op l r =>
      (x <~ Term_eval l binding ; y <~ Term_eval r binding ; Ok (relation op x y))%res
  | AndFormula l r =>
      (x <~ eval l binding ; y <~ eval r binding ; Ok (x && y))%res
  | TrueFormula => Ok true
  end.

Fixpoint get_term_of (t : Term) (names : string -> bool) : option Term :=
  match t with
  | AtomicTerm v => Some t
  | IdentifierTerm name _ => if names name then Some t else None
  | PlusTerm l r =>
      match get_term_of l names, get_term_of r names with
      | Some l', Some r' => Some (PlusTerm l' r')
      | _, _ => None
      end
  | MinusTerm l r =>
      match get_term_of l names, get_term_of r names with
      | Some l', Some r' => Some (MinusTerm l' r')
      | _, _ => None
      end
  | MulTerm l r =>
      match get_term_of l names, get_term_of r names with
      | Some l', Some r' => Some (MulTerm l' r')
      | _, _ => None
      end
  end.

(** [TrueFormula] inherits [Formula.get_formula_of], which returns None. *)
Fixpoint get_formula_of (f : Formula) (names : string -> bool) : option Formula :=
  match f with
  | AtomicFormula op l r =>
      match get_term_of l names, get_term_of r names with
      | Some l', Some r' => Some (AtomicFormula op l' r')
      | _, _ => None
      end
  | AndFormula l r =>
      match get_formula_of l names, get_formula_of r names with
      | Some l', Some r' => Some (AndFormula l' r')
      | Some l', None => Some l'
      | None, Some r' => Some r'
      | None, None => None
      end
  | TrueFormula => None
  end.

(** [TrueFormula] has no such method: calling it raises AttributeError. *)
Fixpoint get_events_in_a_condition_with (f : Formula) (name : string)
  : Res (option Formula) :=
  match f with
  | AtomicFormula op l r =>
      match l, r with
      | IdentifierTerm nl _, IdentifierTerm nr _ =>
          if bool_decide (nl = name) then Ok (Some f)
          else if bool_decide (nr = name) then Ok (Some f)
          else Ok None
      | _, _ => Ok None
      end
  | AndFormula l r =>
      (r' <~ get_events_in_a_condition_with r name ;
       l' <~ get_events_in_a_condition_with l name ;
       match l', r' with
       | Some a, Some b => Ok (Some (AndFormula a b))
       | Some a, None => Ok (Some a)
       | None, Some b => Ok (Some b)
       | None, None => Ok None
       end)%res
  | TrueFormula => raise AttributeError
  end.

(** [get_all_terms] adds to [term_set]; [TrueFormula] inherits the base
    method, which does nothing. *)
Fixpoint get_all_terms (f : Formula) (term_set : gset string) : gset string :=
  match f with
  | AtomicFormula _ l r =>
      let s1 := match l with IdentifierTerm n _ => term_set ∪ {[ n ]} | _ => term_set end in
      match r with IdentifierTerm n _ => s1 ∪ {[ n ]} | _ => s1 end
  | AndFormula l r => get_all_terms r (get_all_terms l term_set)
  | TrueFormula => term_set
  end.

End FormulaOps.

(** ** Events, placeholders, partial matches *)

(** Modelled from the spec: base/Event.py is not part of the sources; an
    event has a type, a payload and a timestamp. *)
Record Event : Type := {
  event_type : string;
  payload : Payload;
  timestamp : datetime
}.

(** Modelled from the spec: base/PatternStructure.py is not part of the
    sources; a [QItem] is [(event_type, name, index)], where [index] is the
    position of the placeholder in the source pattern ([get_event_index]). *)
Record QItem : Type := {
  q_event_type : string;
  q_name : string;
  q_index : Z
}.

Definition EventDef : Type := Z * QItem.

(** [get_index] of misc/Utils.py *)
Definition get_index (first_event_def : EventDef) : Z := q_index (snd first_event_def).

(** [sorted(l, key=key)]: Python's sort is stable. *)
Fixpoint insert_by_key {A} (key : A -> Z) (x : A) (l : list A) : list A :=
  match l with
  | [] => [x]
  | y :: rest =>
      if key x <=? key y then x :: y :: rest
      else y :: insert_by_key key x rest
  end.

Definition sorted_by_key {A} (key : A -> Z) (l : list A) : list A :=
  fold_right (insert_by_key key) [] l.

(** [[(i, occurrences[qitems[i].event_type]) for i in range(len(qitems))]],
    for the placeholders from position [i] on; None stands for the KeyError
    of a type that [occurrences] does not hold. *)
Fixpoint occurrences_from (i : Z) (qitems : list QItem) (occurrences : gmap string Z)
  : option (list (Z * Z)) :=
  match qitems with
  | [] => Some []
  | q :: rest =>
      match occurrences !! q_event_type q with
      | None => None
      | Some n =>
          match occurrences_from (i + 1) rest occurrences with
          | None => None
          | Some temp_list => Some ((i, n) :: temp_list)
          end
      end
  end.

(** [get_order_by_occurrences] of misc/Utils.py *)
Definition get_order_by_occurrences (qitems : list QItem) (occurrences : gmap string Z)
  : option (list Z) :=
  match occurrences_from 0 qitems occurrences with
  | None => None
  | Some temp_list => Some (map fst (sorted_by_key snd temp_list))
  end.

Inductive Operator : Type := SeqOperator | AndOperator | OrOperator.

(** Modelled from the spec: evaluation/PartialMatch.py is not part of the
    sources; a partial match is built from a non-empty list of events and
    stores the least and the greatest of their timestamps.  Partial matches
    are compared by identity, which [pm_id] stands for. *)
Record PartialMatch : Type := {
  pm_id : nat;
  events : list Event;
  first_timestamp : datetime;
  last_timestamp : datetime
}.

Definition min_timestamp (e : Event) (es : list Event) : datetime :=
  fold_left (fun m x => Z.min m (timestamp x)) es (timestamp e).

Definition max_timestamp (e : Event) (es : list Event) : datetime :=
  fold_left (fun m x => Z.max m (timestamp x)) es (timestamp e).

Definition PartialMatch_init (id : nat) (evs : list Event) : Res PartialMatch :=
  match evs with
  | [] => raise ValueError
  | e :: es =>
      Ok {| pm_id := id; events := evs;
            first_timestamp := min_timestamp e es;
            last_timestamp := max_timestamp e es |}
  end.

Definition pm_same (a b : PartialMatch) : bool := (pm_id a =? pm_id b)%nat.

(** Modelled from the spec: base/PatternMatch.py is not part of the sources;
    a pattern match carries the events of a full match. *)
Record PatternMatch : Type := { match_events : list Event }.

(** Modelled from the spec: misc/IOUtils.py is not part of the sources; the
    output stream is the log of the calls made on it. *)
Inductive StreamOp : Type :=
| add_item (m : PatternMatch)
| close.

(** ** Nodes of the evaluation tree *)

Inductive NodeClass : Type :=
| LeafNode | AndNode | SeqNode | FirstChanceNode | PostProcessingNode.

Definition is_negation_class (c : NodeClass) : bool :=
  match c with
  | FirstChanceNode | PostProcessingNode => true
  | _ => false
  end.

Definition is_leaf_class (c : NodeClass) : bool :=
  match c with LeafNode => true | _ => false end.

Definition is_first_chance (c : NodeClass) : bool :=
  match c with FirstChanceNode => true | _ => false end.

(** One record for all node classes; the fields of a class the object does
    not belong to keep their default. *)
Record Node : Type := {
  cls : NodeClass;  (* the Python class of the object *)
  parent : option nat;  (* [_parent] *)
  sliding_window : Z;
  partial_matches : list PartialMatch;
  condition : Formula;
  unhandled_partial_matches : list PartialMatch;
  leaf_index : Z;  (* LeafNode *)
  leaf_event_name : string;
  leaf_event_type : string;
  qitem_index : Z;
  event_defs : list EventDef;  (* InternalNode; [[]] until [set_subtrees] runs *)
  left_subtree : option nat;
  right_subtree : option nat;
  threshold : option Z;
  is_first : bool;  (* InternalNegationNode *)
  is_last : bool;
  top_operator : Operator;
  waiting_for_time_out : list PartialMatch;
  matches_to_handle_at_EOF : list PartialMatch;
  check_expired_timestamp : list (Z * PartialMatch)  (* FirstChanceNode *)
}.

Definition set_parent (v : option nat) (nd : Node) : Node :=
  {| cls := cls nd; parent := v; sliding_window := sliding_window nd;
     partial_matches := partial_matches nd; condition := condition nd;
     unhandled_partial_matches := unhandled_partial_matches nd;
     leaf_index := leaf_index nd; leaf_event_name := leaf_event_name nd;
     leaf_event_type := leaf_event_type nd; qitem_index := qitem_index nd;
     event_defs := event_defs nd; left_subtree := left_subtree nd;
     right_subtree := right_subtree nd; threshold := threshold nd;
     is_first := is_first nd; is_last := is_last nd;
     top_operator := top_operator nd;
     waiting_for_time_out := waiting_for_time_out nd;
     matches_to_handle_at_EOF := matches_to_handle_at_EOF nd;
     check_expired_timestamp := check_expired_timestamp nd |}.

Definition set_partial_matches (v : list PartialMatch) (nd : Node) : Node :=
  {| cls := cls nd; parent := parent nd; sliding_window := sliding_window nd;
     partial_matches := v; condition := condition nd;
     unhandled_partial_matches := unhandled_partial_matches nd;
     leaf_index := leaf_index nd; leaf_event_name := leaf_event_name nd;
     leaf_event_type := leaf_event_type nd; qitem_index := qitem_index nd;
     event_defs := event_defs nd; left_subtree := left_subtree nd;
     right_subtree := right_subtree nd; threshold := threshold nd;
     is_first := is_first nd; is_last := is_last nd;
     top_operator := top_operator nd;
     waiting_for_time_out := waiting_for_time_out nd;
     matches_to_handle_at_EOF := matches_to_handle_at_EOF nd;
     check_expired_timestamp := check_expired_timestamp nd |}.

Definition set_condition (v : Formula) (nd : Node) : Node :=
  {| cls := cls nd; parent := parent nd; sliding_window := sliding_window nd;
     partial_matches := partial_matches nd; condition := v;
     unhandled_partial_matches := unhandled_partial_matches nd;
     leaf_index := leaf_index nd; leaf_event_name := leaf_event_name nd;
     leaf_event_type := leaf_event_type nd; qitem_index := qitem_index nd;
     event_defs := event_defs nd; left_subtree := left_subtree nd;
     right_subtree := right_subtree nd; threshold := threshold nd;
     is_first := is_first nd; is_last := is_last nd;
     top_operator := top_operator nd;
     waiting_for_time_out := waiting_for_time_out nd;
     matches_to_handle_at_EOF := matches_to_handle_at_EOF nd;
     check_expired_timestamp := check_expired_timestamp nd |}.

Definition set_unhandled_partial_matches (v : list PartialMatch) (nd : Node) : Node :=
  {| cls := cls nd; parent := parent nd; sliding_window := sliding_window nd;
     partial_matches := partial_matches nd; condition := condition nd;
     unhandled_partial_matches := v; leaf_index := leaf_index nd;
     leaf_event_name := leaf_event_name nd;
     leaf_event_type := leaf_event_type nd; qitem_index := qitem_index nd;
     event_defs := event_defs nd; left_subtree := left_subtree nd;
     right_subtree := right_subtree nd; threshold := threshold nd;
     is_first := is_first nd; is_last := is_last nd;
     top_operator := top_operator nd;
     waiting_for_time_out := waiting_for_time_out nd;
     matches_to_handle_at_EOF := matches_to_handle_at_EOF nd;
     check_expired_timestamp := check_expired_timestamp nd |}.

Definition set_event_defs (v : list EventDef) (nd : Node) : Node :=
  {| cls := cls nd; parent := parent nd; sliding_window := sliding_window nd;
     partial_matches := partial_matches nd; condition := condition nd;
     unhandled_partial_matches := unhandled_partial_matches nd;
     leaf_index := leaf_index nd; leaf_event_name := leaf_event_name nd;
     leaf_event_type := leaf_event_type nd; qitem_index := qitem_index nd;
     event_defs := v; left_subtree := left_subtree nd;
     right_subtree := right_subtree nd; threshold := threshold nd;
     is_first := is_first nd; is_last := is_last nd;
     top_operator := top_operator nd;
     waiting_for_time_out := waiting_for_time_out nd;
     matches_to_handle_at_EOF := matches_to_handle_at_EOF nd;
     check_expired_timestamp := check_expired_timestamp nd |}.

Definition set_left_subtree (v : option nat) (nd : Node) : Node :=
  {| cls := cls nd; parent := parent nd; sliding_window := sliding_window nd;
     partial_matches := partial_matches nd; condition := condition nd;
     unhandled_partial_matches := unhandled_partial_matches nd;
     leaf_index := leaf_index nd; leaf_event_name := leaf_event_name nd;
     leaf_event_type := leaf_event_type nd; qitem_index := qitem_index nd;
     event_defs := event_defs nd; left_subtree := v;
     right_subtree := right_subtree nd; threshold := threshold nd;
     is_first := is_first nd; is_last := is_last nd;
     top_operator := top_operator nd;
     waiting_for_time_out := waiting_for_time_out nd;
     matches_to_handle_at_EOF := matches_to_handle_at_EOF nd;
     check_expired_timestamp := check_expired_timestamp nd |}.

Definition set_right_subtree (v : option nat) (nd : Node) : Node :=
  {| cls := cls nd; parent := parent nd; sliding_window := sliding_window nd;
     partial_matches := partial_matches nd; condition := condition nd;
     unhandled_partial_matches := unhandled_partial_matches nd;
     leaf_index := leaf_index nd; leaf_event_name := leaf_event_name nd;
     leaf_event_type := leaf_event_type nd; qitem_index := qitem_index nd;
     event_defs := event_defs nd; left_subtree := left_subtree nd;
     right_subtree := v; threshold := threshold nd; is_first := is_first nd;
     is_last := is_last nd; top_operator := top_operator nd;
     waiting_for_time_out := waiting_for_time_out nd;
     matches_to_handle_at_EOF := matches_to_handle_at_EOF nd;
     check_expired_timestamp := check_expired_timestamp nd |}.

Definition set_threshold (v : option Z) (nd : Node) : Node :=
  {| cls := cls nd; parent := parent nd; sliding_window := sliding_window nd;
     partial_matches := partial_matches nd; condition := condition nd;
     unhandled_partial_matches := unhandled_partial_matches nd;
     leaf_index := leaf_index nd; leaf_event_name := leaf_event_name nd;
     leaf_event_type := leaf_event_type nd; qitem_index := qitem_index nd;
     event_defs := event_defs nd; left_subtree := left_subtree nd;
     right_subtree := right_subtree nd; threshold := v;
     is_first := is_first nd; is_last := is_last nd;
     top_operator := top_operator nd;
     waiting_for_time_out := waiting_for_time_out nd;
     matches_to_handle_at_EOF := matches_to_handle_at_EOF nd;
     check_expired_timestamp := check_expired_timestamp nd |}.

Definition set_waiting_for_time_out (v : list PartialMatch) (nd : Node) : Node :=
  {| cls := cls nd; parent := parent nd; sliding_window := sliding_window nd;
     partial_matches := partial_matches nd; condition := condition nd;
     unhandled_partial_matches := unhandled_partial_matches nd;
     leaf_index := leaf_index nd; leaf_event_name := leaf_event_name nd;
     leaf_event_type := leaf_event_type nd; qitem_index := qitem_index nd;
     event_defs := event_defs nd; left_subtree := left_subtree nd;
     right_subtree := right_subtree nd; threshold := threshold nd;
     is_first := is_first nd; is_last := is_last nd;
     top_operator := top_operator nd; waiting_for_time_out := v;
     matches_to_handle_at_EOF := matches_to_handle_at_EOF nd;
     check_expired_timestamp := check_expired_timestamp nd |}.

Definition set_matches_to_handle_at_EOF (v : list PartialMatch) (nd : Node) : Node :=
  {| cls := cls nd; parent := parent nd; sliding_window := sliding_window nd;
     partial_matches := partial_matches nd; condition := condition nd;
     unhandled_partial_matches := unhandled_partial_matches nd;
     leaf_index := leaf_index nd; leaf_event_name := leaf_event_name nd;
     leaf_event_type := leaf_event_type nd; qitem_index := qitem_index nd;
     event_defs := event_defs nd; left_subtree := left_subtree nd;
     right_subtree := right_subtree nd; threshold := threshold nd;
     is_first := is_first nd; is_last := is_last nd;
     top_operator := top_operator nd;
     waiting_for_time_out := waiting_for_time_out nd;
     matches_to_handle_at_EOF := v;
     check_expired_timestamp := check_expired_timestamp nd |}.

Definition set_check_expired_timestamp (v : list (Z * PartialMatch)) (nd : Node) : Node :=
  {| cls := cls nd; parent := parent nd; sliding_window := sliding_window nd;
     partial_matches := partial_matches nd; condition := condition nd;
     unhandled_partial_matches := unhandled_partial_matches nd;
     leaf_index := leaf_index nd; leaf_event_name := leaf_event_name nd;
     leaf_event_type := leaf_event_type nd; qitem_index := qitem_index nd;
     event_defs := event_defs nd; left_subtree := left_subtree nd;
     right_subtree := right_subtree nd; threshold := threshold nd;
     is_first := is_first nd; is_last := is_last nd;
     top_operator := top_operator nd;
     waiting_for_time_out := waiting_for_time_out nd;
     matches_to_handle_at_EOF := matches_to_handle_at_EOF nd;
     check_expired_timestamp := v |}.

(** ** The heap of nodes and the evaluation monad *)

Record State : Type := {
  heap : gmap nat Node;
  next_node : nat;  (* the identity of the next node object *)
  next_pm : nat     (* the identity of the next [PartialMatch] object *)
}.

Definition set_heap (h : gmap nat Node) (s : State) : State :=
  {| heap := h; next_node := next_node s; next_pm := next_pm s |}.

Definition M (A : Type) : Type := State -> Res (A * State).

Definition ret {A} (a : A) : M A := fun s => Ok (a, s).

Definition bind {A B} (m : M A) (k : A -> M B) : M B :=
  fun s => match m s with
           | Ok (a, s') => k a s'
           | Err e => Err e
           end.

Definition fail {A} (e : error) : M A := fun _ => Err e.

Definition throw {A} (e : exn) : M A := fail (PyRaise e).

Definition lift {A} (r : Res A) : M A :=
  fun s => match r with
           | Ok a => Ok (a, s)
           | Err e => Err e
           end.

Declare Scope eval_scope.
Delimit Scope eval_scope with M.
Notation "x <- m ; k" := (bind m (fun x => k))
  (at level 20, m at level 100, k at level 200, only parsing) : eval_scope.
Notation "' p <- m ; k" := (bind m (fun x => match x with p => k end))
  (at level 20, p pattern, m at level 100, k at level 200, only parsing) : eval_scope.
Notation "m ;; k" := (bind m (fun _ => k))
  (at level 100, k at level 200, only parsing, right associativity) : eval_scope.

(** A reference to a node object; [None] is Python's None, on which every
    attribute access raises AttributeError. *)
Definition lookup_node (h : gmap nat Node) (n : nat) : Res Node :=
  match h !! n with
  | Some nd => Ok nd
  | None => raise AttributeError
  end.

Definition deref (o : option nat) : Res nat :=
  match o with
  | Some n => Ok n
  | None => raise AttributeError
  end.

Definition read (n : nat) : M Node := fun s => lift (lookup_node (heap s) n) s.

Definition modify (n : nat) (f : Node -> Node) : M unit :=
  fun s => match heap s !! n with
           | Some nd => Ok (tt, set_heap (<[ n := f nd ]> (heap s)) s)
           | None => raise AttributeError
           end.

Definition get_heap : M (gmap nat Node) := fun s => Ok (heap s, s).

(** A new node object. *)
Definition alloc (nd : Node) : M nat :=
  fun s => Ok (next_node s,
               {| heap := <[ next_node s := nd ]> (heap s);
                  next_node := S (next_node s); next_pm := next_pm s |}).

(** [PartialMatch(events)] *)
Definition new_PartialMatch (evs : list Event) : M PartialMatch :=
  fun s => match PartialMatch_init (next_pm s) evs with
           | Ok pm => Ok (pm, {| heap := heap s; next_node := next_node s;
                                 next_pm := S (next_pm s) |})
           | Err e => Err e
           end.

Fixpoint for_each {A} (l : list A) (body : A -> M unit) : M unit :=
  match l with
  | [] => ret tt
  | x :: rest => (body x ;; for_each rest body)%M
  end.

(** Walks over the tree follow references; on a well-formed tree they end
    within [size heap] steps, and on a cyclic one Python does not return. *)
Definition depth_budget (h : gmap nat Node) : nat := S (size h).

(** ** Node: navigation *)

Module Node.

Fixpoint get_root_from (budget : nat) (h : gmap nat Node) (node : nat) : Res nat :=
  match budget with
  | O => Err NoFuel
  | S budget' =>
      (nd <~ lookup_node h node ;
       match parent nd with
       | None => Ok node
       | Some p => get_root_from budget' h p
       end)%res
  end.

Definition get_root (h : gmap nat Node) (self : nat) : Res nat :=
  get_root_from (depth_budget h) h self.

Fixpoint get_first_FCNodes_from (budget : nat) (h : gmap nat Node) (self : nat)
  : Res (list nat) :=
  match budget with
  | O => Err NoFuel
  | S budget' =>
      (nd <~ lookup_node h self ;
       match cls nd with
       | LeafNode => Ok []
       | FirstChanceNode => Ok (if is_first nd then [self] else [])
       | AndNode | SeqNode | PostProcessingNode =>
           l <~ deref (left_subtree nd) ;
           lnd <~ lookup_node h l ;
           res1 <~ (if is_leaf_class (cls lnd) then Ok []
                    else get_first_FCNodes_from budget' h l) ;
           r <~ deref (right_subtree nd) ;
           rnd <~ lookup_node h r ;
           res2 <~ (if is_leaf_class (cls rnd) then Ok []
                    else get_first_FCNodes_from budget' h r) ;
           Ok (res1 ++ res2)
       end)%res
  end.

Definition get_first_FCNodes (h : gmap nat Node) (self : nat) : Res (list nat) :=
  get_first_FCNodes_from (depth_budget h) h self.

Fixpoint get_event_definitions_from (budget : nat) (h : gmap nat Node) (self : nat)
  : Res (list EventDef) :=
  match budget with
  | O => Err NoFuel
  | S budget' =>
      (nd <~ lookup_node h self ;
       match cls nd with
       | LeafNode =>
           Ok [(leaf_index nd,
                {| q_event_type := leaf_event_type nd; q_name := leaf_event_name nd;
                   q_index := qitem_index nd |})]
       | AndNode | SeqNode => Ok (event_defs nd)
       | FirstChanceNode | PostProcessingNode =>
           l <~ deref (left_subtree nd) ;
           get_event_definitions_from budget' h l
       end)%res
  end.

Definition get_event_definitions (h : gmap nat Node) (self : nat) : Res (list EventDef) :=
  get_event_definitions_from (depth_budget h) h self.

Fixpoint get_leaves_from (budget : nat) (h : gmap nat Node) (self : nat)
  : Res (list nat) :=
  match budget with
  | O => Err NoFuel
  | S budget' =>
      (nd <~ lookup_node h self ;
       match cls nd with
       | LeafNode => Ok [self]
       | _ =>
           res1 <~ match left_subtree nd with
                   | Some l => get_leaves_from budget' h l
                   | None => Ok []
                   end ;
           res2 <~ match right_subtree nd with
                   | Some r => get_leaves_from budget' h r
                   | None => Ok []
                   end ;
           Ok (res1 ++ res2)
       end)%res
  end.

Definition get_leaves (h : gmap nat Node) (self : nat) : Res (list nat) :=
  get_leaves_from (depth_budget h) h self.

(** Returns None when an internal node has no left subtree. *)
Fixpoint get_deepest_leave_from (budget : nat) (h : gmap nat Node) (self : nat)
  : Res (option nat) :=
  match budget with
  | O => Err NoFuel
  | S budget' =>
      (nd <~ lookup_node h self ;
       match cls nd with
       | LeafNode => Ok (Some self)
       | _ =>
           match left_subtree nd with
           | Some l => get_deepest_leave_from budget' h l
           | None => Ok None
           end
       end)%res
  end.

Definition get_deepest_leave (h : gmap nat Node) (self : nat) : Res (option nat) :=
  get_deepest_leave_from (depth_budget h) h self.

(** [InternalNegationNode.get_first_last_negative_node] *)
Fixpoint get_first_last_negative_node_from (budget : nat) (h : gmap nat Node)
         (self : nat) : Res nat :=
  match budget with
  | O => Err NoFuel
  | S budget' =>
      (nd <~ lookup_node h self ;
       match left_subtree nd with
       | None => Ok self
       | Some l =>
           lnd <~ lookup_node h l ;
           if is_negation_class (cls lnd) && is_last lnd
           then get_first_last_negative_node_from budget' h l
           else Ok self
       end)%res
  end.

Definition get_first_last_negative_node (h : gmap nat Node) (self : nat) : Res nat :=
  get_first_last_negative_node_from (depth_budget h) h self.

(** The [while] loop of [clean_expired_partial_matches] that looks for the
    node that holds the threshold; the result may be None. *)
Fixpoint node_to_hold_threshold_from (budget : nat) (h : gmap nat Node)
         (node : option nat) : Res (option nat) :=
  match budget with
  | O => Err NoFuel
  | S budget' =>
      match node with
      | None => Ok None
      | Some n =>
          (nd <~ lookup_node h n ;
           if is_first_chance (cls nd) && is_last nd
           then node_to_hold_threshold_from budget' h (left_subtree nd)
           else Ok (Some n))%res
      end
  end.

End Node.

(** ** The partial-match store of a node

    The operations on [_partial_matches] as functions on the list. *)

Module Store.

Definition find (pms : list PartialMatch) (t : datetime) : Res Z :=
  Utils.find_partial_match_by_timestamp first_timestamp pms t.

(** [add_partial_match]: the list after the insertion. *)
Definition add_partial_match (pms : list PartialMatch) (pm : PartialMatch)
  : Res (list PartialMatch) :=
  (index <~ find pms (first_timestamp pm) ;
   Ok (PyList.insert pms index pm))%res.

(** The first step of [clean_expired_partial_matches]. *)
Definition clean_expired_partial_matches (sliding_window : timedelta)
           (pms : list PartialMatch) (last_timestamp : datetime)
  : Res (list PartialMatch) :=
  if sliding_window =? timedelta_max then Ok pms
  else
    (count <~ find pms (last_timestamp - sliding_window) ;
     Ok (PyList.slice_from pms count))%res.

(** [consume_first_partial_match]: [ret = l[0]; del l[0]]. *)
Definition consume_first_partial_match (pms : list PartialMatch)
  : Res (PartialMatch * list PartialMatch) :=
  match pms with
  | [] => raise IndexError
  | pm :: rest => Ok (pm, rest)
  end.

(** [match in matches_to_remove] *)
Definition pm_in (pm : PartialMatch) (l : list PartialMatch) : bool :=
  existsb (pm_same pm) l.

(** [_remove_partial_matches] *)
Definition remove_partial_matches (pms matches_to_remove : list PartialMatch)
  : list PartialMatch :=
  List.filter (fun pm => negb (pm_in pm matches_to_remove)) pms.

(** [sorted(l, key=lambda x: x.first_timestamp)]: Python's sort is stable. *)
Fixpoint insert_by_first_timestamp (x : PartialMatch) (l : list PartialMatch)
  : list PartialMatch :=
  match l with
  | [] => [x]
  | y :: rest =>
      if first_timestamp x <=? first_timestamp y then x :: y :: rest
      else y :: insert_by_first_timestamp x rest
  end.

Definition sorted_by_first_timestamp (l : list PartialMatch) : list PartialMatch :=
  fold_right insert_by_first_timestamp [] l.

End Store.

(** ** The join of two partial matches *)

Module Join.

(** The binding of [InternalNode._validate_new_match]:
    [{event_defs[i][1].name: events[i].payload for i in range(len(event_defs))}] *)
Fixpoint build_binding (defs : list EventDef) (evs : list Event) (b : Binding)
  : Res Binding :=
  match defs with
  | [] => Ok b
  | d :: ds =>
      match evs with
      | [] => raise IndexError
      | e :: es => build_binding ds es (<[ q_name (snd d) := payload e ]> b)
      end
  end.

(** [InternalNode._validate_new_match] *)
Definition InternalNode_validate_new_match (nd : Node) (evs : list Event) : Res bool :=
  (binding <~ build_binding (event_defs nd) evs ∅ ;
   FormulaOps.eval (condition nd) binding)%res.

(** [_validate_new_match] of the class of [nd] *)
Definition validate_new_match (nd : Node) (evs : list Event) : Res bool :=
  match cls nd with
  | SeqNode =>
      if negb (Utils.is_sorted timestamp evs) then Ok false
      else InternalNode_validate_new_match nd evs
  | _ => InternalNode_validate_new_match nd evs
  end.

(** [_merge_events_for_new_match] of the class of [nd] *)
Definition merge_events_for_new_match (nd : Node)
           (first_event_defs second_event_defs : list EventDef)
           (first_event_list second_event_list : list Event) : Res (list Event) :=
  match cls nd with
  | SeqNode =>
      Utils.merge_according_to fst first_event_defs second_event_defs
                               first_event_list second_event_list
  | _ =>
      (d <~ PyList.getitem (event_defs nd) 0 ;
       d1 <~ PyList.getitem first_event_defs 0 ;
       if fst d =? fst d1 then Ok (first_event_list ++ second_event_list)
       else
         d2 <~ PyList.getitem second_event_defs 0 ;
         if fst d =? fst d2 then Ok (second_event_list ++ first_event_list)
         else raise Exception)%res
  end.

Definition outside_window (nd : Node) (first second : PartialMatch) : bool :=
  negb (sliding_window nd =? timedelta_max)
  && (Z.abs (last_timestamp first - first_timestamp second) >? sliding_window nd).

(** The outcome of the checks of [InternalNode._try_create_new_match],
    in the order in which the method performs them. *)
Inductive Decision : Type :=
| RejectedByWindow
| RejectedByValidation
| RejectedByThreshold
| Accepted (events_for_new_match : list Event).

Definition threshold_rejects (nd : Node) (first : PartialMatch) : bool :=
  match threshold nd with
  | None => false                                (* [self.threshold != 0] fails *)
  | Some t => last_timestamp first <? t
  end.

Definition InternalNode_decide (nd : Node) (first second : PartialMatch)
           (first_event_defs second_event_defs : list EventDef) : Res Decision :=
  if outside_window nd first second then Ok RejectedByWindow
  else
    (evs <~ merge_events_for_new_match nd first_event_defs second_event_defs
                                       (events first) (events second) ;
     valid <~ validate_new_match nd evs ;
     if negb valid then Ok RejectedByValidation
     else if threshold_rejects nd first then Ok RejectedByThreshold
     else Ok (Accepted evs))%res.

(** [InternalNegationNode._try_create_new_match]: changes nothing and
    returns a truth value (None, returned by the window check, is false). *)
Definition InternalNegationNode_try_create_new_match (nd : Node)
           (first second : PartialMatch)
           (first_event_defs second_event_defs : list EventDef) : Res bool :=
  if outside_window nd first second then Ok false
  else
    (evs <~ Utils.merge_according_to get_index first_event_defs second_event_defs
                                     (events first) (events second) ;
     match top_operator nd with
     | SeqOperator =>
         if negb (Utils.is_sorted timestamp evs) then Ok false
         else InternalNode_validate_new_match nd evs
     | AndOperator => raise NotImplementedError
     | OrOperator => raise NotImplementedError
     end)%res.

(** [for x in l: if f(x): ...; break] *)
Fixpoint find_first {A} (f : A -> Res bool) (l : list A) : Res (option A) :=
  match l with
  | [] => Ok None
  | x :: rest =>
      (b <~ f x ;
       if b then Ok (Some x) else find_first f rest)%res
  end.

(** [[x for x in l if f(x)]] *)
Fixpoint filter_res {A} (f : A -> Res bool) (l : list A) : Res (list A) :=
  match l with
  | [] => Ok []
  | x :: rest =>
      (b <~ f x ;
       keep <~ filter_res f rest ;
       Ok (if b then x :: keep else keep))%res
  end.

End Join.

(** ** The methods of the nodes

    [clean_expired_partial_matches] and [handle_new_partial_match] call each
    other; their bodies are written over the two methods one call deeper
    ([rec_clean_expired], [rec_handle_new]), and tied together below.

    A [for] loop over a list attribute runs here over the value the
    attribute has when the loop starts.  On the trees [Tree] builds (one
    window for every node) this is what Python does: a node's
    [_partial_matches] is rebound by its own [clean_expired_partial_matches]
    before anything is inserted into it, and with [timedelta.max] nothing is
    inserted below a node while it iterates. *)

Module Methods.

Section Bodies.
Variable rec_clean_expired : nat -> datetime -> M unit.
Variable rec_handle_new : nat -> nat -> M unit.

(** [Queue.put] *)
Definition put_unhandled (self : nat) (pm : PartialMatch) : M unit :=
  modify self (fun nd =>
    set_unhandled_partial_matches (unhandled_partial_matches nd ++ [pm]) nd).

(** [get_last_unhandled_partial_match]: [Queue.get] takes the oldest
    entry and waits for one when the queue is empty. *)
Definition get_last_unhandled_partial_match (self : nat) : M PartialMatch :=
  (nd <- read self ;
   match unhandled_partial_matches nd with
   | [] => fail Blocks
   | pm :: rest => modify self (set_unhandled_partial_matches rest) ;; ret pm
   end)%M.

Definition add_partial_match (self : nat) (pm : PartialMatch) : M unit :=
  (nd <- read self ;
   pms <- lift (Store.add_partial_match (partial_matches nd) pm) ;
   modify self (set_partial_matches pms) ;;
   match parent nd with
   | Some _ => put_unhandled self pm
   | None => ret tt
   end)%M.

(** [if self._parent is not None: self._parent.handle_new_partial_match(self)] *)
Definition notify_parent (self : nat) : M unit :=
  (nd <- read self ;
   match parent nd with
   | Some p => rec_handle_new p self
   | None => ret tt
   end)%M.

Definition get_event_definitions (self : nat) : M (list EventDef) :=
  (h <- get_heap ; lift (Node.get_event_definitions h self))%M.

(** *** Expiration *)

(** The second step of [clean_expired_partial_matches]: a negation node
    with [is_last] moves the entries of [waiting_for_time_out] that can
    no longer be invalidated to the root. *)
Definition release_waiting_for_time_out (self : nat) (last_timestamp : datetime)
  : M unit :=
  (nd <- read self ;
   if is_negation_class (cls nd) && is_last nd then
     let waiting := Store.sorted_by_first_timestamp (waiting_for_time_out nd) in
     modify self (set_waiting_for_time_out waiting) ;;
     count <- lift (Store.find waiting (last_timestamp - sliding_window nd)) ;
     h <- get_heap ;
     root <- lift (Node.get_root h self) ;
     rnd <- read root ;
     (if is_negation_class (cls rnd) then ret tt else throw AttributeError) ;;
     modify root (fun r =>
       set_matches_to_handle_at_EOF
         (matches_to_handle_at_EOF r ++ PyList.slice_to waiting count) r) ;;
     modify self (set_waiting_for_time_out (PyList.slice_from waiting count))
   else ret tt)%M.

(** The body of [for pm in partial_matches] in the third step: a match
    that an expired negative event had blocked goes up the tree again. *)
Definition unblock (self node : nat) (last_timestamp : datetime) (pm : PartialMatch)
  : M unit :=
  (h <- get_heap ;
   root <- lift (Node.get_root h self) ;
   holder <- lift (Node.node_to_hold_threshold_from (depth_budget h) h (Some root)) ;
   holder <- lift (deref holder) ;
   modify holder (set_threshold (Some last_timestamp)) ;;
   modify node (fun nd =>
     set_check_expired_timestamp
       (List.filter (fun x => negb (pm_same (snd x) pm)) (check_expired_timestamp nd))
       nd) ;;
   nd <- read node ;
   l <- lift (deref (left_subtree nd)) ;
   put_unhandled l pm ;;
   rec_handle_new node l ;;
   modify holder (set_threshold None))%M.

(** The body of [for node in list_of_nodes]; [true] is the [return]
    taken when the node's window is unbounded. *)
Definition revisit_first_chance_node (self : nat) (last_timestamp : datetime)
           (node : nat) : M bool :=
  (nd <- read node ;
   if sliding_window nd =? timedelta_max then ret true
   else
     r <- lift (deref (right_subtree nd)) ;
     rnd <- read r ;
     count <- lift (Store.find (partial_matches rnd)
                               (last_timestamp - sliding_window rnd)) ;
     modify r (set_partial_matches (PyList.slice_from (partial_matches rnd) count)) ;;
     nd <- read node ;
     let blocked :=
       map snd (List.filter (fun x => fst x <? last_timestamp)
                            (check_expired_timestamp nd)) in
     for_each blocked (unblock self node last_timestamp) ;;
     ret false)%M.

Fixpoint for_each_until {A} (l : list A) (body : A -> M bool) : M unit :=
  match l with
  | [] => ret tt
  | x :: rest =>
      (stop <- body x ;
       if stop then ret tt else for_each_until rest body)%M
  end.

Definition clean_expired_partial_matches_body (self : nat) (last_timestamp : datetime)
  : M unit :=
  (nd <- read self ;
   if sliding_window nd =? timedelta_max then ret tt
   else
     pms <- lift (Store.clean_expired_partial_matches
                    (sliding_window nd) (partial_matches nd) last_timestamp) ;
     modify self (set_partial_matches pms) ;;
     release_waiting_for_time_out self last_timestamp ;;
     h <- get_heap ;
     list_of_nodes <- lift (match parent nd with
                            | Some p => Node.get_first_FCNodes h p
                            | None => Node.get_first_FCNodes h self
                            end) ;
     for_each_until list_of_nodes (revisit_first_chance_node self last_timestamp))%M.

(** *** InternalNode (AndNode, SeqNode) *)

Definition InternalNode_try_create_new_match (self : nat)
           (first second : PartialMatch)
           (first_event_defs second_event_defs : list EventDef) : M unit :=
  (nd <- read self ;
   d <- lift (Join.InternalNode_decide nd first second
                                       first_event_defs second_event_defs) ;
   match d with
   | Join.Accepted evs =>
       pm <- new_PartialMatch evs ;
       add_partial_match self pm ;;
       notify_parent self
   | _ => ret tt
   end)%M.

Definition InternalNode_handle_new_partial_match (self source : nat) : M unit :=
  (nd <- read self ;
   other_subtree <-
     (if bool_decide (left_subtree nd = Some source) then ret (right_subtree nd)
      else if bool_decide (right_subtree nd = Some source) then ret (left_subtree nd)
      else throw Exception) ;
   new_partial_match <- get_last_unhandled_partial_match source ;
   first_event_defs <- get_event_definitions source ;
   other <- lift (deref other_subtree) ;
   rec_clean_expired other (last_timestamp new_partial_match) ;;
   ond <- read other ;
   let partial_matches_to_compare := partial_matches ond in
   second_event_defs <- get_event_definitions other ;
   rec_clean_expired self (last_timestamp new_partial_match) ;;
   for_each partial_matches_to_compare (fun partialMatch =>
     InternalNode_try_create_new_match self new_partial_match partialMatch
                                       first_event_defs second_event_defs))%M.

(** *** InternalNegationNode *)

Definition try_create_new_match (self : nat) (first second : PartialMatch)
           (first_event_defs second_event_defs : list EventDef) : M bool :=
  (nd <- read self ;
   lift (Join.InternalNegationNode_try_create_new_match
           nd first second first_event_defs second_event_defs))%M.

Definition handle_PM_with_negation_at_the_end (self source : nat) : M unit :=
  (h <- get_heap ;
   other <- lift (Node.get_first_last_negative_node h self) ;
   new_partial_match <- get_last_unhandled_partial_match source ;
   first_event_defs <- get_event_definitions source ;
   rec_clean_expired other (last_timestamp new_partial_match) ;;
   ond <- read other ;
   let partial_matches_to_compare := waiting_for_time_out ond in
   second_event_defs <- get_event_definitions other ;
   rec_clean_expired self (last_timestamp new_partial_match) ;;
   nd <- read self ;
   matches_to_keep <-
     lift (Join.filter_res
             (fun partialMatch =>
                (b <~ Join.InternalNegationNode_try_create_new_match
                        nd new_partial_match partialMatch
                        first_event_defs second_event_defs ;
                 Ok (negb b))%res)
             partial_matches_to_compare) ;
   modify other (set_waiting_for_time_out matches_to_keep))%M.

(** [_remove_partial_matches] *)
Definition remove_partial_matches (self : nat) (matches_to_remove : list PartialMatch)
  : M unit :=
  modify self (fun nd =>
    set_partial_matches
      (Store.remove_partial_matches (partial_matches nd) matches_to_remove) nd).

(** [while node is not None and type(node) == FirstChanceNode] *)
Fixpoint remove_upwards (budget : nat) (node : option nat)
         (matches_to_remove : list PartialMatch) : M unit :=
  match node with
  | None => ret tt
  | Some n =>
      (nd <- read n ;
       if is_first_chance (cls nd) then
         match budget with
         | O => fail NoFuel
         | S budget' =>
             remove_partial_matches n matches_to_remove ;;
             remove_upwards budget' (parent nd) matches_to_remove
         end
       else ret tt)%M
  end.

(** *** FirstChanceNode *)

Definition FirstChanceNode_handle_new_partial_match (self source : nat) : M unit :=
  (nd <- read self ;
   if bool_decide (left_subtree nd = Some source) then
     new_partial_match <- get_last_unhandled_partial_match source ;
     if is_last nd then
       modify self (fun nd =>
         set_waiting_for_time_out (waiting_for_time_out nd ++ [new_partial_match]) nd)
     else
       first_event_defs <- get_event_definitions source ;
       other <- lift (deref (right_subtree nd)) ;
       rec_clean_expired other (last_timestamp new_partial_match) ;;
       ond <- read other ;
       let partial_matches_to_compare := partial_matches ond in
       second_event_defs <- get_event_definitions other ;
       rec_clean_expired self (last_timestamp new_partial_match) ;;
       nd <- read self ;
       invalidating <- lift (Join.find_first
                               (fun partialMatch =>
                                  Join.InternalNegationNode_try_create_new_match
                                    nd new_partial_match partialMatch
                                    first_event_defs second_event_defs)
                               partial_matches_to_compare) ;
       match invalidating with
       | None =>
           add_partial_match self new_partial_match ;;
           notify_parent self
       | Some partialMatch =>
           if is_first nd then
             modify self (fun nd =>
               set_check_expired_timestamp
                 (check_expired_timestamp nd
                  ++ [(last_timestamp partialMatch + sliding_window nd,
                       new_partial_match)]) nd)
           else ret tt
       end
   else if bool_decide (right_subtree nd = Some source) then
     if is_first nd then ret tt
     else if is_last nd then handle_PM_with_negation_at_the_end self source
     else
       new_partial_match <- get_last_unhandled_partial_match source ;
       first_event_defs <- get_event_definitions source ;
       other <- lift (deref (left_subtree nd)) ;
       rec_clean_expired other (last_timestamp new_partial_match) ;;
       ond <- read other ;
       let partial_matches_to_compare := partial_matches ond in
       second_event_defs <- get_event_definitions other ;
       rec_clean_expired self (last_timestamp new_partial_match) ;;
       nd <- read self ;
       partial_match_to_remove <-
         lift (Join.filter_res
                 (fun partialMatch =>
                    Join.InternalNegationNode_try_create_new_match
                      nd new_partial_match partialMatch
                      first_event_defs second_event_defs)
                 partial_matches_to_compare) ;
       h <- get_heap ;
       remove_upwards (depth_budget h) (Some self) partial_match_to_remove
   else ret tt)%M.

(** *** PostProcessingNode *)

Definition PostProcessingNode_handle_new_partial_match (self source : nat) : M unit :=
  (nd <- read self ;
   if bool_decide (left_subtree nd = Some source) then
     if is_last nd then
       new_partial_match <- get_last_unhandled_partial_match source ;
       modify self (fun nd =>
         set_waiting_for_time_out (waiting_for_time_out nd ++ [new_partial_match]) nd)
     else
       new_partial_match <- get_last_unhandled_partial_match source ;
       first_event_defs <- get_event_definitions source ;
       other <- lift (deref (right_subtree nd)) ;
       rec_clean_expired other (last_timestamp new_partial_match) ;;
       ond <- read other ;
       let partial_matches_to_compare := partial_matches ond in
       second_event_defs <- get_event_definitions other ;
       rec_clean_expired self (last_timestamp new_partial_match) ;;
       nd <- read self ;
       invalidating <- lift (Join.find_first
                               (fun partialMatch =>
                                  Join.InternalNegationNode_try_create_new_match
                                    nd new_partial_match partialMatch
                                    first_event_defs second_event_defs)
                               partial_matches_to_compare) ;
       match invalidating with
       | Some _ => ret tt
       | None =>
           add_partial_match self new_partial_match ;;
           notify_parent self
       end
   else if bool_decide (right_subtree nd = Some source) then
     if is_last nd then handle_PM_with_negation_at_the_end self source
     else ret tt
   else throw Exception)%M.

(** The method of the class of [self]; a leaf has none. *)
Definition handle_new_partial_match_body (self source : nat) : M unit :=
  (nd <- read self ;
   match cls nd with
   | LeafNode => throw AttributeError
   | AndNode | SeqNode => InternalNode_handle_new_partial_match self source
   | FirstChanceNode => FirstChanceNode_handle_new_partial_match self source
   | PostProcessingNode => PostProcessingNode_handle_new_partial_match self source
   end)%M.

(** *** LeafNode *)

Definition LeafNode_handle_event (self : nat) (event : Event) : M unit :=
  (rec_clean_expired self (timestamp event) ;;
   nd <- read self ;
   let binding : Binding := {[ leaf_event_name nd := payload event ]} in
   holds <- lift (FormulaOps.eval (condition nd) binding) ;
   if negb holds then ret tt
   else
     pm <- new_PartialMatch [event] ;
     add_partial_match self pm ;;
     notify_parent self)%M.

End Bodies.

Fixpoint clean_expired_partial_matches (fuel : nat) : nat -> datetime -> M unit :=
  match fuel with
  | O => fun _ _ => fail NoFuel
  | S fuel' =>
      clean_expired_partial_matches_body (handle_new_partial_match fuel')
  end
with handle_new_partial_match (fuel : nat) : nat -> nat -> M unit :=
  match fuel with
  | O => fun _ _ => fail NoFuel
  | S fuel' =>
      handle_new_partial_match_body (clean_expired_partial_matches fuel')
                                    (handle_new_partial_match fuel')
  end.

Definition handle_event (fuel : nat) (leaf : nat) (event : Event) : M unit :=
  LeafNode_handle_event (clean_expired_partial_matches fuel)
                        (handle_new_partial_match fuel) leaf event.

End Methods.

(** ** Patterns *)

(** Modelled from the spec: base/PatternStructure.py and base/Pattern.py are
    not part of the sources.  An argument of the source pattern is a
    placeholder, positive or under a negation operator. *)
Inductive PatternArg : Type :=
| Positive (q : QItem)
| Negated (q : QItem).

Definition arg_item (a : PatternArg) : QItem :=
  match a with Positive q | Negated q => q end.

Definition is_negated (a : PatternArg) : bool :=
  match a with Negated _ => true | Positive _ => false end.

#[global] Instance QItem_eq_dec : EqDecision QItem.
Proof. solve_decision. Defined.

#[global] Instance PatternArg_eq_dec : EqDecision PatternArg.
Proof. solve_decision. Defined.

#[global] Instance Operator_eq_dec : EqDecision Operator.
Proof. solve_decision. Defined.

(** Modelled from the spec: a pattern gives the positive placeholders and
    their operator ([structure]), the predicate, the window, the source
    pattern with all its arguments ([origin_structure]) and the negated
    placeholders in source order ([negative_event]). *)
Record Pattern : Type := {
  structure_top_operator : Operator;
  structure_args : list QItem;
  pattern_condition : Formula;
  window : timedelta;
  origin_top_operator : Operator;
  origin_args : list PatternArg;
  negative_args : list PatternArg
}.

Inductive NegationMode : Type := POST_PROCESSING | FIRST_CHANCE.

(** The tree-shape descriptor: an index or a pair. *)
Inductive TreeStructure : Type :=
| Index (i : Z)
| Pair (left_structure right_structure : TreeStructure).

(** ** Tree *)

Module Tree.

Definition new_node (c : NodeClass) (w : timedelta) (p : option nat) : Node :=
  {| cls := c; parent := p; sliding_window := w; partial_matches := [];
     condition := TrueFormula; unhandled_partial_matches := [];
     leaf_index := 0; leaf_event_name := EmptyString; leaf_event_type := EmptyString;
     qitem_index := 0; event_defs := []; left_subtree := None;
     right_subtree := None; threshold := None; is_first := false;
     is_last := false; top_operator := SeqOperator; waiting_for_time_out := [];
     matches_to_handle_at_EOF := []; check_expired_timestamp := [] |}.

(** [LeafNode(sliding_window, leaf_index, leaf_qitem, parent)] *)
Definition new_LeafNode (w : timedelta) (index : Z) (q : QItem) (p : option nat) : Node :=
  let nd := new_node LeafNode w p in
  {| cls := cls nd; parent := parent nd; sliding_window := sliding_window nd;
     partial_matches := partial_matches nd; condition := condition nd;
     unhandled_partial_matches := unhandled_partial_matches nd;
     leaf_index := index; leaf_event_name := q_name q;
     leaf_event_type := q_event_type q; qitem_index := q_index q;
     event_defs := event_defs nd; left_subtree := left_subtree nd;
     right_subtree := right_subtree nd; threshold := threshold nd;
     is_first := is_first nd; is_last := is_last nd;
     top_operator := top_operator nd;
     waiting_for_time_out := waiting_for_time_out nd;
     matches_to_handle_at_EOF := matches_to_handle_at_EOF nd;
     check_expired_timestamp := check_expired_timestamp nd |}.

(** [FirstChanceNode(window, is_first, is_last, top_operator)] and
    [PostProcessingNode(...)] *)
Definition new_NegationNode (c : NodeClass) (w : timedelta) (first last : bool)
           (op : Operator) : Node :=
  let nd := new_node c w None in
  {| cls := cls nd; parent := parent nd; sliding_window := sliding_window nd;
     partial_matches := partial_matches nd; condition := condition nd;
     unhandled_partial_matches := unhandled_partial_matches nd;
     leaf_index := leaf_index nd; leaf_event_name := leaf_event_name nd;
     leaf_event_type := leaf_event_type nd; qitem_index := qitem_index nd;
     event_defs := event_defs nd; left_subtree := left_subtree nd;
     right_subtree := right_subtree nd; threshold := threshold nd;
     is_first := first; is_last := last; top_operator := op;
     waiting_for_time_out := waiting_for_time_out nd;
     matches_to_handle_at_EOF := matches_to_handle_at_EOF nd;
     check_expired_timestamp := check_expired_timestamp nd |}.

(** [_set_event_definitions] of the class [c] *)
Definition merged_event_definitions (c : NodeClass)
           (left_event_defs right_event_defs : list EventDef) : Res (list EventDef) :=
  match c with
  | SeqNode => Utils.merge fst left_event_defs right_event_defs
  | FirstChanceNode | PostProcessingNode =>
      Utils.merge get_index left_event_defs right_event_defs
  | _ => Ok (left_event_defs ++ right_event_defs)
  end.

(** [InternalNode.set_subtrees] *)
Definition set_subtrees (self : nat) (l r : option nat) : M unit :=
  (modify self (fun nd => set_right_subtree r (set_left_subtree l nd)) ;;
   h <- get_heap ;
   ln <- lift (deref l) ;
   left_event_defs <- lift (Node.get_event_definitions h ln) ;
   rn <- lift (deref r) ;
   right_event_defs <- lift (Node.get_event_definitions h rn) ;
   nd <- read self ;
   defs <- lift (merged_event_definitions (cls nd) left_event_defs right_event_defs) ;
   modify self (set_event_defs defs))%M.

Definition set_parent (self : nat) (p : option nat) : M unit :=
  modify self (set_parent p).

(** [name in names] when [names] is a string *)
Definition is_substring (name names : string) : bool :=
  match String.index 0 name names with
  | Some _ => true
  | None => false
  end.

(** [{item[1].name for item in event_defs}] as a membership test *)
Definition names_of (defs : list EventDef) (name : string) : bool :=
  bool_decide (name ∈ map (fun item => q_name (snd item)) defs).

Definition or_TrueFormula (condition : option Formula) : Formula :=
  match condition with
  | Some c => c
  | None => TrueFormula
  end.

(** [apply_formula] *)
Fixpoint apply_formula (budget : nat) (self : nat) (formula : Formula) : M unit :=
  match budget with
  | O => fail NoFuel
  | S budget' =>
      (nd <- read self ;
       match cls nd with
       | LeafNode =>
           match FormulaOps.get_formula_of formula
                   (fun name => is_substring name (leaf_event_name nd)) with
           | Some c => modify self (set_condition c)
           | None => ret tt
           end
       | _ =>
           let c := or_TrueFormula
                      (FormulaOps.get_formula_of formula (names_of (event_defs nd))) in
           modify self (set_condition c) ;;
           l <- lift (deref (left_subtree nd)) ;
           apply_formula budget' l c ;;
           r <- lift (deref (right_subtree nd)) ;
           apply_formula budget' r c
       end)%M
  end.

(** [Tree.__construct_tree] *)
Fixpoint construct_tree (is_sequence : bool) (tree_structure : TreeStructure)
         (args : list QItem) (sliding_window : timedelta) (parent : option nat)
  : M nat :=
  match tree_structure with
  | Index i =>
      (q <- lift (PyList.getitem args i) ;
       alloc (new_LeafNode sliding_window i q parent))%M
  | Pair left_structure right_structure =>
      (current <- alloc (new_node (if is_sequence then SeqNode else AndNode)
                                  sliding_window parent) ;
       l <- construct_tree is_sequence left_structure args sliding_window (Some current) ;
       r <- construct_tree is_sequence right_structure args sliding_window (Some current) ;
       set_subtrees current (Some l) (Some r) ;;
       ret current)%M
  end.

(** [l.index(p)] *)
Fixpoint list_index (l : list PatternArg) (p : PatternArg) : Res Z :=
  match l with
  | [] => raise ValueError
  | x :: rest =>
      if bool_decide (x = p) then Ok 0
      else (i <~ list_index rest p ; Ok (i + 1))%res
  end.

(** The flags of the negation node of [p]; the result also tells whether
    [counter] is incremented. *)
Definition negation_flags (pattern : Pattern) (counter : Z) (p : PatternArg)
  : Res (bool * bool * bool) :=
  (o <~ PyList.getitem (origin_args pattern) counter ;
   if bool_decide (p = o) then Ok (true, false, true)
   else
     i <~ list_index (negative_args pattern) p ;
     j <~ list_index (origin_args pattern) p ;
     if Z.of_nat (length (negative_args pattern)) - i
        =? Z.of_nat (length (origin_args pattern)) - j
     then Ok (false, true, false)
     else Ok (false, false, false))%res.

(** The manual [apply_formula] of a negation node. *)
Definition set_negation_condition (pattern : Pattern) (node : nat) : M unit :=
  (nd <- read node ;
   modify node (set_condition
     (or_TrueFormula (FormulaOps.get_formula_of (pattern_condition pattern)
                                                (names_of (event_defs nd))))))%M.

(** [create_PostProcessing_Tree]: the loop over [negative_event_list]. *)
Fixpoint create_PostProcessing_loop (pattern : Pattern) (ps : list PatternArg)
         (temp_root : nat) (counter : Z) : M nat :=
  match ps with
  | [] => ret temp_root
  | p :: rest =>
      ('(first, last, incr) <- lift (negation_flags pattern counter p) ;
       temporal_root <- alloc (new_NegationNode PostProcessingNode (window pattern)
                                                first last (origin_top_operator pattern)) ;
       temp_neg_event <- alloc (new_LeafNode (window pattern) 1 (arg_item p)
                                             (Some temporal_root)) ;
       set_subtrees temporal_root (Some temp_root) (Some temp_neg_event) ;;
       set_parent temp_neg_event (Some temporal_root) ;;
       set_parent temp_root (Some temporal_root) ;;
       set_negation_condition pattern temporal_root ;;
       create_PostProcessing_loop pattern rest temporal_root
                                  (if incr : bool then counter + 1 else counter))%M
  end.

Definition create_PostProcessing_Tree (pattern : Pattern) (temp_root : nat) : M nat :=
  create_PostProcessing_loop pattern (negative_args pattern) temp_root 0.

(** [find_positive_events_before] of misc/Utils.py *)
Fixpoint find_positive_events_before (p : PatternArg) (set : gset string)
         (origin : list PatternArg) : gset string :=
  match origin with
  | [] => set
  | e :: rest =>
      if bool_decide (e = p) then set
      else find_positive_events_before p
             (if is_negated e then set else set ∪ {[ q_name (arg_item e) ]}) rest
  end.

(** [while type(node._parent) == FirstChanceNode: node = node._parent] *)
Fixpoint climb_FirstChance (budget : nat) (h : gmap nat Node) (node : nat) : Res nat :=
  match budget with
  | O => Err NoFuel
  | S budget' =>
      (nd <~ lookup_node h node ;
       match parent nd with
       | None => Ok node
       | Some p =>
           pnd <~ lookup_node h p ;
           if is_first_chance (cls pnd) then climb_FirstChance budget' h p
           else Ok node
       end)%res
  end.

(** The body taken when [result] holds: a FirstChanceNode is spliced in
    above [node]. *)
Definition splice_FirstChanceNode (pattern : Pattern) (p : PatternArg) (node : nat)
  : M nat :=
  (h <- get_heap ;
   node <- lift (climb_FirstChance (depth_budget h) h node) ;
   '(first, last, _) <- lift (negation_flags pattern 0 p) ;
   temporal_root <- alloc (new_NegationNode FirstChanceNode (window pattern)
                                            first last (origin_top_operator pattern)) ;
   temp_neg_event <- alloc (new_LeafNode (window pattern) 1 (arg_item p)
                                         (Some temporal_root)) ;
   apply_formula 1 temp_neg_event (pattern_condition pattern) ;;
   set_subtrees temporal_root (Some node) (Some temp_neg_event) ;;
   set_parent temp_neg_event (Some temporal_root) ;;
   nd <- read node ;
   set_parent temporal_root (parent nd) ;;
   set_parent node (Some temporal_root) ;;
   match parent nd with
   | Some pp =>
       ppnd <- read pp ;
       set_subtrees pp (Some temporal_root) (right_subtree ppnd)
   | None => ret tt
   end ;;
   set_negation_condition pattern temporal_root ;;
   ret node)%M.

(** [while keep_looking] *)
Fixpoint place_negation (budget : nat) (pattern : Pattern) (p : PatternArg)
         (set_of_depending_events : gset string) (node : option nat) : M nat :=
  match budget with
  | O => fail NoFuel
  | S budget' =>
      (n <- lift (deref node) ;
       h <- get_heap ;
       defs <- lift (Node.get_event_definitions h n) ;
       if bool_decide (set_Forall (fun elem => names_of defs elem = true)
                                  set_of_depending_events)
       then splice_FirstChanceNode pattern p n
       else
         nd <- read n ;
         place_negation budget' pattern p set_of_depending_events (parent nd))%M
  end.

(** [create_FirstChanceNegation_Tree]: the loop over [negative_event_list];
    [root] is [self.__root], the root of the positive tree. *)
Fixpoint create_FirstChance_loop (pattern : Pattern) (ps : list PatternArg)
         (root : nat) (node : nat) : M nat :=
  match ps with
  | [] => ret node
  | p :: rest =>
      (let name := q_name (arg_item p) in
       p_conditions <- lift (FormulaOps.get_events_in_a_condition_with
                               (pattern_condition pattern) name) ;
       let s0 : gset string :=
         match p_conditions with
         | Some c => FormulaOps.get_all_terms c ∅
         | None => ∅
         end in
       let s1 :=
         if bool_decide (origin_top_operator pattern = SeqOperator)
         then find_positive_events_before p s0 (origin_args pattern)
         else s0 in
       let set_of_depending_events := s1 ∖ {[ name ]} in
       h <- get_heap ;
       leaf <- lift (Node.get_deepest_leave h root) ;
       node <- place_negation (depth_budget h) pattern p set_of_depending_events leaf ;
       create_FirstChance_loop pattern rest root node)%M
  end.

Definition create_FirstChanceNegation_Tree (pattern : Pattern) (root : nat) : M nat :=
  (node <- create_FirstChance_loop pattern (negative_args pattern) root root ;
   h <- get_heap ;
   lift (Node.get_root h node))%M.

(** [Tree.__init__]; the result is the root of the tree. *)
Definition init (tree_structure : TreeStructure) (pattern : Pattern)
           (negation_mode : NegationMode) : M nat :=
  (temp_root <- construct_tree
                  (bool_decide (structure_top_operator pattern = SeqOperator))
                  tree_structure (structure_args pattern) (window pattern) None ;
   h <- get_heap ;
   apply_formula (depth_budget h) temp_root (pattern_condition pattern) ;;
   match negation_mode with
   | POST_PROCESSING => create_PostProcessing_Tree pattern temp_root
   | FIRST_CHANCE => create_FirstChanceNegation_Tree pattern temp_root
   end)%M.

(** [Node.consume_first_partial_match] *)
Definition consume_first_partial_match (self : nat) : M PartialMatch :=
  (nd <- read self ;
   '(pm, rest) <- lift (Store.consume_first_partial_match (partial_matches nd)) ;
   modify self (set_partial_matches rest) ;;
   ret pm)%M.

(** [Tree.get_matches], drained: the loop runs while the root has partial
    matches and each round removes one, so [budget] is their number. *)
Fixpoint get_matches (budget : nat) (root : nat) : M (list (list Event)) :=
  (nd <- read root ;
   match partial_matches nd with
   | [] => ret []
   | _ :: _ =>
       match budget with
       | O => fail NoFuel
       | S budget' =>
           pm <- consume_first_partial_match root ;
           rest <- get_matches budget' root ;
           ret (events pm :: rest)
       end
   end)%M.

Definition drain_matches (root : nat) : M (list (list Event)) :=
  (nd <- read root ;
   get_matches (length (partial_matches nd)) root)%M.

Definition emit (evs : list Event) : StreamOp := add_item {| match_events := evs |}.

(** [Tree.handle_EOF]: the calls made on the output stream, and whether
    the method returns. *)
Definition handle_EOF (h : gmap nat Node) (root : nat) : list StreamOp * Res unit :=
  match lookup_node h root with
  | Err e => ([], Err e)
  | Ok rnd =>
      let out1 := map (fun m => emit (events m)) (matches_to_handle_at_EOF rnd) in
      match (node <~ Node.get_first_last_negative_node h root ;
             lookup_node h node)%res with
      | Err e => (out1, Err e)
      | Ok nnd =>
          (out1 ++ map (fun m => emit (events m)) (waiting_for_time_out nnd), Ok tt)
      end
  end.

End Tree.

(** ** TreeBasedEvaluationMechanism *)

Module Mechanism.

(** The dictionary [event_types_listeners]. *)
Fixpoint register_listeners (h : gmap nat Node) (leaves : list nat)
         (listeners : gmap string (list nat)) : Res (gmap string (list nat)) :=
  match leaves with
  | [] => Ok listeners
  | leaf :: rest =>
      (nd <~ lookup_node h leaf ;
       let t := leaf_event_type nd in
       register_listeners h rest
         match listeners !! t with
         | Some l => <[ t := l ++ [leaf] ]> listeners
         | None => <[ t := [leaf] ]> listeners
         end)%res
  end.

(** [for leaf in event_types_listeners[event.event_type]]: the output so
    far, and the state or the error that ends the run. *)
Fixpoint send_to_leaves (fuel : nat) (root : nat) (event : Event) (leaves : list nat)
         (out : list StreamOp) (s : State) : list StreamOp * Res State :=
  match leaves with
  | [] => (out, Ok s)
  | leaf :: rest =>
      match (Methods.handle_event fuel leaf event ;; Tree.drain_matches root)%M s with
      | Err e => (out, Err e)
      | Ok (ms, s') => send_to_leaves fuel root event rest (out ++ map Tree.emit ms) s'
      end
  end.

(** [for event in events] *)
Fixpoint send_events (fuel : nat) (root : nat) (listeners : gmap string (list nat))
         (events : list Event) (out : list StreamOp) (s : State)
  : list StreamOp * Res State :=
  match events with
  | [] => (out, Ok s)
  | event :: rest =>
      match listeners !! event_type event with
      | None => send_events fuel root listeners rest out s
      | Some leaves =>
          match send_to_leaves fuel root event leaves out s with
          | (out', Ok s') => send_events fuel root listeners rest out' s'
          | (out', Err e) => (out', Err e)
          end
      end
  end.

(** Whether [eval] calls [handle_EOF]. *)
Definition root_is_last_negation (h : gmap nat Node) (root : nat) : Res bool :=
  (rnd <~ lookup_node h root ;
   Ok (is_negation_class (cls rnd) && is_last rnd))%res.

(** [TreeBasedEvaluationMechanism.eval]: the calls made on the output
    stream [matches], and the final state or the error that ends the run.
    [fuel] bounds the depth of the calls made for one event. *)
Definition eval (fuel : nat) (root : nat) (events : list Event) (s : State)
  : list StreamOp * Res State :=
  match (leaves <~ Node.get_leaves (heap s) root ;
         register_listeners (heap s) leaves ∅)%res with
  | Err e => ([], Err e)
  | Ok listeners =>
      match send_events fuel root listeners events [] s with
      | (out, Err e) => (out, Err e)
      | (out, Ok s') =>
          match root_is_last_negation (heap s') root with
          | Err e => (out, Err e)
          | Ok true =>
              match Tree.handle_EOF (heap s') root with
              | (eof, Ok _) => (out ++ eof ++ [close], Ok s')
              | (eof, Err e) => (out ++ eof, Err e)
              end
          | Ok false => (out ++ [close], Ok s')
          end
      end
  end.

Definition initial_state : State := {| heap := ∅; next_node := 0; next_pm := 0 |}.

(** [TreeBasedEvaluationMechanism(pattern, tree_structure, params).eval(events, matches)] *)
Definition run (fuel : nat) (tree_structure : TreeStructure) (pattern : Pattern)
           (negation_mode : NegationMode) (events : list Event)
  : list StreamOp * Res State :=
  match Tree.init tree_structure pattern negation_mode initial_state with
  | Err e => ([], Err e)
  | Ok (root, s) => eval fuel root events s
  end.

End Mechanism.

(** * Vocabulary of the properties *)

(** A list is sorted under [key], ascending (ties allowed). *)
Definition sorted_by {A} (key : A -> Z) (l : list A) : Prop :=
  StronglySorted (fun x y => key x <= key y) l.

(** The number of elements whose key is strictly less than [t]. *)
Definition count_before {A} (key : A -> Z) (t : Z) (l : list A) : nat :=
  length (List.filter (fun x => key x <? t) l).

(** The merge of two lists as the docstring of [merge] describes it: the
    smaller head first, and the head of the second list on a tie. *)
Fixpoint merge_spec {A} (key : A -> Z) (l1 : list A) : list A -> list A :=
  fix merge_aux (l2 : list A) : list A :=
    match l1, l2 with
    | [], _ => l2
    | _, [] => l1
    | a :: l1', b :: l2' =>
        if key a <? key b then a :: merge_spec key l1' l2
        else b :: merge_aux l2'
    end.

(** The key of the first component of a pair. *)
Definition key_of_fst {A B} (key : A -> Z) : A * B -> Z := fun p => key (fst p).

(** Marks the elements of a list with the list they come from. *)
Definition from_first {A} (l : list A) : list (A * bool) := map (fun x => (x, true)) l.
Definition from_second {A} (l : list A) : list (A * bool) := map (fun x => (x, false)) l.

(** In [r], an element of the second list stands before every element of
    the first list that has the same key. *)
Definition second_before_first_on_ties {A} (key : A -> Z) (r : list (A * bool)) : Prop :=
  forall (i j : nat) (x y : A),
    r !! i = Some (x, true) -> r !! j = Some (y, false) -> key x = key y ->
    (j < i)%nat.

(** The operations on the partial-match store of one node. *)
Inductive StoreOp : Type :=
| OpAdd (pm : PartialMatch)
| OpCleanExpired (last_timestamp : datetime)
| OpConsumeFirst
| OpRemove (matches_to_remove : list PartialMatch).

Definition run_store_op (sliding_window : timedelta) (op : StoreOp)
           (pms : list PartialMatch) : Res (list PartialMatch) :=
  match op with
  | OpAdd pm => Store.add_partial_match pms pm
  | OpCleanExpired t => Store.clean_expired_partial_matches sliding_window pms t
  | OpConsumeFirst =>
      ('(_, rest) <~ Store.consume_first_partial_match pms ; Ok rest)%res
  | OpRemove l => Ok (Store.remove_partial_matches pms l)
  end.

Fixpoint run_store_ops (sliding_window : timedelta) (ops : list StoreOp)
         (pms : list PartialMatch) : Res (list PartialMatch) :=
  match ops with
  | [] => Ok pms
  | op :: rest =>
      (pms' <~ run_store_op sliding_window op pms ;
       run_store_ops sliding_window rest pms')%res
  end.

(** The insertion policy as the specification words it: the new match
    stands after every stored match with the same [first_timestamp]. *)
Definition inserted_after_equal_keys (pms : list PartialMatch) (pm : PartialMatch)
           (result : list PartialMatch) : Prop :=
  exists before after,
    result = before ++ pm :: after /\ pms = before ++ after
    /\ Forall (fun x => first_timestamp x <> first_timestamp pm) after.

(** The insertion policy of the code: the new match stands after the stored
    matches that start strictly earlier and before all the others. *)
Definition inserted_before_equal_keys (pms : list PartialMatch) (pm : PartialMatch)
           (result : list PartialMatch) : Prop :=
  exists before after,
    result = before ++ pm :: after /\ pms = before ++ after
    /\ Forall (fun x => first_timestamp x < first_timestamp pm) before
    /\ Forall (fun x => first_timestamp pm <= first_timestamp x) after.

(** A partial match as its constructor builds it. *)
Definition well_formed_pm (pm : PartialMatch) : Prop :=
  exists e es,
    events pm = e :: es
    /\ first_timestamp pm = min_timestamp e es
    /\ last_timestamp pm = max_timestamp e es.

(** The threshold guard as the specification words it: a candidate whose
    merged events end at or after the threshold is not rejected by it. *)
Definition threshold_guard_tests_merged (nd : Node) (first second : PartialMatch)
           (first_event_defs second_event_defs : list EventDef) : Prop :=
  forall t evs id pm,
    threshold nd = Some t ->
    Join.merge_events_for_new_match nd first_event_defs second_event_defs
                                    (events first) (events second) = Ok evs ->
    PartialMatch_init id evs = Ok pm ->
    t <= last_timestamp pm ->
    Join.InternalNode_decide nd first second first_event_defs second_event_defs
    <> Ok Join.RejectedByThreshold.

(** ** Concrete inputs *)

Definition event_at (type : string) (t : datetime) : Event :=
  {| event_type := type; payload := ∅; timestamp := t |}.

(** The partial match [PartialMatch([event_at type t])] with identity [id]. *)
Definition pm_at (id : nat) (t : datetime) : PartialMatch :=
  {| pm_id := id; events := [event_at "A" t];
     first_timestamp := t; last_timestamp := t |}.

Definition qitem (type name : string) (index : Z) : QItem :=
  {| q_event_type := type; q_name := name; q_index := index |}.

(** An [AndNode] over the placeholders [a] (slot 0) and [b] (slot 1), with
    the given window and threshold. *)
Definition and_node (w : timedelta) (th : option datetime) : Node :=
  set_threshold th
    (set_event_defs [(0, qitem "A" "a" 0); (1, qitem "B" "b" 1)]
       (Tree.new_node AndNode w None)).

(** The number of times the output stream was closed. *)
Definition is_close (o : StreamOp) : bool :=
  match o with close => true | add_item _ => false end.

Definition closes (out : list StreamOp) : nat := length (List.filter is_close out).

(** The partial matches that are flushed at the end of the stream: none
    unless the root is a negation node with [is_last]; otherwise the entries
    of [root.matches_to_handle_at_EOF], then the entries of
    [root.get_first_last_negative_node().waiting_for_time_out]. *)
Definition EOF_matches (h : gmap nat Node) (root : nat) : option (list PartialMatch) :=
  match h !! root with
  | None => None
  | Some rnd =>
      if is_negation_class (cls rnd) && is_last rnd then
        match Node.get_first_last_negative_node h root with
        | Err _ => None
        | Ok node =>
            match h !! node with
            | None => None
            | Some nnd =>
                Some (matches_to_handle_at_EOF rnd ++ waiting_for_time_out nnd)
            end
        end
      else Some []
  end.

(** "The output stream is closed exactly once in every run." *)
Definition closed_once_in_every_run : Prop :=
  forall (fuel : nat) (tree_structure : TreeStructure) (pattern : Pattern)
         (negation_mode : NegationMode) (events : list Event),
    closes (fst (Mechanism.run fuel tree_structure pattern negation_mode events)) = 1%nat.

(** The pattern AND(A a, NOT B b) with window 5. *)
Definition pattern_A_and_not_B : Pattern :=
  {| structure_top_operator := AndOperator;
     structure_args := [qitem "A" "a" 0];
     pattern_condition := TrueFormula;
     window := 5;
     origin_top_operator := AndOperator;
     origin_args := [Positive (qitem "A" "a" 0); Negated (qitem "B" "b" 1)];
     negative_args := [Negated (qitem "B" "b" 1)] |}.

(** A condition that constrains no placeholder (a pattern condition must
    not be [TrueFormula] in FIRST_CHANCE mode, which calls
    [get_events_in_a_condition_with] on it). *)
Definition no_condition : Formula := AtomicFormula EqOp (AtomicTerm 0) (AtomicTerm 0).

(** The pattern SEQ(NOT A a, B b) with window 5. *)
Definition pattern_not_A_then_B : Pattern :=
  {| structure_top_operator := SeqOperator;
     structure_args := [qitem "B" "b" 1];
     pattern_condition := no_condition;
     window := 5;
     origin_top_operator := SeqOperator;
     origin_args := [Negated (qitem "A" "a" 0); Positive (qitem "B" "b" 1)];
     negative_args := [Negated (qitem "A" "a" 0)] |}.

(** The pattern SEQ(NOT A a, B b, NOT C c, D d, E e, F f) with window 5,
    and the left-deep tree over its positive placeholders. *)
Definition pattern_not_A_B_not_C_D_E_F : Pattern :=
  {| structure_top_operator := SeqOperator;
     structure_args := [qitem "B" "b" 1; qitem "D" "d" 3; qitem "E" "e" 4;
                        qitem "F" "f" 5];
     pattern_condition := no_condition;
     window := 5;
     origin_top_operator := SeqOperator;
     origin_args := [Negated (qitem "A" "a" 0); Positive (qitem "B" "b" 1);
                     Negated (qitem "C" "c" 2); Positive (qitem "D" "d" 3);
                     Positive (qitem "E" "e" 4); Positive (qitem "F" "f" 5)];
     negative_args := [Negated (qitem "A" "a" 0); Negated (qitem "C" "c" 2)] |}.

Definition left_deep_4 : TreeStructure :=
  Pair (Pair (Pair (Index 0) (Index 1)) (Index 2)) (Index 3).

(** The matches written to the output stream, as (type, timestamp) lists. *)
Definition emitted_matches (out : list StreamOp) : list (list (string * datetime)) :=
  flat_map (fun o =>
              match o with
              | add_item m => [map (fun e => (event_type e, timestamp e)) (match_events m)]
              | close => []
              end) out.

Definition returns {A} (r : Res A) : bool :=
  match r with Ok _ => true | Err _ => false end.

(** The partial matches stored at a node, as (first, last) timestamps. *)
Definition stored_spans (r : Res State) (node : nat) : list (datetime * datetime) :=
  match r with
  | Err _ => []
  | Ok s =>
      match heap s !! node with
      | None => []
      | Some nd => map (fun pm => (first_timestamp pm, last_timestamp pm))
                       (partial_matches nd)
      end
  end.

Definition node_window (r : Res State) (node : nat) : option timedelta :=
  match r with
  | Err _ => None
  | Ok s => option_map sliding_window (heap s !! node)
  end.

(** Every store of the tree is sorted by [first_timestamp]. *)
Definition stores_sorted (s : State) : Prop :=
  forall n nd, heap s !! n = Some nd -> sorted_by first_timestamp (partial_matches nd).

(** No FirstChanceNode holds a blocked match whose expiry instant is before
    [cutoff]: expiring with [cutoff] sends no match up the tree again. *)
Definition nothing_to_unblock (s : State) (cutoff : datetime) : Prop :=
  forall n nd, heap s !! n = Some nd ->
    Forall (fun x => cutoff <= fst x) (check_expired_timestamp nd).

(** "Calling expire twice with the same cutoff is equivalent to calling it
    once." *)
Definition expiration_idempotent : Prop :=
  forall (fuel node : nat) (cutoff : datetime) (s s1 s2 : State),
    Methods.clean_expired_partial_matches fuel node cutoff s = Ok (tt, s1) ->
    Methods.clean_expired_partial_matches fuel node cutoff s1 = Ok (tt, s2) ->
    s2 = s1.

(** The state of the FIRST_CHANCE tree of SEQ(NOT A a, B b), window 5,
    after the events A@0 and B@3: B@3 is blocked by A@0 until instant 5. *)
Definition state_with_blocked_match : State :=
  match snd (Mechanism.run 30 (Index 0) pattern_not_A_then_B FIRST_CHANCE
                           [event_at "A" 0; event_at "B" 3]) with
  | Ok s => s
  | Err _ => Mechanism.initial_state
  end.

(** A tree of one leaf, with window 5, that stores matches starting at 1 and
    at 3. *)
Definition state_of_one_leaf : State :=
  {| heap := {[ 0%nat := set_partial_matches [pm_at 0 1; pm_at 1 3]
                           (Tree.new_LeafNode 5 0 (qitem "A" "a" 0) None) ]};
     next_node := 1; next_pm := 2 |}.

(** ** States that differ by what expiration changes *)

(** Nothing in [pms] starts before [t - w]. *)
Definition all_live (w : timedelta) (t : datetime) (pms : list PartialMatch) : Prop :=
  Forall (fun pm => t - w <= first_timestamp pm) pms.

(** The first [k] matches of the store of [a] are expired at [t]. *)
Definition expired_prefix (t : datetime) (a : Node) (k : nat) : Prop :=
  Forall (fun pm => first_timestamp pm < t - sliding_window a)
         (take k (partial_matches a)).

(** [b] is [a] without a prefix of its store that is expired at [t], and
    with other lists of released matches. *)
Definition node_evolves (t : datetime) (a b : Node) : Prop :=
  exists k w e,
    b = set_matches_to_handle_at_EOF e
          (set_waiting_for_time_out w
             (set_partial_matches (drop k (partial_matches a)) a))
    /\ expired_prefix t a k.

(** [b] is [a] without a prefix of its store that is expired at [t]. *)
Definition node_trims (t : datetime) (a b : Node) : Prop :=
  exists k, b = set_partial_matches (drop k (partial_matches a)) a
            /\ expired_prefix t a k.

Definition evolves (t : datetime) (s s' : State) : Prop :=
  next_node s' = next_node s /\ next_pm s' = next_pm s
  /\ forall n, option_Forall2 (node_evolves t) (heap s !! n) (heap s' !! n).

Definition trims (t : datetime) (s s' : State) : Prop :=
  next_node s' = next_node s /\ next_pm s' = next_pm s
  /\ forall n, option_Forall2 (node_trims t) (heap s !! n) (heap s' !! n).

(** Visiting the FirstChance node [n] again, with cutoff [t], will change
    nothing in [y]. *)
Definition revisit_stable (t : datetime) (n : nat) (y : State) : Prop :=
  exists nd,
    heap y !! n = Some nd
    /\ ((sliding_window nd =? timedelta_max) = true
        \/ exists r rnd,
             right_subtree nd = Some r /\ heap y !! r = Some rnd
             /\ all_live (sliding_window rnd) t (partial_matches rnd)).

(** Whether the loop over the FirstChance nodes returns at [n]. *)
Definition stops (n : nat) (y : State) : bool :=
  match heap y !! n with
  | Some nd => sliding_window nd =? timedelta_max
  | None => false
  end.

(** Releasing the matches that wait at [self] again, with cutoff [t], will
    change nothing in [y]. *)
Definition waiting_stable (self : nat) (t : datetime) (y : State) : Prop :=
  exists nd,
    heap y !! self = Some nd
    /\ (is_negation_class (cls nd) && is_last nd = false
        \/ (sorted_by first_timestamp (waiting_for_time_out nd)
            /\ all_live (sliding_window nd) t (waiting_for_time_out nd)
            /\ exists root rnd,
                 Node.get_root (heap y) self = Ok root
                 /\ heap y !! root = Some rnd
                 /\ is_negation_class (cls rnd) = true)).

(** ** Vocabulary of the further properties *)

(** The names of the identifiers of a term, at any depth. *)
Fixpoint term_names (t : Term) : list string :=
  match t with
  | AtomicTerm _ => []
  | IdentifierTerm name _ => [name]
  | PlusTerm l r | MinusTerm l r | MulTerm l r => term_names l ++ term_names r
  end.

(** The atomic conditions of a formula, from left to right. *)
Fixpoint conjuncts (f : Formula) : list (RelationOp * Term * Term) :=
  match f with
  | AtomicFormula op l r => [(op, l, r)]
  | AndFormula l r => conjuncts l ++ conjuncts r
  | TrueFormula => []
  end.

Definition atom_names (a : RelationOp * Term * Term) : list string :=
  term_names (snd (fst a)) ++ term_names (snd a).

Definition formula_names (f : Formula) : list string :=
  flat_map atom_names (conjuncts f).

(** Every identifier of the atomic condition is in [names]. *)
Definition atom_within (names : string -> bool) (a : RelationOp * Term * Term) : bool :=
  forallb names (atom_names a).

(** The name of a term that is an identifier. *)
Definition identifier_name (t : Term) : option string :=
  match t with
  | IdentifierTerm name _ => Some name
  | _ => None
  end.

(** The atomic condition compares two identifiers, one of them [name]. *)
Definition atom_compares (name : string) (a : RelationOp * Term * Term) : bool :=
  match identifier_name (snd (fst a)), identifier_name (snd a) with
  | Some nl, Some nr => bool_decide (nl = name) || bool_decide (nr = name)
  | _, _ => false
  end.

(** [TrueFormula] occurs in the formula. *)
Fixpoint has_TrueFormula (f : Formula) : bool :=
  match f with
  | AtomicFormula _ _ _ => false
  | AndFormula l r => has_TrueFormula l || has_TrueFormula r
  | TrueFormula => true
  end.

(** The atomic condition holds under the binding. *)
Definition atom_holds (binding : Binding) (a : RelationOp * Term * Term) : Prop :=
  FormulaOps.eval (AtomicFormula (fst (fst a)) (snd (fst a)) (snd a)) binding = Ok true.

(** The identifiers that stand directly on a side of an atomic condition. *)
Definition atom_identifiers (a : RelationOp * Term * Term) : list string :=
  match identifier_name (snd (fst a)) with Some n => [n] | None => [] end
  ++ match identifier_name (snd a) with Some n => [n] | None => [] end.

(** The number of occurrences of the type of the placeholder at position
    [i]; 0 when there is none. *)
Definition occurrences_at (qitems : list QItem) (occurrences : gmap string Z) (i : Z) : Z :=
  match qitems !! Z.to_nat i with
  | Some q => default 0 (occurrences !! q_event_type q)
  | None => 0
  end.

(** The order of a stable sort by occurrences: fewer occurrences first, and
    the earlier position first among equals. *)
Definition by_occurrences_then_position (qitems : list QItem)
           (occurrences : gmap string Z) (i j : Z) : Prop :=
  occurrences_at qitems occurrences i < occurrences_at qitems occurrences j
  \/ (occurrences_at qitems occurrences i = occurrences_at qitems occurrences j /\ i < j).

(** The same order on the pairs (position, occurrences). *)
Definition count_then_position (p q : Z * Z) : Prop :=
  snd p < snd q \/ (snd p = snd q /\ fst p < fst q).

(** ** Concrete inputs of the further properties *)

(** The attribute function [lambda x: x.get("value", 0)]. *)
Definition value_of (p : Payload) : Res Z := Ok (default 0 (p !! "value")).

(** The condition [a.value < 5 and b.value == 2]. *)
Definition condition_on_a_and_b : Formula :=
  AndFormula
    (AtomicFormula SmallerThanOp (IdentifierTerm "a" value_of) (AtomicTerm 5))
    (AtomicFormula EqOp (IdentifierTerm "b" value_of) (AtomicTerm 2)).

(** The binding of [a] to an event with value [va] and of [b] to one with
    value [vb]. *)
Definition binding_of_a_and_b (va vb : Z) : Binding :=
  {[ "a" := {[ "value" := va ]}; "b" := {[ "value" := vb ]} ]}.

(** A negation node of a pattern whose top operator is AND. *)
Definition negation_node_under_AND : Node :=
  set_event_defs [(0, qitem "A" "a" 0); (1, qitem "B" "b" 1)]
    (Tree.new_NegationNode PostProcessingNode 10 false true AndOperator).

(** A [SeqNode] over the placeholders [a] (slot 0) and [b] (slot 1). *)
Definition seq_node (w : timedelta) : Node :=
  set_event_defs [(0, qitem "A" "a" 0); (1, qitem "B" "b" 1)]
    (Tree.new_node SeqNode w None).

(** The leaf [leaf] of the heap listens to the event type [t]. *)
Definition has_type (h : gmap nat Node) (t : string) (leaf : nat) : bool :=
  match h !! leaf with
  | Some nd => bool_decide (leaf_event_type nd = t)
  | None => false
  end.

Definition leaves_of_type (h : gmap nat Node) (t : string) (leaves : list nat) : list nat :=
  List.filter (has_type h t) leaves.

(** What a dictionary of lists holds for a key after the elements of [l]
    were appended to its entry [o]. *)
Definition appended (o : option (list nat)) (l : list nat) : option (list nat) :=
  match o, l with
  | None, [] => None
  | _, _ => Some (default [] o ++ l)
  end.


(** A leaf with an empty store and the window 5. *)
Definition state_of_empty_leaf : State :=
  {| heap := {[ 0%nat := Tree.new_LeafNode 5 0 (qitem "A" "a" 0) None ]};
     next_node := 1; next_pm := 0 |}.

(** ** Trees *)

(** The identities of the nodes of the heap are below the next identity to
    be given. *)
Definition heap_below (s : State) : Prop :=
  forall n, is_Some (heap s !! n) -> (n < next_node s)%nat.

(** The indices of a tree structure, from left to right. *)
Fixpoint structure_indices (ts : TreeStructure) : list Z :=
  match ts with
  | Index i => [i]
  | Pair l r => structure_indices l ++ structure_indices r
  end.

Fixpoint structure_depth (ts : TreeStructure) : nat :=
  match ts with
  | Index _ => 0
  | Pair l r => S (Nat.max (structure_depth l) (structure_depth r))
  end.

Fixpoint structure_nodes (ts : TreeStructure) : nat :=
  match ts with
  | Index _ => 1
  | Pair l r => S (structure_nodes l + structure_nodes r)
  end.

(** [args[i]] exists, [i] counting from the end when negative. *)
Definition index_in_range (args : list QItem) (i : Z) : Prop :=
  - Z.of_nat (length args) <= i < Z.of_nat (length args).

(** [leaf] is the leaf of the placeholder [args[i]]. *)
Definition is_leaf_for (args : list QItem) (w : timedelta) (h : gmap nat Node)
           (leaf : nat) (i : Z) : Prop :=
  exists nd q,
    h !! leaf = Some nd /\ cls nd = LeafNode /\ leaf_index nd = i
    /\ PyList.getitem args i = Ok q
    /\ leaf_event_type nd = q_event_type q /\ leaf_event_name nd = q_name q
    /\ qitem_index nd = q_index q /\ sliding_window nd = w
    /\ partial_matches nd = [].

(** The nodes from [root] down have the shape of the tree structure, and
    their identities are within [lo, hi). *)
Fixpoint tree_shape (is_sequence : bool) (args : list QItem) (w : timedelta)
         (lo hi : nat) (h : gmap nat Node) (root : nat) (ts : TreeStructure) : Prop :=
  (lo <= root < hi)%nat
  /\ match ts with
     | Index i => is_leaf_for args w h root i
     | Pair l r =>
         exists nd ln rn,
           h !! root = Some nd
           /\ cls nd = (if is_sequence then SeqNode else AndNode)
           /\ left_subtree nd = Some ln /\ right_subtree nd = Some rn
           /\ tree_shape is_sequence args w lo hi h ln l
           /\ tree_shape is_sequence args w lo hi h rn r
     end.

(** The pattern SEQ(A a, B b) with window 5: no negation. *)
Definition pattern_A_then_B : Pattern :=
  {| structure_top_operator := SeqOperator;
     structure_args := [qitem "A" "a" 0; qitem "B" "b" 1];
     pattern_condition := TrueFormula;
     window := 5;
     origin_top_operator := SeqOperator;
     origin_args := [Positive (qitem "A" "a" 0); Positive (qitem "B" "b" 1)];
     negative_args := [] |}.

(** Every node of [s'] has the parent it has in [s]. *)
Definition same_parents (s s' : State) : Prop :=
  forall n, parent <$> heap s' !! n = parent <$> heap s !! n.

(** ** States in which expiration has nothing left to do *)

(** Visiting the FirstChance node [n] again, with cutoff [t], changes
    nothing in [y]: its window is unbounded, or no match it blocked is due
    and the store of its negative leaf is sorted and holds nothing that
    started before [t - sliding_window]. *)
Definition revisit_settled (t : datetime) (n : nat) (y : State) : Prop :=
  exists nd,
    heap y !! n = Some nd
    /\ ((sliding_window nd =? timedelta_max) = true
        \/ (Forall (fun x => t <= fst x) (check_expired_timestamp nd)
            /\ exists r rnd,
                 right_subtree nd = Some r /\ heap y !! r = Some rnd
                 /\ sorted_by first_timestamp (partial_matches rnd)
                 /\ all_live (sliding_window rnd) t (partial_matches rnd))).

(** The same for the nodes of [l] that the loop of expiration reaches: the
    loop returns at the first node with an unbounded window. *)
Fixpoint visited_settled (t : datetime) (l : list nat) (y : State) : Prop :=
  match l with
  | [] => True
  | n :: rest =>
      revisit_settled t n y /\ (stops n y = true \/ visited_settled t rest y)
  end.

(** The FirstChance nodes that the expiration of [self] visits. *)
Definition expiry_route (h : gmap nat Node) (self : nat) (nd : Node) : Res (list nat) :=
  match parent nd with
  | Some p => Node.get_first_FCNodes h p
  | None => Node.get_first_FCNodes h self
  end.

(** Expiring [self] with cutoff [t] has nothing left to do in [y]: the
    window of [self] is unbounded, or its store is sorted and holds nothing
    that started before [t - sliding_window], the matches that wait at it
    are released, and the FirstChance nodes on its route are settled. *)
Definition settled (self : nat) (t : datetime) (y : State) : Prop :=
  exists nd,
    heap y !! self = Some nd
    /\ ((sliding_window nd =? timedelta_max) = true
        \/ (sorted_by first_timestamp (partial_matches nd)
            /\ all_live (sliding_window nd) t (partial_matches nd)
            /\ waiting_stable self t y
            /\ exists l, expiry_route (heap y) self nd = Ok l
                         /\ visited_settled t l y)).

(** The state of the FIRST_CHANCE tree of SEQ(NOT A a, B b), window 5,
    after the event A@0: the negative leaf (node 2) stores A@0 and nothing
    is blocked. *)
Definition state_with_negative_event : State :=
  match snd (Mechanism.run 30 (Index 0) pattern_not_A_then_B FIRST_CHANCE
                           [event_at "A" 0]) with
  | Ok s => s
  | Err _ => Mechanism.initial_state
  end.

(** ** A leaf and an event that fails its condition *)

(** "If the leaf's condition evaluates to false, it returns without adding
    any partial match or notifying the parent": no store of the tree holds
    a match it did not hold before. *)
Definition failed_condition_adds_nothing : Prop :=
  forall (fuel leaf : nat) (event : Event) (s s' : State) (nd : Node),
    heap s !! leaf = Some nd -> cls nd = LeafNode ->
    leaf_event_type nd = event_type event ->
    FormulaOps.eval (condition nd) {[ leaf_event_name nd := payload event ]} = Ok false ->
    Methods.handle_event fuel leaf event s = Ok (tt, s') ->
    forall n nd', heap s' !! n = Some nd' ->
      exists nd0, heap s !! n = Some nd0
                  /\ sublist (partial_matches nd') (partial_matches nd0).

(** An event of the given type whose attribute [value] is [v]. *)
Definition event_with_value (type : string) (t : datetime) (v : Z) : Event :=
  {| event_type := type; payload := {[ "value" := v ]}; timestamp := t |}.

(** The pattern SEQ(NOT A a, B b) where b.value < 5, with window 5. *)
Definition pattern_not_A_then_small_B : Pattern :=
  {| structure_top_operator := SeqOperator;
     structure_args := [qitem "B" "b" 1];
     pattern_condition :=
       AtomicFormula SmallerThanOp (IdentifierTerm "b" value_of) (AtomicTerm 5);
     window := 5;
     origin_top_operator := SeqOperator;
     origin_args := [Negated (qitem "A" "a" 0); Positive (qitem "B" "b" 1)];
     negative_args := [Negated (qitem "A" "a" 0)] |}.

(** Its FIRST_CHANCE tree after the events A@0 and B@3 (value 1): the leaf
    of B is node 0, the root is node 1, and B@3 is blocked by A@0 until
    instant 5. *)
Definition state_with_blocked_small_B : State :=
  match snd (Mechanism.run 30 (Index 0) pattern_not_A_then_small_B FIRST_CHANCE
                           [event_at "A" 0; event_with_value "B" 3 1]) with
  | Ok s => s
  | Err _ => Mechanism.initial_state
  end.

(** Its FIRST_CHANCE tree after the event B@3 (value 1), which was reported
    as a match: the leaf of B still stores B@3. *)
Definition state_after_small_B : State :=
  match snd (Mechanism.run 30 (Index 0) pattern_not_A_then_small_B FIRST_CHANCE
                           [event_with_value "B" 3 1]) with
  | Ok s => s
  | Err _ => Mechanism.initial_state
  end.

(** [PartialMatch([event])], the object number [id]. *)
Definition leaf_match (id : nat) (event : Event) : PartialMatch :=
  {| pm_id := id; events := [event];
     first_timestamp := timestamp event; last_timestamp := timestamp event |}.

(** The node after [add_partial_match(pm)] on a sorted store: [pm] stands
    before the stored matches that do not start earlier, and waits in the
    queue of unhandled matches when the node has a parent. *)
Definition with_match (pm : PartialMatch) (nd : Node) : Node :=
  let k := count_before first_timestamp (first_timestamp pm) (partial_matches nd) in
  let pms := take k (partial_matches nd) ++ pm :: drop k (partial_matches nd) in
  match parent nd with
  | Some _ =>
      set_unhandled_partial_matches (unhandled_partial_matches nd ++ [pm])
                                    (set_partial_matches pms nd)
  | None => set_partial_matches pms nd
  end.

(** The FirstChance node [n] has its negative leaf. *)
Definition has_right_subtree (s : State) (n : nat) : Prop :=
  exists nd r rnd,
    heap s !! n = Some nd /\ right_subtree nd = Some r /\ heap s !! r = Some rnd.

(** The matches that are not expired at [t], in a sorted store. *)
Definition live_part (w : timedelta) (t : datetime) (pms : list PartialMatch)
  : list PartialMatch :=
  if w =? timedelta_max then pms
  else drop (count_before first_timestamp (t - w) pms) pms.

(** ** The instants of Python's [datetime] *)

(** The microseconds from [datetime.min] to [datetime.max]: the years 1 to
    9999. *)
Definition datetime_span : Z := 315537897599999999.

(** [t] is an instant that a [datetime] can hold, when [datetime.min] is
    the instant [origin]; arithmetic that leaves this range raises
    OverflowError. *)
Definition representable (origin : datetime) (t : datetime) : Prop :=
  origin <= t <= origin + datetime_span.

(** Expiring with [t] computes no instant outside the range of [datetime]:
    for every node with a bounded window, [t - sliding_window] is an
    instant a [datetime] can hold. *)
Definition cutoffs_representable (origin : datetime) (s : State) (t : datetime) : Prop :=
  forall n nd, heap s !! n = Some nd ->
    (sliding_window nd =? timedelta_max) = false ->
    representable origin (t - sliding_window nd).

(** ** The matches that reach the root *)





(** * Properties *)

(** ** Python lists and sorted lists *)

Section GetItem.
Context {A : Type}.

Lemma getitem_nonneg (l : list A) (i : nat) (x : A) :
  l !! i = Some x -> PyList.getitem l (Z.of_nat i) = Ok x.
Proof.
  intros H. pose proof (lookup_lt_Some _ _ _ H) as Hlt.
  unfold PyList.getitem.
  replace (0 <=? Z.of_nat i) with true by (symmetry; apply Z.leb_le; lia).
  replace (Z.of_nat i <? Z.of_nat (length l)) with true
    by (symmetry; apply Z.ltb_lt; lia).
  simpl. rewrite Nat2Z.id, H. reflexivity.
Qed.

Lemma getitem_Z (l : list A) (i : Z) (x : A) :
  0 <= i -> l !! Z.to_nat i = Some x -> PyList.getitem l i = Ok x.
Proof.
  intros Hi H. rewrite <- (Z2Nat.id i) by lia. now apply getitem_nonneg.
Qed.

Lemma getitem_last (l : list A) (x : A) :
  l !! (length l - 1)%nat = Some x -> PyList.getitem l (-1) = Ok x.
Proof.
  intros H. pose proof (lookup_lt_Some _ _ _ H) as Hlt.
  unfold PyList.getitem. simpl.
  replace (-1 <? Z.of_nat (length l)) with true by (symmetry; apply Z.ltb_lt; lia).
  simpl.
  replace (- Z.of_nat (length l) <=? -1) with true by (symmetry; apply Z.leb_le; lia).
  simpl.
  replace (Z.to_nat (Z.of_nat (length l) + -1)) with (length l - 1)%nat by lia.
  rewrite H. reflexivity.
Qed.
End GetItem.

Section Sorted.
Context {A : Type} (key : A -> Z).

Lemma sorted_by_cons_inv x l :
  sorted_by key (x :: l) -> sorted_by key l /\ Forall (fun y => key x <= key y) l.
Proof. intros H. inversion H; subst. split; assumption. Qed.

Lemma sorted_by_lookup l i j x y :
  sorted_by key l -> l !! i = Some x -> l !! j = Some y -> (i <= j)%nat ->
  key x <= key y.
Proof.
  intros Hs. revert i j.
  induction Hs as [|a l Hs IH Hall]; intros i j Hi Hj Hle.
  - rewrite lookup_nil in Hi. discriminate.
  - destruct i as [|i], j as [|j]; simpl in *.
    + inversion Hi; inversion Hj; subst. lia.
    + inversion Hi; subst.
      rewrite Forall_forall in Hall. apply Hall.
      eapply list_elem_of_lookup_2; eauto.
    + lia.
    + eapply IH; eauto. lia.
Qed.

(** In a sorted list the elements below [t] are exactly the first
    [count_before t] ones. *)
Lemma count_before_spec l t i x :
  sorted_by key l -> l !! i = Some x ->
  (key x < t <-> (i < count_before key t l)%nat).
Proof.
  intros Hs. revert i.
  induction Hs as [|a l Hs IH Hall]; intros i Hi.
  - rewrite lookup_nil in Hi. discriminate.
  - unfold count_before in *. simpl.
    destruct (Z.ltb_spec (key a) t) as [Ha|Ha]; simpl.
    + destruct i as [|i]; simpl in Hi.
      * inversion Hi; subst. split; [lia | auto].
      * rewrite (IH i Hi). lia.
    + assert (Hnone : List.filter (fun x => key x <? t) l = []).
      { clear IH Hi. induction l as [|b l IHl]; [reflexivity|].
        inversion Hall; subst. inversion Hs; subst. simpl.
        destruct (Z.ltb_spec (key b) t); [lia | auto]. }
      rewrite Hnone. simpl.
      destruct i as [|i]; simpl in Hi.
      * inversion Hi; subst. lia.
      * rewrite Forall_forall in Hall.
        assert (key a <= key x).
        { apply Hall. eapply list_elem_of_lookup_2; eauto. }
        lia.
Qed.

Lemma count_before_le_length l t : (count_before key t l <= length l)%nat.
Proof. unfold count_before. apply List.filter_length_le. Qed.
End Sorted.

Section FindCorrect.
Context {A : Type} (key : A -> Z).

Lemma find_loop_correct (l : list A) (t : Z) :
  sorted_by key l ->
  let k := Z.of_nat (count_before key t l) in
  1 <= k <= Z.of_nat (length l) - 1 ->
  forall (fuel : nat) (start end_ : Z),
    0 <= start <= k -> k <= end_ <= Z.of_nat (length l) - 1 ->
    end_ - start + 1 <= Z.of_nat fuel ->
    Utils.find_loop key fuel l t start end_ = Ok k.
Proof.
  intros Hs k Hk fuel.
  induction fuel as [|fuel IH]; intros start end_ Hstart Hend Hfuel.
  - lia.
  - simpl.
    replace (start <=? end_) with true by (symmetry; apply Z.leb_le; lia).
    set (mid := (start + end_) / 2).
    assert (Hmid : start <= mid <= end_).
    { unfold mid. split.
      - apply Z.div_le_lower_bound; lia.
      - apply Z.div_le_upper_bound; lia. }
    destruct (lookup_lt_is_Some_2 l (Z.to_nat mid)) as [pm_mid Hpm]; [lia|].
    rewrite (getitem_Z l mid pm_mid) by (lia || assumption). simpl.
    pose proof (count_before_spec key l t _ _ Hs Hpm) as Hmid_spec.
    destruct (Z.eq_dec mid 0) as [Hz|Hnz].
    + (* [partial_matches[-1]] is the last element *)
      destruct (lookup_lt_is_Some_2 l (length l - 1)%nat) as [pm_last Hlast]; [lia|].
      replace (mid - 1) with (-1) by lia.
      rewrite (getitem_last l pm_last Hlast). simpl.
      pose proof (count_before_spec key l t _ _ Hs Hlast) as Hlast_spec.
      replace (key pm_last <? t) with false
        by (symmetry; apply Z.ltb_ge; fold k in Hlast_spec; lia).
      simpl.
      fold k in Hmid_spec.
      replace (t >? key pm_mid) with true
        by (symmetry; apply Z.gtb_lt; apply Hmid_spec; lia).
      apply IH; lia.
    + destruct (lookup_lt_is_Some_2 l (Z.to_nat (mid - 1))) as [pm_prev Hprev]; [lia|].
      rewrite (getitem_Z l (mid - 1) pm_prev) by (lia || assumption). simpl.
      pose proof (count_before_spec key l t _ _ Hs Hprev) as Hprev_spec.
      fold k in Hmid_spec, Hprev_spec.
      destruct (Z.ltb_spec (key pm_prev) t) as [Hp|Hp];
        destruct (Z.leb_spec t (key pm_mid)) as [Hm|Hm]; simpl.
      * f_equal. lia.
      * replace (t >? key pm_mid) with true by (symmetry; apply Z.gtb_lt; lia).
        apply IH; lia.
      * replace (t >? key pm_mid) with false
          by (symmetry; rewrite Z.gtb_ltb; apply Z.ltb_ge; lia).
        apply IH; lia.
      * replace (t >? key pm_mid) with true by (symmetry; apply Z.gtb_lt; lia).
        apply IH; lia.
Qed.

Lemma find_sorted (l : list A) (t : Z) :
  sorted_by key l ->
  Utils.find_partial_match_by_timestamp key l t
  = Ok (Z.of_nat (count_before key t l)).
Proof.
  intros Hs. unfold Utils.find_partial_match_by_timestamp.
  destruct l as [|pm0 rest] eqn:El; [reflexivity|].
  rewrite <- El in *.
  assert (H0 : l !! 0%nat = Some pm0) by (subst; reflexivity).
  pose proof (count_before_spec key l t _ _ Hs H0) as H0s.
  pose proof (count_before_le_length key l t) as Hle.
  destruct (Z.geb_spec (key pm0) t) as [Hge|Hlt].
  { f_equal. lia. }
  destruct (Z.eqb_spec (Z.of_nat (length l)) 1) as [H1|H1].
  { f_equal. lia. }
  assert (Hlen : (2 <= length l)%nat) by (subst; simpl in *; lia).
  destruct (lookup_lt_is_Some_2 l (length l - 1)%nat) as [pm_last Hlast]; [lia|].
  rewrite (getitem_last l pm_last Hlast). simpl.
  pose proof (count_before_spec key l t _ _ Hs Hlast) as Hls.
  destruct (Z.ltb_spec (key pm_last) t) as [Hl|Hl].
  { f_equal. lia. }
  apply find_loop_correct; try assumption; lia.
Qed.
End FindCorrect.

(** ** merge and merge_according_to *)

Section MergeSpec.
Context {A : Type} (key : A -> Z).

Lemma merge_spec_nil_l l2 : merge_spec key [] l2 = l2.
Proof. destruct l2; reflexivity. Qed.

Lemma merge_spec_nil_r l1 : merge_spec key l1 [] = l1.
Proof. destruct l1; reflexivity. Qed.

Lemma merge_spec_cons a l1 b l2 :
  merge_spec key (a :: l1) (b :: l2)
  = if key a <? key b then a :: merge_spec key l1 (b :: l2)
    else b :: merge_spec key (a :: l1) l2.
Proof. reflexivity. Qed.

Lemma merge_spec_perm l1 l2 : Permutation (merge_spec key l1 l2) (l1 ++ l2).
Proof.
  revert l2. induction l1 as [|a l1 IH1]; intros l2;
    [rewrite merge_spec_nil_l; reflexivity|].
  induction l2 as [|b l2 IH2].
  - rewrite merge_spec_nil_r, app_nil_r. reflexivity.
  - rewrite merge_spec_cons. destruct (key a <? key b).
    + simpl. constructor. apply IH1.
    + rewrite IH2. apply Permutation_middle.
Qed.

Lemma merge_spec_length l1 l2 :
  length (merge_spec key l1 l2) = (length l1 + length l2)%nat.
Proof. rewrite (Permutation_length (merge_spec_perm l1 l2)). apply length_app. Qed.

Lemma sorted_by_cons x l :
  sorted_by key l -> Forall (fun y => key x <= key y) l -> sorted_by key (x :: l).
Proof. intros. constructor; assumption. Qed.

Lemma merge_spec_sorted l1 l2 :
  sorted_by key l1 -> sorted_by key l2 -> sorted_by key (merge_spec key l1 l2).
Proof.
  revert l2. induction l1 as [|a l1 IH1]; intros l2 H1 H2;
    [rewrite merge_spec_nil_l; assumption|].
  induction l2 as [|b l2 IH2].
  - rewrite merge_spec_nil_r. assumption.
  - rewrite merge_spec_cons.
    destruct (sorted_by_cons_inv key _ _ H1) as [H1' Ha].
    destruct (sorted_by_cons_inv key _ _ H2) as [H2' Hb].
    destruct (Z.ltb_spec (key a) (key b)) as [Hlt|Hge].
    + apply sorted_by_cons; [apply IH1; assumption|].
      rewrite (merge_spec_perm l1 (b :: l2)).
      apply Forall_app. split; [assumption|].
      constructor; [lia|].
      eapply Forall_impl; [exact Hb|]. simpl. intros. lia.
    + apply sorted_by_cons; [apply IH2; assumption|].
      rewrite (merge_spec_perm (a :: l1) l2).
      apply Forall_app. split; [|assumption].
      constructor; [lia|].
      eapply Forall_impl; [exact Ha|]. simpl. intros. lia.
Qed.
End MergeSpec.

Section MergeTags.
Context {A : Type} (key : A -> Z).

Lemma merge_spec_untag l1 l2 :
  map fst (merge_spec (key_of_fst key) (from_first l1) (from_second l2)) = merge_spec key l1 l2.
Proof.
  revert l2. induction l1 as [|a l1 IH1]; intros l2.
  - change (from_first []) with (@nil (A * bool)).
    rewrite !merge_spec_nil_l.
    unfold from_second. rewrite map_map. simpl. apply map_id.
  - induction l2 as [|b l2 IH2].
    + change (from_second []) with (@nil (A * bool)).
      rewrite !merge_spec_nil_r.
      unfold from_first. rewrite map_map. simpl. f_equal. apply map_id.
    + change (from_first (a :: l1)) with ((a, true) :: from_first l1).
      change (from_second (b :: l2)) with ((b, false) :: from_second l2).
      rewrite !merge_spec_cons. unfold key_of_fst at 1 2. simpl fst.
      destruct (key a <? key b); simpl.
      * f_equal. apply (IH1 (b :: l2)).
      * f_equal. apply IH2.
Qed.

Lemma not_first_in_second (l : list A) i x : from_second l !! i = Some (x, true) -> False.
Proof.
  unfold from_second. rewrite list_lookup_fmap.
  destruct (l !! i); simpl; congruence.
Qed.

Lemma not_second_in_first (l : list A) i x : from_first l !! i = Some (x, false) -> False.
Proof.
  unfold from_first. rewrite list_lookup_fmap.
  destruct (l !! i); simpl; congruence.
Qed.

Lemma second_in_merge l1 l2 j y :
  merge_spec (key_of_fst key) (from_first l1) (from_second l2) !! j = Some (y, false) -> y ∈ l2.
Proof.
  intros H. apply list_elem_of_lookup_2 in H.
  rewrite (merge_spec_perm (key_of_fst key) _ _) in H.
  apply elem_of_app in H. destruct H as [H|H].
  - apply list_elem_of_lookup_1 in H. destruct H as [i H].
    exfalso. eapply not_second_in_first; eauto.
  - unfold from_second in H. apply list_elem_of_fmap in H.
    destruct H as [z [Hz Hin]]. inversion Hz; subst. assumption.
Qed.

Lemma merge_spec_ties l1 l2 :
  sorted_by key l2 ->
  second_before_first_on_ties key (merge_spec (key_of_fst key) (from_first l1) (from_second l2)).
Proof.
  revert l2. induction l1 as [|a l1 IH1]; intros l2 H2.
  - intros i j x y Hi _ _. change (from_first []) with (@nil (A * bool)) in Hi.
    rewrite merge_spec_nil_l in Hi. exfalso. eapply not_first_in_second; eauto.
  - induction l2 as [|b l2 IH2].
    + intros i j x y _ Hj _. change (from_second []) with (@nil (A * bool)) in Hj.
      rewrite merge_spec_nil_r in Hj.
      exfalso. eapply not_second_in_first; eauto.
    + change (from_first (a :: l1)) with ((a, true) :: from_first l1).
      change (from_second (b :: l2)) with ((b, false) :: from_second l2).
      rewrite merge_spec_cons. unfold key_of_fst at 1 2. simpl fst.
      destruct (sorted_by_cons_inv key _ _ H2) as [H2' Hb].
      destruct (Z.ltb_spec (key a) (key b)) as [Hlt|Hge]; intros i j x y Hi Hj Heq.
      * destruct j as [|j]; [simpl in Hj; congruence|].
        destruct i as [|i].
        -- simpl in Hi. inversion Hi; subst. simpl in Hj.
           apply (second_in_merge l1 (b :: l2)) in Hj.
           apply elem_of_cons in Hj. destruct Hj as [->|Hj]; [lia|].
           rewrite Forall_forall in Hb. specialize (Hb _ Hj). lia.
        -- simpl in Hi, Hj.
           pose proof (IH1 (b :: l2) H2 i j x y Hi Hj Heq). lia.
      * destruct i as [|i]; [simpl in Hi; congruence|].
        destruct j as [|j]; [lia|].
        simpl in Hi, Hj.
        pose proof (IH2 H2' i j x y Hi Hj Heq). lia.
Qed.
End MergeTags.

Section MergeLoop.
Context {A : Type} (key : A -> Z).

Lemma merge_loop_correct (arr1 arr2 : list A) :
  forall (budget i1 i2 : nat) (ret : list A),
    (i1 <= length arr1)%nat -> (i2 <= length arr2)%nat ->
    (length arr1 - i1 + (length arr2 - i2) <= budget)%nat ->
    exists ret' j1 j2,
      Utils.merge_loop key budget arr1 arr2 i1 i2 ret = Ok (ret', j1, j2)
      /\ Utils.copy_rest arr2 j2 (Utils.copy_rest arr1 j1 ret')
         = ret ++ merge_spec key (drop i1 arr1) (drop i2 arr2).
Proof.
  induction budget as [|budget IH]; intros i1 i2 ret H1 H2 Hb.
  - exists ret, i1, i2. split; [reflexivity|].
    unfold Utils.copy_rest.
    rewrite !drop_ge by lia. simpl. now rewrite !app_nil_r.
  - simpl.
    destruct (Nat.ltb_spec i1 (length arr1)) as [L1|L1];
      destruct (Nat.ltb_spec i2 (length arr2)) as [L2|L2]; simpl.
    + destruct (lookup_lt_is_Some_2 arr1 i1 L1) as [a Ha].
      destruct (lookup_lt_is_Some_2 arr2 i2 L2) as [b Hb2].
      rewrite (getitem_nonneg _ _ _ Ha), (getitem_nonneg _ _ _ Hb2). simpl.
      rewrite (drop_S _ _ _ Ha), (drop_S _ _ _ Hb2), merge_spec_cons.
      destruct (key a <? key b).
      * destruct (IH (S i1) i2 (ret ++ [a])) as (r' & j1 & j2 & E & C); try lia.
        exists r', j1, j2. split; [exact E|].
        rewrite C, <- app_assoc. simpl. rewrite (drop_S _ _ _ Hb2). reflexivity.
      * destruct (IH i1 (S i2) (ret ++ [b])) as (r' & j1 & j2 & E & C); try lia.
        exists r', j1, j2. split; [exact E|].
        rewrite C, <- app_assoc. simpl. rewrite (drop_S _ _ _ Ha). reflexivity.
    + exists ret, i1, i2. split; [reflexivity|].
      unfold Utils.copy_rest. rewrite (drop_ge arr2) by lia.
      rewrite merge_spec_nil_r, !app_nil_r. reflexivity.
    + exists ret, i1, i2. split; [reflexivity|].
      unfold Utils.copy_rest. rewrite (drop_ge arr1) by lia.
      rewrite merge_spec_nil_l, app_nil_r. reflexivity.
    + exists ret, i1, i2. split; [reflexivity|].
      unfold Utils.copy_rest. rewrite !drop_ge by lia.
      simpl. now rewrite !app_nil_r.
Qed.

(** [merge] is the functional merge, on all lists. *)
Lemma merge_is_merge_spec (arr1 arr2 : list A) :
  Utils.merge key arr1 arr2 = Ok (merge_spec key arr1 arr2).
Proof.
  unfold Utils.merge.
  destruct (merge_loop_correct arr1 arr2 (length arr1 + length arr2) 0 0 [])
    as (r' & j1 & j2 & E & C); try lia.
  rewrite E. simpl. f_equal. exact C.
Qed.
End MergeLoop.

Section MergeAccordingTo.
Context {A B : Type} (key : A -> Z).

Lemma copy_rest_according_to_correct (actual : list B) :
  forall (budget i : nat) (ret : list B),
    (i + budget = length actual)%nat ->
    Utils.copy_rest_according_to budget actual i ret = Ok (ret ++ drop i actual).
Proof.
  induction budget as [|budget IH]; intros i ret H.
  - simpl. rewrite drop_ge by lia. now rewrite app_nil_r.
  - simpl.
    destruct (lookup_lt_is_Some_2 actual i) as [x Hx]; [lia|].
    rewrite (getitem_nonneg _ _ _ Hx). simpl.
    rewrite IH by lia. rewrite (drop_S _ _ _ Hx), <- app_assoc. reflexivity.
Qed.

Lemma fst_combine (l : list A) (m : list B) :
  length l = length m -> map fst (combine l m) = l.
Proof.
  revert m. induction l as [|a l IH]; intros [|b m] H; simpl in *;
    try discriminate; [reflexivity|]. f_equal. apply IH. lia.
Qed.

Lemma snd_combine (l : list A) (m : list B) :
  length l = length m -> map snd (combine l m) = m.
Proof.
  revert m. induction l as [|a l IH]; intros [|b m] H; simpl in *;
    try discriminate; [reflexivity|]. f_equal. apply IH. lia.
Qed.

Lemma drop_combine (l : list A) (m : list B) i :
  drop i (combine l m) = combine (drop i l) (drop i m).
Proof.
  revert l m. induction i as [|i IH]; intros l m; [reflexivity|].
  destruct l, m; simpl; try reflexivity.
  - now rewrite combine_nil.
  - apply IH.
Qed.

Lemma merge_according_to_loop_correct (arr1 arr2 : list A) (actual1 actual2 : list B) :
  length arr1 = length actual1 -> length arr2 = length actual2 ->
  forall (budget i1 i2 : nat) (ret : list B),
    (i1 <= length arr1)%nat -> (i2 <= length arr2)%nat ->
    (length arr1 - i1 + (length arr2 - i2) <= budget)%nat ->
    exists ret' j1 j2,
      Utils.merge_according_to_loop key budget arr1 arr2 actual1 actual2 i1 i2 ret
      = Ok (ret', j1, j2)
      /\ (j1 <= length arr1)%nat /\ (j2 <= length arr2)%nat
      /\ (ret' ++ drop j1 actual1) ++ drop j2 actual2
         = ret ++ map snd (merge_spec (key_of_fst key) (combine (drop i1 arr1) (drop i1 actual1))
                                           (combine (drop i2 arr2) (drop i2 actual2))).
Proof.
  intros E1 E2.
  induction budget as [|budget IH]; intros i1 i2 ret H1 H2 Hb.
  - exists ret, i1, i2. split; [reflexivity|]. split; [lia|]. split; [lia|].
    rewrite !drop_ge by lia. simpl. now rewrite !app_nil_r.
  - simpl.
    destruct (Nat.ltb_spec i1 (length arr1)) as [L1|L1];
      destruct (Nat.ltb_spec i2 (length arr2)) as [L2|L2]; simpl.
    + destruct (lookup_lt_is_Some_2 arr1 i1 L1) as [a Ha].
      destruct (lookup_lt_is_Some_2 arr2 i2 L2) as [b Hb2].
      destruct (lookup_lt_is_Some_2 actual1 i1) as [x Hx]; [lia|].
      destruct (lookup_lt_is_Some_2 actual2 i2) as [y Hy]; [lia|].
      rewrite (getitem_nonneg _ _ _ Ha), (getitem_nonneg _ _ _ Hb2). simpl.
      rewrite (drop_S _ _ _ Ha), (drop_S _ _ _ Hb2).
      rewrite (drop_S _ _ _ Hx), (drop_S _ _ _ Hy).
      simpl combine. rewrite merge_spec_cons. unfold key_of_fst at 1 2. simpl fst.
      destruct (key a <? key b).
      * rewrite (getitem_nonneg _ _ _ Hx). simpl.
        destruct (IH (S i1) i2 (ret ++ [x])) as (r' & j1 & j2 & E & B1 & B2 & C); try lia.
        exists r', j1, j2. split; [exact E|]. split; [lia|]. split; [lia|].
        rewrite C, <- app_assoc. simpl.
        rewrite (drop_S _ _ _ Hb2), (drop_S _ _ _ Hy). reflexivity.
      * rewrite (getitem_nonneg _ _ _ Hy). simpl.
        destruct (IH i1 (S i2) (ret ++ [y])) as (r' & j1 & j2 & E & B1 & B2 & C); try lia.
        exists r', j1, j2. split; [exact E|]. split; [lia|]. split; [lia|].
        rewrite C, <- app_assoc. simpl.
        rewrite (drop_S _ _ _ Ha), (drop_S _ _ _ Hx). reflexivity.
    + exists ret, i1, i2. split; [reflexivity|]. split; [lia|]. split; [lia|].
      rewrite (drop_ge arr2), (drop_ge actual2) by lia.
      simpl combine. rewrite merge_spec_nil_r, !app_nil_r.
      rewrite snd_combine by (rewrite !length_drop; lia). reflexivity.
    + exists ret, i1, i2. split; [reflexivity|]. split; [lia|]. split; [lia|].
      rewrite (drop_ge arr1), (drop_ge actual1) by lia.
      simpl combine. rewrite merge_spec_nil_l, app_nil_r.
      rewrite snd_combine by (rewrite !length_drop; lia). reflexivity.
    + exists ret, i1, i2. split; [reflexivity|]. split; [lia|]. split; [lia|].
      rewrite !drop_ge by lia. simpl. now rewrite !app_nil_r.
Qed.

Lemma merge_according_to_is_merge_spec (arr1 arr2 : list A) (actual1 actual2 : list B) :
  length arr1 = length actual1 -> length arr2 = length actual2 ->
  Utils.merge_according_to key arr1 arr2 actual1 actual2
  = Ok (map snd (merge_spec (key_of_fst key) (combine arr1 actual1) (combine arr2 actual2))).
Proof.
  intros E1 E2. unfold Utils.merge_according_to.
  rewrite E1, E2, !Nat.eqb_refl. simpl.
  rewrite <- E1, <- E2.
  destruct (merge_according_to_loop_correct arr1 arr2 actual1 actual2 E1 E2
              (length arr1 + length arr2) 0 0 [])
    as (r' & j1 & j2 & E & B1 & B2 & C); try lia.
  rewrite E. simpl.
  rewrite copy_rest_according_to_correct by lia. simpl.
  rewrite copy_rest_according_to_correct by lia.
  f_equal. exact C.
Qed.

Lemma merge_according_to_raises (arr1 arr2 : list A) (actual1 actual2 : list B) :
  Utils.merge_according_to key arr1 arr2 actual1 actual2 = raise Exception
  <-> (length arr1 <> length actual1 \/ length arr2 <> length actual2).
Proof.
  split.
  - intros H.
    destruct (Nat.eq_dec (length arr1) (length actual1)) as [E1|]; [|now left].
    destruct (Nat.eq_dec (length arr2) (length actual2)) as [E2|]; [|now right].
    rewrite merge_according_to_is_merge_spec in H by assumption. discriminate.
  - intros H. unfold Utils.merge_according_to.
    destruct (Nat.eqb_spec (length arr1) (length actual1));
      destruct (Nat.eqb_spec (length arr2) (length actual2)); simpl;
      try reflexivity.
    destruct H; contradiction.
Qed.

(** The keys of the weave are those of the merge of the two [defs] lists. *)
Lemma merge_spec_combine_fst (arr1 arr2 : list A) (actual1 actual2 : list B) :
  length arr1 = length actual1 -> length arr2 = length actual2 ->
  map fst (merge_spec (key_of_fst key) (combine arr1 actual1) (combine arr2 actual2))
  = merge_spec key arr1 arr2.
Proof.
  revert arr2 actual1 actual2.
  induction arr1 as [|a arr1 IH1]; intros arr2 actual1 actual2 E1 E2.
  - destruct actual1; [|discriminate]. simpl combine.
    rewrite !merge_spec_nil_l. apply fst_combine. lia.
  - destruct actual1 as [|x actual1]; [discriminate|].
    revert actual2 E2. induction arr2 as [|b arr2 IH2]; intros actual2 E2.
    + destruct actual2; [|discriminate]. simpl combine. rewrite !merge_spec_nil_r.
      change (map fst ((a, x) :: combine arr1 actual1) = a :: arr1).
      simpl. f_equal. apply fst_combine. simpl in E1. lia.
    + destruct actual2 as [|y actual2]; [discriminate|].
      simpl combine. rewrite !merge_spec_cons. unfold key_of_fst at 1 2. simpl fst.
      destruct (key a <? key b); simpl.
      * f_equal. apply (IH1 (b :: arr2) actual1 (y :: actual2)); simpl in *; lia.
      * f_equal. apply (IH2 actual2). simpl in *; lia.
Qed.
End MergeAccordingTo.

(** ** The store of a node *)

Section SortedStore.
Context {A : Type} (key : A -> Z).

Lemma clamp_nonneg (l : list A) (k : nat) :
  (k <= length l)%nat -> PyList.clamp l (Z.of_nat k) = k.
Proof.
  intros H. unfold PyList.clamp.
  replace (Z.of_nat k <? 0) with false by (symmetry; apply Z.ltb_ge; lia).
  lia.
Qed.

Lemma sorted_by_drop (l : list A) n : sorted_by key l -> sorted_by key (drop n l).
Proof.
  intros H. rewrite <- (take_drop n l) in H.
  eapply StronglySorted_app_1_r; eauto.
Qed.

Lemma sorted_by_take (l : list A) n : sorted_by key l -> sorted_by key (take n l).
Proof.
  intros H. rewrite <- (take_drop n l) in H.
  eapply StronglySorted_app_1_l; eauto.
Qed.

Lemma sorted_by_filter (f : A -> bool) (l : list A) :
  sorted_by key l -> sorted_by key (List.filter f l).
Proof.
  induction 1 as [|a l Hs IH Hall]; simpl; [constructor|].
  destruct (f a); [|assumption].
  constructor; [assumption|].
  rewrite Forall_forall in *. intros x Hx.
  apply Hall. apply list_elem_of_In in Hx. apply List.filter_In in Hx.
  apply list_elem_of_In. tauto.
Qed.

(** The elements before position [count_before t] are below [t]. *)
Lemma take_count_before (l : list A) t :
  sorted_by key l -> Forall (fun x => key x < t) (take (count_before key t l) l).
Proof.
  intros Hs. apply Forall_lookup. intros i x Hi.
  apply lookup_take_Some in Hi. destruct Hi as [Hi Hlt].
  apply (count_before_spec key l t i x Hs Hi). assumption.
Qed.

(** The elements from position [count_before t] on are not below [t]. *)
Lemma drop_count_before (l : list A) t :
  sorted_by key l -> Forall (fun x => t <= key x) (drop (count_before key t l) l).
Proof.
  intros Hs. apply Forall_lookup. intros i x Hi.
  rewrite lookup_drop in Hi.
  pose proof (count_before_spec key l t _ x Hs Hi). lia.
Qed.

Lemma count_before_all_ge (l : list A) t :
  Forall (fun x => t <= key x) l -> count_before key t l = 0%nat.
Proof.
  unfold count_before. induction 1 as [|a l Ha Hl IH]; [reflexivity|].
  simpl. destruct (Z.ltb_spec (key a) t); [lia | assumption].
Qed.

Lemma sorted_by_insert (l : list A) (x : A) :
  sorted_by key l ->
  let k := count_before key (key x) l in
  sorted_by key (take k l ++ x :: drop k l).
Proof.
  intros Hs k.
  pose proof (take_count_before l (key x) Hs) as Ht.
  pose proof (drop_count_before l (key x) Hs) as Hd.
  fold k in Ht, Hd.
  apply StronglySorted_app_2.
  - intros x1 x2 H1 H2. rewrite Forall_forall in Ht, Hd.
    specialize (Ht _ H1). simpl in Ht.
    apply elem_of_cons in H2. destruct H2 as [->|H2]; [lia|].
    specialize (Hd _ H2). simpl in Hd. lia.
  - apply sorted_by_take. assumption.
  - constructor; [apply sorted_by_drop; assumption | exact Hd].
Qed.
End SortedStore.

Section StoreOps.

Lemma add_partial_match_sorted pms pm :
  sorted_by first_timestamp pms ->
  let k := count_before first_timestamp (first_timestamp pm) pms in
  Store.add_partial_match pms pm = Ok (take k pms ++ pm :: drop k pms).
Proof.
  intros Hs k. unfold Store.add_partial_match, Store.find.
  rewrite (find_sorted first_timestamp pms _ Hs). simpl.
  unfold PyList.insert. fold k.
  rewrite clamp_nonneg by apply count_before_le_length. reflexivity.
Qed.

Lemma clean_expired_sorted w pms t :
  sorted_by first_timestamp pms ->
  Store.clean_expired_partial_matches w pms t
  = Ok (if w =? timedelta_max then pms
        else drop (count_before first_timestamp (t - w) pms) pms).
Proof.
  intros Hs. unfold Store.clean_expired_partial_matches, Store.find.
  destruct (w =? timedelta_max); [reflexivity|].
  rewrite (find_sorted first_timestamp pms _ Hs). simpl.
  unfold PyList.slice_from.
  rewrite clamp_nonneg by apply count_before_le_length. reflexivity.
Qed.

Lemma run_store_op_sorted w op pms :
  sorted_by first_timestamp pms ->
  match run_store_op w op pms with
  | Ok r => sorted_by first_timestamp r
  | Err e => op = OpConsumeFirst /\ pms = [] /\ e = PyRaise IndexError
  end.
Proof.
  intros Hs. destruct op as [pm|t| |l]; simpl.
  - rewrite add_partial_match_sorted by assumption.
    apply sorted_by_insert. assumption.
  - rewrite clean_expired_sorted by assumption.
    destruct (w =? timedelta_max); [assumption|].
    apply sorted_by_drop. assumption.
  - destruct pms as [|pm rest]; simpl; [auto|].
    apply (sorted_by_cons_inv first_timestamp _ _ Hs).
  - apply sorted_by_filter. assumption.
Qed.

Lemma run_store_ops_sorted w ops : forall pms,
  sorted_by first_timestamp pms ->
  match run_store_ops w ops pms with
  | Ok r => sorted_by first_timestamp r
  | Err e => e = PyRaise IndexError
  end.
Proof.
  induction ops as [|op ops IH]; intros pms Hs; simpl; [assumption|].
  pose proof (run_store_op_sorted w op pms Hs) as H.
  destruct (run_store_op w op pms) as [r|e]; simpl.
  - apply IH. assumption.
  - tauto.
Qed.

End StoreOps.

(** ** Partial matches and the join *)

Section Timestamps.

Lemma fold_max_ge (es : list Event) (m : Z) :
  m <= fold_left (fun m x => Z.max m (timestamp x)) es m.
Proof.
  revert m. induction es as [|e es IH]; intros m; simpl; [lia|].
  specialize (IH (Z.max m (timestamp e))). lia.
Qed.

Lemma fold_min_le (es : list Event) (m : Z) :
  fold_left (fun m x => Z.min m (timestamp x)) es m <= m.
Proof.
  revert m. induction es as [|e es IH]; intros m; simpl; [lia|].
  specialize (IH (Z.min m (timestamp e))). lia.
Qed.

Lemma fold_max_elem (es : list Event) (m : Z) (x : Event) :
  x ∈ es -> timestamp x <= fold_left (fun m x => Z.max m (timestamp x)) es m.
Proof.
  revert m. induction es as [|e es IH]; intros m Hx.
  - apply elem_of_nil in Hx. contradiction.
  - simpl. apply elem_of_cons in Hx. destruct Hx as [->|Hx].
    + pose proof (fold_max_ge es (Z.max m (timestamp e))). lia.
    + apply IH. assumption.
Qed.

Lemma fold_min_elem (es : list Event) (m : Z) (x : Event) :
  x ∈ es -> fold_left (fun m x => Z.min m (timestamp x)) es m <= timestamp x.
Proof.
  revert m. induction es as [|e es IH]; intros m Hx.
  - apply elem_of_nil in Hx. contradiction.
  - simpl. apply elem_of_cons in Hx. destruct Hx as [->|Hx].
    + pose proof (fold_min_le es (Z.min m (timestamp e))). lia.
    + apply IH. assumption.
Qed.

Lemma fold_max_attained (es : list Event) (m : Z) :
  fold_left (fun m x => Z.max m (timestamp x)) es m = m
  \/ exists x, x ∈ es /\ fold_left (fun m x => Z.max m (timestamp x)) es m = timestamp x.
Proof.
  revert m. induction es as [|e es IH]; intros m; simpl; [now left|].
  destruct (IH (Z.max m (timestamp e))) as [H|[x [Hx H]]].
  - rewrite H. destruct (Z.max_spec m (timestamp e)) as [[_ ->]|[_ ->]].
    + right. exists e. split; [left | reflexivity].
    + now left.
  - right. exists x. split; [now right | assumption].
Qed.

Lemma fold_min_attained (es : list Event) (m : Z) :
  fold_left (fun m x => Z.min m (timestamp x)) es m = m
  \/ exists x, x ∈ es /\ fold_left (fun m x => Z.min m (timestamp x)) es m = timestamp x.
Proof.
  revert m. induction es as [|e es IH]; intros m; simpl; [now left|].
  destruct (IH (Z.min m (timestamp e))) as [H|[x [Hx H]]].
  - rewrite H. destruct (Z.min_spec m (timestamp e)) as [[_ ->]|[_ ->]].
    + now left.
    + right. exists e. split; [left | reflexivity].
  - right. exists x. split; [now right | assumption].
Qed.

Lemma max_timestamp_ge e es x : x ∈ e :: es -> timestamp x <= max_timestamp e es.
Proof.
  intros Hx. unfold max_timestamp. apply elem_of_cons in Hx. destruct Hx as [->|Hx].
  - apply fold_max_ge.
  - apply fold_max_elem. assumption.
Qed.

Lemma min_timestamp_le e es x : x ∈ e :: es -> min_timestamp e es <= timestamp x.
Proof.
  intros Hx. unfold min_timestamp. apply elem_of_cons in Hx. destruct Hx as [->|Hx].
  - apply fold_min_le.
  - apply fold_min_elem. assumption.
Qed.

Lemma max_timestamp_attained e es :
  exists x, x ∈ e :: es /\ max_timestamp e es = timestamp x.
Proof.
  unfold max_timestamp. destruct (fold_max_attained es (timestamp e)) as [H|[x [Hx H]]].
  - exists e. split; [left | assumption].
  - exists x. split; [now right | assumption].
Qed.

Lemma min_timestamp_attained e es :
  exists x, x ∈ e :: es /\ min_timestamp e es = timestamp x.
Proof.
  unfold min_timestamp. destruct (fold_min_attained es (timestamp e)) as [H|[x [Hx H]]].
  - exists e. split; [left | assumption].
  - exists x. split; [now right | assumption].
Qed.

Lemma PartialMatch_init_well_formed id evs pm :
  PartialMatch_init id evs = Ok pm -> well_formed_pm pm /\ events pm = evs.
Proof.
  destruct evs as [|e es]; simpl; [discriminate|].
  intros H. inversion H; subst; clear H. simpl.
  split; [|reflexivity]. exists e, es. simpl. auto.
Qed.

Lemma well_formed_last_ge pm x :
  well_formed_pm pm -> x ∈ events pm -> timestamp x <= last_timestamp pm.
Proof.
  intros (e & es & Hev & _ & Hl) Hx. rewrite Hl. apply max_timestamp_ge.
  rewrite <- Hev. assumption.
Qed.

Lemma well_formed_first_le pm x :
  well_formed_pm pm -> x ∈ events pm -> first_timestamp pm <= timestamp x.
Proof.
  intros (e & es & Hev & Hf & _) Hx. rewrite Hf. apply min_timestamp_le.
  rewrite <- Hev. assumption.
Qed.

Lemma well_formed_last_attained pm :
  well_formed_pm pm -> exists x, x ∈ events pm /\ last_timestamp pm = timestamp x.
Proof.
  intros (e & es & Hev & _ & Hl). rewrite Hl, Hev. apply max_timestamp_attained.
Qed.

Lemma well_formed_first_attained pm :
  well_formed_pm pm -> exists x, x ∈ events pm /\ first_timestamp pm = timestamp x.
Proof.
  intros (e & es & Hev & Hf & _). rewrite Hf, Hev. apply min_timestamp_attained.
Qed.

Lemma well_formed_first_le_last pm :
  well_formed_pm pm -> first_timestamp pm <= last_timestamp pm.
Proof.
  intros H. destruct (well_formed_first_attained pm H) as (x & Hx & ->).
  apply well_formed_last_ge; assumption.
Qed.

End Timestamps.

Section MergedEvents.

Lemma merge_according_to_perm {A B} (key : A -> Z) (arr1 arr2 : list A)
      (actual1 actual2 res : list B) :
  Utils.merge_according_to key arr1 arr2 actual1 actual2 = Ok res ->
  Permutation res (actual1 ++ actual2).
Proof.
  intros H.
  destruct (Nat.eq_dec (length arr1) (length actual1)) as [E1|N1].
  - destruct (Nat.eq_dec (length arr2) (length actual2)) as [E2|N2].
    + rewrite merge_according_to_is_merge_spec in H by assumption.
      inversion H; subst; clear H.
      rewrite (merge_spec_perm _ _ _), map_app.
      rewrite !snd_combine by assumption. reflexivity.
    + assert (Hr : Utils.merge_according_to key arr1 arr2 actual1 actual2
                   = raise Exception) by (apply merge_according_to_raises; auto).
      rewrite Hr in H. discriminate.
  - assert (Hr : Utils.merge_according_to key arr1 arr2 actual1 actual2
                 = raise Exception) by (apply merge_according_to_raises; auto).
    rewrite Hr in H. discriminate.
Qed.

(** The merged list holds the events of both partial matches. *)
Lemma merge_events_perm nd fd sd ev1 ev2 evs :
  Join.merge_events_for_new_match nd fd sd ev1 ev2 = Ok evs ->
  Permutation evs (ev1 ++ ev2).
Proof.
  unfold Join.merge_events_for_new_match. intros H.
  assert (Hand :
    ((d <~ PyList.getitem (event_defs nd) 0 ;
      d1 <~ PyList.getitem fd 0 ;
      if fst d =? fst d1 then Ok (ev1 ++ ev2)
      else
        d2 <~ PyList.getitem sd 0 ;
        if fst d =? fst d2 then Ok (ev2 ++ ev1)
        else raise Exception)%res = Ok evs) ->
    Permutation evs (ev1 ++ ev2)).
  { clear H. intros H.
    destruct (PyList.getitem (event_defs nd) 0); simpl in H; [|discriminate].
    destruct (PyList.getitem fd 0); simpl in H; [|discriminate].
    destruct (_ =? _); [inversion H; reflexivity|].
    destruct (PyList.getitem sd 0); simpl in H; [|discriminate].
    destruct (_ =? _); [|discriminate].
    inversion H. apply Permutation_app_comm. }
  destruct (cls nd); try (apply Hand; exact H).
  eapply merge_according_to_perm; eauto.
Qed.

End MergedEvents.

Section Threshold.
Variables (nd : Node) (first second : PartialMatch).
Variables (first_event_defs second_event_defs : list EventDef).

Lemma decide_accepted_inv evs :
  Join.InternalNode_decide nd first second first_event_defs second_event_defs
  = Ok (Join.Accepted evs) ->
  Join.outside_window nd first second = false
  /\ Join.merge_events_for_new_match nd first_event_defs second_event_defs
                                     (events first) (events second) = Ok evs
  /\ Join.validate_new_match nd evs = Ok true
  /\ Join.threshold_rejects nd first = false.
Proof.
  unfold Join.InternalNode_decide.
  destruct (Join.outside_window nd first second); [discriminate|].
  destruct (Join.merge_events_for_new_match _ _ _ _ _) as [evs'|]; simpl; [|discriminate].
  destruct (Join.validate_new_match nd evs') as [[|]|] eqn:V; simpl; try discriminate.
  destruct (Join.threshold_rejects nd first); [discriminate|].
  intros H. inversion H; subst. auto.
Qed.

Lemma decide_rejected_by_threshold_iff :
  Join.InternalNode_decide nd first second first_event_defs second_event_defs
  = Ok Join.RejectedByThreshold
  <-> (Join.outside_window nd first second = false
       /\ (exists evs,
              Join.merge_events_for_new_match nd first_event_defs second_event_defs
                                              (events first) (events second) = Ok evs
              /\ Join.validate_new_match nd evs = Ok true)
       /\ Join.threshold_rejects nd first = true).
Proof.
  unfold Join.InternalNode_decide. split.
  - destruct (Join.outside_window nd first second); [discriminate|].
    destruct (Join.merge_events_for_new_match _ _ _ _ _) as [evs'|]; simpl; [|discriminate].
    destruct (Join.validate_new_match nd evs') as [[|]|] eqn:V; simpl; try discriminate.
    destruct (Join.threshold_rejects nd first); [|discriminate].
    intros _. split; [reflexivity|]. split; [|reflexivity]. eauto.
  - intros (-> & (evs & -> & V) & T). simpl. rewrite V. simpl. rewrite T. reflexivity.
Qed.

Lemma merged_last_ge_first_last evs id pm :
  well_formed_pm first ->
  Join.merge_events_for_new_match nd first_event_defs second_event_defs
                                  (events first) (events second) = Ok evs ->
  PartialMatch_init id evs = Ok pm ->
  last_timestamp first <= last_timestamp pm.
Proof.
  intros Hwf Hm Hpm.
  destruct (PartialMatch_init_well_formed _ _ _ Hpm) as [Hwf' Hev].
  destruct (well_formed_last_attained first Hwf) as (x & Hx & ->).
  apply well_formed_last_ge; [assumption|].
  rewrite Hev. apply merge_events_perm in Hm. rewrite Hm.
  apply elem_of_app. now left.
Qed.

End Threshold.

(** ** The evaluation monad *)

Section MonadFacts.

Lemma read_Some n nd s : heap s !! n = Some nd -> read n s = Ok (nd, s).
Proof. intros H. unfold read, lookup_node. rewrite H. reflexivity. Qed.

Lemma read_inv n s nd s' : read n s = Ok (nd, s') -> s' = s /\ heap s !! n = Some nd.
Proof.
  unfold read, lookup_node. destruct (heap s !! n); simpl; [|discriminate].
  intros H. inversion H; subst. auto.
Qed.

Lemma lookup_node_inv h n nd : lookup_node h n = Ok nd -> h !! n = Some nd.
Proof. unfold lookup_node. destruct (h !! n); [|discriminate]. congruence. Qed.

Lemma modify_Some n f nd s :
  heap s !! n = Some nd ->
  modify n f s = Ok (tt, set_heap (<[ n := f nd ]> (heap s)) s).
Proof. intros H. unfold modify. rewrite H. reflexivity. Qed.

Lemma modify_inv n f s u s' :
  modify n f s = Ok (u, s') ->
  exists nd, heap s !! n = Some nd /\ s' = set_heap (<[ n := f nd ]> (heap s)) s.
Proof.
  unfold modify. destruct (heap s !! n) as [nd|] eqn:E; [|discriminate].
  intros H. inversion H; subst. eauto.
Qed.

End MonadFacts.

Section AddPartialMatch.

(** What [add_partial_match] does to the node. *)
Lemma add_partial_match_inv self pm s s' :
  Methods.add_partial_match self pm s = Ok (tt, s') ->
  exists nd pms,
    heap s !! self = Some nd
    /\ Store.add_partial_match (partial_matches nd) pm = Ok pms
    /\ next_pm s' = next_pm s /\ next_node s' = next_node s
    /\ heap s' = <[ self :=
                      match parent nd with
                      | Some _ =>
                          set_unhandled_partial_matches
                            (unhandled_partial_matches nd ++ [pm])
                            (set_partial_matches pms nd)
                      | None => set_partial_matches pms nd
                      end ]> (heap s).
Proof.
  unfold Methods.add_partial_match, bind. intros H.
  destruct (read self s) as [[nd s0]|] eqn:R; [|discriminate].
  apply read_inv in R. destruct R as [-> Hnd].
  unfold lift in H at 1.
  destruct (Store.add_partial_match (partial_matches nd) pm) as [pms|] eqn:A;
    [|discriminate].
  rewrite (modify_Some _ _ _ _ Hnd) in H.
  exists nd, pms. split; [assumption|]. split; [assumption|].
  destruct (parent nd) eqn:P.
  - unfold Methods.put_unhandled in H.
    erewrite modify_Some in H by (simpl; apply lookup_insert_eq).
    inversion H; subst; clear H. simpl.
    rewrite insert_insert_eq. auto.
  - inversion H; subst; clear H. simpl. auto.
Qed.

Lemma Store_add_partial_match_elem pms pm pms' :
  Store.add_partial_match pms pm = Ok pms' -> pm ∈ pms'.
Proof.
  unfold Store.add_partial_match. destruct (Store.find _ _); simpl; [|discriminate].
  intros H. inversion H; subst. unfold PyList.insert.
  apply elem_of_app. right. left.
Qed.

End AddPartialMatch.

(** ** Inversion of the monadic operations *)

Section Inversion.

Lemma bind_inv {A B} (m : M A) (k : A -> M B) s b s' :
  bind m k s = Ok (b, s') ->
  exists a s0, m s = Ok (a, s0) /\ k a s0 = Ok (b, s').
Proof.
  unfold bind. destruct (m s) as [[a s0]|]; [|discriminate]. eauto.
Qed.

Lemma lift_inv {A} (r : Res A) s a s' : lift r s = Ok (a, s') -> r = Ok a /\ s' = s.
Proof. unfold lift. destruct r; [|discriminate]. intros H; inversion H; auto. Qed.

Lemma ret_inv {A} (x : A) s a s' : ret x s = Ok (a, s') -> a = x /\ s' = s.
Proof. unfold ret. intros H; inversion H; auto. Qed.

Lemma get_heap_inv s h s' : get_heap s = Ok (h, s') -> h = heap s /\ s' = s.
Proof. unfold get_heap. intros H; inversion H; auto. Qed.

Lemma deref_inv o n : deref o = Ok n -> o = Some n.
Proof. destruct o; simpl; [|discriminate]. congruence. Qed.

Lemma set_heap_same s : set_heap (heap s) s = s.
Proof. destruct s; reflexivity. Qed.

Lemma modify_id n f nd s :
  heap s !! n = Some nd -> f nd = nd -> modify n f s = Ok (tt, s).
Proof.
  intros H E. rewrite (modify_Some _ _ _ _ H), E, insert_id by assumption.
  rewrite set_heap_same. reflexivity.
Qed.

Lemma set_partial_matches_same nd : set_partial_matches (partial_matches nd) nd = nd.
Proof. destruct nd; reflexivity. Qed.

Lemma set_waiting_for_time_out_same nd :
  set_waiting_for_time_out (waiting_for_time_out nd) nd = nd.
Proof. destruct nd; reflexivity. Qed.

Lemma set_matches_to_handle_at_EOF_same nd :
  set_matches_to_handle_at_EOF (matches_to_handle_at_EOF nd) nd = nd.
Proof. destruct nd; reflexivity. Qed.

End Inversion.

(** ** States that differ by what expiration changes *)

Section Relations.
Variable t : datetime.

Lemma take_add_drop {A} (l : list A) k k' :
  take (k + k') l = take k l ++ take k' (drop k l).
Proof.
  revert l. induction k as [|k IH]; intros l; [reflexivity|].
  destruct l as [|x l]; simpl.
  - rewrite take_nil. reflexivity.
  - f_equal. apply IH.
Qed.

Lemma expired_prefix_0 a : expired_prefix t a 0.
Proof. unfold expired_prefix. rewrite take_0. constructor. Qed.

Lemma expired_prefix_add a k k' :
  expired_prefix t a k ->
  expired_prefix t (set_partial_matches (drop k (partial_matches a)) a) k' ->
  expired_prefix t a (k + k').
Proof.
  unfold expired_prefix. intros H1 H2.
  rewrite take_add_drop. apply Forall_app. split; [assumption|].
  destruct a; exact H2.
Qed.

Lemma node_evolves_cls a b : node_evolves t a b -> cls b = cls a.
Proof. intros (k & w & e & -> & _). destruct a; reflexivity. Qed.

Lemma node_evolves_parent a b : node_evolves t a b -> parent b = parent a.
Proof. intros (k & w & e & -> & _). destruct a; reflexivity. Qed.

Lemma node_evolves_window a b : node_evolves t a b -> sliding_window b = sliding_window a.
Proof. intros (k & w & e & -> & _). destruct a; reflexivity. Qed.

Lemma node_evolves_left a b : node_evolves t a b -> left_subtree b = left_subtree a.
Proof. intros (k & w & e & -> & _). destruct a; reflexivity. Qed.

Lemma node_evolves_right a b : node_evolves t a b -> right_subtree b = right_subtree a.
Proof. intros (k & w & e & -> & _). destruct a; reflexivity. Qed.

Lemma node_evolves_is_first a b : node_evolves t a b -> is_first b = is_first a.
Proof. intros (k & w & e & -> & _). destruct a; reflexivity. Qed.

Lemma node_evolves_is_last a b : node_evolves t a b -> is_last b = is_last a.
Proof. intros (k & w & e & -> & _). destruct a; reflexivity. Qed.

Lemma node_evolves_check_expired a b :
  node_evolves t a b -> check_expired_timestamp b = check_expired_timestamp a.
Proof. intros (k & w & e & -> & _). destruct a; reflexivity. Qed.

Lemma node_evolves_partial_matches a b :
  node_evolves t a b ->
  exists k, partial_matches b = drop k (partial_matches a) /\ expired_prefix t a k.
Proof. intros (k & w & e & -> & H). exists k. destruct a; auto. Qed.

Lemma node_trims_waiting a b :
  node_trims t a b -> waiting_for_time_out b = waiting_for_time_out a.
Proof. intros (k & -> & _). destruct a; reflexivity. Qed.

Lemma node_trims_EOF a b :
  node_trims t a b -> matches_to_handle_at_EOF b = matches_to_handle_at_EOF a.
Proof. intros (k & -> & _). destruct a; reflexivity. Qed.

Lemma node_trims_evolves a b : node_trims t a b -> node_evolves t a b.
Proof.
  intros (k & -> & H). exists k, (waiting_for_time_out a), (matches_to_handle_at_EOF a).
  split; [destruct a; reflexivity | assumption].
Qed.

Lemma node_trims_refl a : node_trims t a a.
Proof.
  exists 0%nat. split; [|apply expired_prefix_0].
  rewrite drop_0. symmetry. apply set_partial_matches_same.
Qed.

Lemma node_evolves_refl a : node_evolves t a a.
Proof. apply node_trims_evolves, node_trims_refl. Qed.

Lemma node_evolves_set_waiting a w :
  node_evolves t a (set_waiting_for_time_out w a).
Proof.
  exists 0%nat, w, (matches_to_handle_at_EOF a).
  split; [|apply expired_prefix_0]. rewrite drop_0. destruct a; reflexivity.
Qed.

Lemma node_evolves_set_EOF a e :
  node_evolves t a (set_matches_to_handle_at_EOF e a).
Proof.
  exists 0%nat, (waiting_for_time_out a), e.
  split; [|apply expired_prefix_0]. rewrite drop_0. destruct a; reflexivity.
Qed.

Lemma node_trims_trans a b c : node_trims t a b -> node_trims t b c -> node_trims t a c.
Proof.
  intros (k & -> & H1) (k' & -> & H2). exists (k + k')%nat.
  split; [|apply expired_prefix_add; assumption].
  destruct a; simpl. rewrite drop_drop. reflexivity.
Qed.

Lemma node_evolves_trans a b c :
  node_evolves t a b -> node_evolves t b c -> node_evolves t a c.
Proof.
  intros (k & w & e & -> & H1) (k' & w' & e' & -> & H2). exists (k + k')%nat, w', e'.
  split.
  - destruct a; simpl. rewrite drop_drop. reflexivity.
  - apply expired_prefix_add; [assumption|].
    unfold expired_prefix in *. destruct a; exact H2.
Qed.

(** Nothing is removed from a store that holds no expired match. *)
Lemma node_evolves_live a b :
  node_evolves t a b ->
  Forall (fun pm => t - sliding_window a <= first_timestamp pm) (partial_matches a) ->
  partial_matches b = partial_matches a.
Proof.
  intros Hev Hl. destruct (node_evolves_partial_matches _ _ Hev) as (k & -> & Hk).
  unfold expired_prefix in Hk.
  destruct (partial_matches a) as [|pm rest]; [apply drop_nil|].
  destruct k as [|k]; [reflexivity|].
  simpl in Hk. inversion Hk; subst. inversion Hl; subst. lia.
Qed.

Lemma trims_evolves s s' : trims t s s' -> evolves t s s'.
Proof.
  intros (H1 & H2 & H). split; [assumption|]. split; [assumption|].
  intros n. specialize (H n).
  destruct H; constructor. apply node_trims_evolves. assumption.
Qed.

Lemma trims_refl s : trims t s s.
Proof.
  split; [reflexivity|]. split; [reflexivity|].
  intros n. destruct (heap s !! n); constructor. apply node_trims_refl.
Qed.

Lemma evolves_refl s : evolves t s s.
Proof. apply trims_evolves, trims_refl. Qed.

Lemma trims_trans s1 s2 s3 : trims t s1 s2 -> trims t s2 s3 -> trims t s1 s3.
Proof.
  intros (A1 & A2 & A) (B1 & B2 & B).
  split; [congruence|]. split; [congruence|].
  intros n. specialize (A n). specialize (B n).
  destruct A as [a b Hab|]; inversion B; subst; constructor.
  eapply node_trims_trans; eauto.
Qed.

Lemma evolves_trans s1 s2 s3 : evolves t s1 s2 -> evolves t s2 s3 -> evolves t s1 s3.
Proof.
  intros (A1 & A2 & A) (B1 & B2 & B).
  split; [congruence|]. split; [congruence|].
  intros n. specialize (A n). specialize (B n).
  destruct A as [a b Hab|]; inversion B; subst; constructor.
  eapply node_evolves_trans; eauto.
Qed.

(** A [modify] of one node. *)
Lemma trims_insert s n a b :
  heap s !! n = Some a -> node_trims t a b ->
  trims t s (set_heap (<[ n := b ]> (heap s)) s).
Proof.
  intros Ha Hab. split; [reflexivity|]. split; [reflexivity|].
  intros m. simpl. destruct (decide (n = m)) as [->|Hne].
  - rewrite lookup_insert_eq, Ha. constructor. assumption.
  - rewrite lookup_insert_ne by assumption.
    destruct (heap s !! m); constructor. apply node_trims_refl.
Qed.

Lemma evolves_insert s n a b :
  heap s !! n = Some a -> node_evolves t a b ->
  evolves t s (set_heap (<[ n := b ]> (heap s)) s).
Proof.
  intros Ha Hab. split; [reflexivity|]. split; [reflexivity|].
  intros m. simpl. destruct (decide (n = m)) as [->|Hne].
  - rewrite lookup_insert_eq, Ha. constructor. assumption.
  - rewrite lookup_insert_ne by assumption.
    destruct (heap s !! m); constructor. apply node_evolves_refl.
Qed.

Lemma evolves_lookup s s' n a :
  evolves t s s' -> heap s !! n = Some a ->
  exists b, heap s' !! n = Some b /\ node_evolves t a b.
Proof.
  intros (_ & _ & H) Ha. specialize (H n). rewrite Ha in H.
  inversion H; subst. eauto.
Qed.

Lemma evolves_lookup_rev s s' n b :
  evolves t s s' -> heap s' !! n = Some b ->
  exists a, heap s !! n = Some a /\ node_evolves t a b.
Proof.
  intros (_ & _ & H) Hb. specialize (H n). rewrite Hb in H.
  inversion H; subst. eauto.
Qed.

Lemma trims_lookup s s' n a :
  trims t s s' -> heap s !! n = Some a ->
  exists b, heap s' !! n = Some b /\ node_trims t a b.
Proof.
  intros (_ & _ & H) Ha. specialize (H n). rewrite Ha in H.
  inversion H; subst. eauto.
Qed.

Lemma evolves_size s s' : evolves t s s' -> size (heap s') = size (heap s).
Proof.
  intros (_ & _ & H).
  rewrite <- !size_dom. f_equal. apply set_eq. intros n.
  rewrite !elem_of_dom. specialize (H n).
  destruct H; split; intros [? ?]; try discriminate; eauto.
Qed.

Lemma evolves_stores_sorted s s' : evolves t s s' -> stores_sorted s -> stores_sorted s'.
Proof.
  intros He Hs n b Hb.
  destruct (evolves_lookup_rev _ _ _ _ He Hb) as (a & Ha & Hev).
  destruct (node_evolves_partial_matches _ _ Hev) as (k & -> & _).
  apply sorted_by_drop. apply (Hs n _ Ha).
Qed.

Lemma evolves_nothing_to_unblock s s' :
  evolves t s s' -> nothing_to_unblock s t -> nothing_to_unblock s' t.
Proof.
  intros He Hs n b Hb.
  destruct (evolves_lookup_rev _ _ _ _ He Hb) as (a & Ha & Hev).
  rewrite (node_evolves_check_expired _ _ Hev). apply (Hs n _ Ha).
Qed.

End Relations.

(** ** The walks over the tree do not look at the stores *)

Section Skeleton.
Variable t : datetime.
Variables s s' : State.
Hypothesis He : evolves t s s'.

Lemma evolves_lookup_node n :
  match lookup_node (heap s) n, lookup_node (heap s') n with
  | Ok a, Ok b => node_evolves t a b
  | Err e, Err e' => e = e'
  | _, _ => False
  end.
Proof.
  unfold lookup_node. destruct He as (_ & _ & H). specialize (H n).
  destruct H; simpl; auto.
Qed.

Lemma get_root_from_evolves budget n :
  Node.get_root_from budget (heap s') n = Node.get_root_from budget (heap s) n.
Proof.
  revert n. induction budget as [|budget IH]; intros n; simpl; [reflexivity|].
  pose proof (evolves_lookup_node n) as H.
  destruct (lookup_node (heap s) n) as [a|], (lookup_node (heap s') n) as [b|];
    simpl; try contradiction; [|congruence].
  rewrite (node_evolves_parent _ _ _ H).
  destruct (parent a); [apply IH | reflexivity].
Qed.

Lemma get_root_evolves n : Node.get_root (heap s') n = Node.get_root (heap s) n.
Proof.
  unfold Node.get_root, depth_budget. rewrite (evolves_size _ _ _ He).
  apply get_root_from_evolves.
Qed.

Lemma get_first_FCNodes_from_evolves budget n :
  Node.get_first_FCNodes_from budget (heap s') n
  = Node.get_first_FCNodes_from budget (heap s) n.
Proof.
  revert n. induction budget as [|budget IH]; intros n; simpl; [reflexivity|].
  assert (Hchild : forall (c : option nat) (K : list nat -> Res (list nat)),
    (l <~ deref c ;
     lnd <~ lookup_node (heap s') l ;
     res1 <~ (if is_leaf_class (cls lnd) then Ok []
              else Node.get_first_FCNodes_from budget (heap s') l) ;
     K res1)%res
    = (l <~ deref c ;
       lnd <~ lookup_node (heap s) l ;
       res1 <~ (if is_leaf_class (cls lnd) then Ok []
                else Node.get_first_FCNodes_from budget (heap s) l) ;
       K res1)%res).
  { intros [c|] K; simpl; [|reflexivity].
    pose proof (evolves_lookup_node c) as Hc.
    destruct (lookup_node (heap s) c) as [x|], (lookup_node (heap s') c) as [y|];
      simpl; try contradiction; [|congruence].
    rewrite (node_evolves_cls _ _ _ Hc), IH. reflexivity. }
  pose proof (evolves_lookup_node n) as H.
  destruct (lookup_node (heap s) n) as [a|], (lookup_node (heap s') n) as [b|];
    simpl; try contradiction; [|congruence].
  rewrite (node_evolves_cls _ _ _ H), (node_evolves_is_first _ _ _ H),
    (node_evolves_left _ _ _ H), (node_evolves_right _ _ _ H).
  destruct (cls a); try reflexivity.
  - rewrite Hchild.
    destruct (deref (left_subtree a)) as [l|]; simpl; [|reflexivity].
    destruct (lookup_node (heap s) l) as [lnd|]; simpl; [|reflexivity].
    destruct (if is_leaf_class (cls lnd) then _ else _) as [res1|]; simpl; [|reflexivity].
    apply Hchild.
  - rewrite Hchild.
    destruct (deref (left_subtree a)) as [l|]; simpl; [|reflexivity].
    destruct (lookup_node (heap s) l) as [lnd|]; simpl; [|reflexivity].
    destruct (if is_leaf_class (cls lnd) then _ else _) as [res1|]; simpl; [|reflexivity].
    apply Hchild.
  - rewrite Hchild.
    destruct (deref (left_subtree a)) as [l|]; simpl; [|reflexivity].
    destruct (lookup_node (heap s) l) as [lnd|]; simpl; [|reflexivity].
    destruct (if is_leaf_class (cls lnd) then _ else _) as [res1|]; simpl; [|reflexivity].
    apply Hchild.
Qed.

Lemma get_first_FCNodes_evolves n :
  Node.get_first_FCNodes (heap s') n = Node.get_first_FCNodes (heap s) n.
Proof.
  unfold Node.get_first_FCNodes, depth_budget. rewrite (evolves_size _ _ _ He).
  apply get_first_FCNodes_from_evolves.
Qed.

End Skeleton.

(** ** Stores that expiration leaves alone *)

Section Expired.

Lemma find_all_later pms c :
  sorted_by first_timestamp pms ->
  Forall (fun pm => c <= first_timestamp pm) pms ->
  Store.find pms c = Ok 0.
Proof.
  intros Hs Hall. unfold Store.find.
  rewrite (find_sorted first_timestamp pms c Hs).
  rewrite (count_before_all_ge first_timestamp pms c Hall). reflexivity.
Qed.

Lemma slice_from_0 {A} (l : list A) : PyList.slice_from l 0 = l.
Proof.
  unfold PyList.slice_from, PyList.clamp. simpl.
  replace (Z.to_nat (Z.min 0 (Z.of_nat (length l)))) with 0%nat by lia.
  apply drop_0.
Qed.

Lemma slice_to_0 {A} (l : list A) : PyList.slice_to l 0 = [].
Proof.
  unfold PyList.slice_to, PyList.clamp. simpl.
  replace (Z.to_nat (Z.min 0 (Z.of_nat (length l)))) with 0%nat by lia.
  apply take_0.
Qed.

Lemma slice_from_count {A} (l : list A) (k : nat) :
  (k <= length l)%nat -> PyList.slice_from l (Z.of_nat k) = drop k l.
Proof. intros H. unfold PyList.slice_from. rewrite clamp_nonneg by lia. reflexivity. Qed.

Lemma all_live_drop w t k pms : all_live w t pms -> all_live w t (drop k pms).
Proof. apply Forall_drop. Qed.

(** The first step of expiration on a sorted store. *)
Lemma Store_clean_expired_inv w pms t pms' :
  sorted_by first_timestamp pms ->
  Store.clean_expired_partial_matches w pms t = Ok pms' ->
  (w =? timedelta_max) = false ->
  pms' = drop (count_before first_timestamp (t - w) pms) pms /\ all_live w t pms'.
Proof.
  intros Hs H Hw. rewrite clean_expired_sorted, Hw in H by assumption.
  inversion H; subst. split; [reflexivity|].
  apply drop_count_before. assumption.
Qed.

Lemma Store_clean_expired_live w pms t :
  sorted_by first_timestamp pms -> all_live w t pms ->
  Store.clean_expired_partial_matches w pms t = Ok pms.
Proof.
  intros Hs Hl. rewrite clean_expired_sorted by assumption.
  destruct (w =? timedelta_max); [reflexivity|].
  rewrite (count_before_all_ge first_timestamp pms (t - w) Hl). reflexivity.
Qed.

(** [sorted] sorts, and changes nothing in a sorted list. *)
Lemma insert_by_first_timestamp_elem x l y :
  y ∈ Store.insert_by_first_timestamp x l <-> y = x \/ y ∈ l.
Proof.
  induction l as [|z l IH]; simpl.
  - rewrite list_elem_of_singleton, elem_of_nil. tauto.
  - destruct (first_timestamp x <=? first_timestamp z).
    + rewrite !elem_of_cons. tauto.
    + rewrite !elem_of_cons, IH. tauto.
Qed.

Lemma insert_by_first_timestamp_sorted x l :
  sorted_by first_timestamp l ->
  sorted_by first_timestamp (Store.insert_by_first_timestamp x l).
Proof.
  induction 1 as [|z l Hs IH Hall]; simpl.
  - repeat constructor.
  - destruct (Z.leb_spec (first_timestamp x) (first_timestamp z)).
    + constructor; [constructor; assumption|].
      constructor; [assumption|].
      eapply Forall_impl; [exact Hall|]. simpl. intros. lia.
    + constructor; [assumption|].
      apply Forall_forall. intros y Hy.
      apply insert_by_first_timestamp_elem in Hy. destruct Hy as [->|Hy]; [lia|].
      rewrite Forall_forall in Hall. apply Hall. assumption.
Qed.

Lemma sorted_by_first_timestamp_sorted l :
  sorted_by first_timestamp (Store.sorted_by_first_timestamp l).
Proof.
  induction l as [|x l IH]; simpl; [constructor|].
  apply insert_by_first_timestamp_sorted. assumption.
Qed.

Lemma sorted_by_first_timestamp_id l :
  sorted_by first_timestamp l -> Store.sorted_by_first_timestamp l = l.
Proof.
  induction 1 as [|x l Hs IH Hall]; simpl; [reflexivity|].
  rewrite IH. destruct l as [|y l]; [reflexivity|]. simpl.
  inversion Hall; subst.
  destruct (Z.leb_spec (first_timestamp x) (first_timestamp y)); [reflexivity | lia].
Qed.

End Expired.

(** ** The third step: the FirstChance nodes with [is_first] *)

Section Revisit.
Variable rec_handle_new : nat -> nat -> M unit.
Variables (self : nat) (t : datetime).

Lemma revisit_stable_evolves n y y' :
  evolves t y y' -> revisit_stable t n y -> revisit_stable t n y'.
Proof.
  intros He (nd & Hn & H).
  destruct (evolves_lookup _ _ _ _ _ He Hn) as (nd' & Hn' & Hev).
  exists nd'. split; [assumption|].
  rewrite (node_evolves_window _ _ _ Hev), (node_evolves_right _ _ _ Hev).
  destruct H as [H|(r & rnd & Hr & Hrn & Hl)]; [now left|]. right.
  destruct (evolves_lookup _ _ _ _ _ He Hrn) as (rnd' & Hrn' & Hev').
  exists r, rnd'. split; [assumption|]. split; [assumption|].
  rewrite (node_evolves_window _ _ _ Hev').
  destruct (node_evolves_partial_matches _ _ _ Hev') as (k & -> & _).
  apply all_live_drop. assumption.
Qed.

Lemma stops_evolves n y y' : evolves t y y' -> stops n y' = stops n y.
Proof.
  intros (_ & _ & H). unfold stops. specialize (H n).
  destruct H as [a b Hab|]; [|reflexivity].
  rewrite (node_evolves_window _ _ _ Hab). reflexivity.
Qed.

Lemma blocked_nil nd :
  Forall (fun x => t <= fst x) (check_expired_timestamp nd) ->
  map snd (List.filter (fun x => fst x <? t) (check_expired_timestamp nd)) = [].
Proof.
  induction 1 as [|x l Hx Hl IH]; simpl; [reflexivity|].
  destruct (Z.ltb_spec (fst x) t); [lia | assumption].
Qed.

(** One round of the loop, when nothing is unblocked. *)
Lemma revisit_first_chance_node_inv n y stop y' :
  stores_sorted y -> nothing_to_unblock y t ->
  Methods.revisit_first_chance_node rec_handle_new self t n y = Ok (stop, y') ->
  trims t y y' /\ revisit_stable t n y' /\ stop = stops n y.
Proof.
  intros Hs Hq H. unfold Methods.revisit_first_chance_node in H.
  apply bind_inv in H as (nd & y0 & Hread & H).
  apply read_inv in Hread as [-> Hn].
  unfold stops. rewrite Hn.
  destruct (sliding_window nd =? timedelta_max) eqn:Hw.
  - apply ret_inv in H as [-> ->].
    split; [apply trims_refl|]. split; [|reflexivity].
    exists nd. split; [assumption|]. now left.
  - apply bind_inv in H as (r & y0 & Hr & H). apply lift_inv in Hr as [Hr ->].
    apply bind_inv in H as (rnd & y0 & Hread & H).
    apply read_inv in Hread as [-> Hrn].
    apply bind_inv in H as (count & y0 & Hc & H). apply lift_inv in Hc as [Hc ->].
    apply bind_inv in H as ([] & y1 & Hm & H).
    rewrite (modify_Some _ _ _ _ Hrn) in Hm. inversion Hm; subst y1; clear Hm.
    apply bind_inv in H as (nd' & y0 & Hread & H).
    apply read_inv in Hread as [-> Hn'].
    pose proof (Hs r rnd Hrn) as Hsr.
    unfold Store.find in Hc.
    rewrite (find_sorted first_timestamp _ _ Hsr) in Hc. inversion Hc; subst count.
    rewrite slice_from_count in Hn', H by apply count_before_le_length.
    set (k := count_before first_timestamp (t - sliding_window rnd)
                           (partial_matches rnd)) in *.
    assert (Htr : trims t y (set_heap (<[ r := set_partial_matches
                                              (drop k (partial_matches rnd)) rnd ]>
                                       (heap y)) y)).
    { eapply trims_insert; [eassumption|]. exists k. split; [reflexivity|].
      apply take_count_before. assumption. }
    assert (Hblocked : map snd (List.filter (fun x => fst x <? t)
                                            (check_expired_timestamp nd')) = []).
    { apply blocked_nil.
      eapply (evolves_nothing_to_unblock _ _ _ (trims_evolves _ _ _ Htr) Hq); eauto. }
    rewrite Hblocked in H. simpl in H.
    apply bind_inv in H as ([] & y0 & Hret & H).
    apply ret_inv in Hret as [_ ->]. apply ret_inv in H as [-> ->].
    split; [assumption|]. split; [|reflexivity].
    exists nd'. split; [assumption|]. right.
    destruct (trims_lookup _ _ _ _ _ Htr Hn) as (nd2 & Hn2 & Hev).
    rewrite Hn' in Hn2. inversion Hn2; subst nd2; clear Hn2.
    apply node_trims_evolves in Hev.
    rewrite (node_evolves_right _ _ _ Hev).
    eexists r, _. split; [apply deref_inv; assumption|].
    split; [simpl; apply lookup_insert_eq|].
    simpl. destruct rnd; simpl. apply drop_count_before. assumption.
Qed.

End Revisit.

(** ** The second step: the matches that wait for a time out *)

Section Release.
Variables (self : nat) (t : datetime).

Lemma waiting_stable_trims y y' :
  trims t y y' -> waiting_stable self t y -> waiting_stable self t y'.
Proof.
  intros Ht (nd & Hn & H).
  destruct (trims_lookup _ _ _ _ _ Ht Hn) as (nd' & Hn' & Htr).
  pose proof (node_trims_evolves _ _ _ Htr) as Hev.
  exists nd'. split; [assumption|].
  rewrite (node_evolves_cls _ _ _ Hev), (node_evolves_is_last _ _ _ Hev),
    (node_evolves_window _ _ _ Hev), (node_trims_waiting _ _ _ Htr).
  destruct H as [H|(Hs & Hl & root & rnd & Hroot & Hr & Hc)]; [now left|]. right.
  split; [assumption|]. split; [assumption|].
  destruct (trims_lookup _ _ _ _ _ Ht Hr) as (rnd' & Hr' & Htr').
  exists root, rnd'.
  split; [rewrite (get_root_evolves _ _ _ (trims_evolves _ _ _ Ht)); assumption|].
  split; [assumption|].
  rewrite (node_evolves_cls _ _ _ (node_trims_evolves _ _ _ Htr')). assumption.
Qed.

Lemma release_waiting_for_time_out_inv y y' :
  Methods.release_waiting_for_time_out self t y = Ok (tt, y') ->
  evolves t y y' /\ waiting_stable self t y'.
Proof.
  intros H. unfold Methods.release_waiting_for_time_out in H.
  apply bind_inv in H as (nd & y0 & Hread & H).
  apply read_inv in Hread as [-> Hn].
  destruct (is_negation_class (cls nd) && is_last nd) eqn:Hneg.
  - set (w := Store.sorted_by_first_timestamp (waiting_for_time_out nd)) in *.
    apply bind_inv in H as ([] & y1 & Hm1 & H).
    rewrite (modify_Some _ _ _ _ Hn) in Hm1. inversion Hm1; subst y1; clear Hm1.
    assert (E1 : evolves t y (set_heap (<[ self := set_waiting_for_time_out w nd ]>
                                          (heap y)) y)).
    { eapply evolves_insert; [eassumption|]. apply node_evolves_set_waiting. }
    apply bind_inv in H as (count & y0 & Hc & H). apply lift_inv in Hc as [Hc ->].
    unfold Store.find in Hc.
    rewrite (find_sorted first_timestamp w _ (sorted_by_first_timestamp_sorted _)) in Hc.
    inversion Hc; subst count; clear Hc.
    set (k := count_before first_timestamp (t - sliding_window nd) w) in *.
    apply bind_inv in H as (h & y0 & Hh & H). apply get_heap_inv in Hh as [-> ->].
    apply bind_inv in H as (root & y0 & Hroot & H). apply lift_inv in Hroot as [Hroot ->].
    apply bind_inv in H as (rnd & y0 & Hread & H).
    apply read_inv in Hread as [-> Hr].
    apply bind_inv in H as ([] & y0 & Hneg_root & H).
    destruct (is_negation_class (cls rnd)) eqn:Hcr; [|discriminate].
    apply ret_inv in Hneg_root as [_ ->].
    apply bind_inv in H as ([] & y2 & Hm2 & H).
    rewrite (modify_Some _ _ _ _ Hr) in Hm2. inversion Hm2; subst y2; clear Hm2.
    match type of H with modify _ _ ?y2 = _ => set (s2 := y2) in * end.
    assert (E2 : evolves t y s2).
    { eapply evolves_trans; [exact E1|].
      eapply evolves_insert; [eassumption|]. apply node_evolves_set_EOF. }
    destruct (evolves_lookup _ _ _ _ _ E2 Hn) as (nd2 & Hn2 & Hev2).
    rewrite (modify_Some _ _ _ _ Hn2) in H. inversion H; subst y'; clear H.
    assert (E3 : evolves t y
                   (set_heap (<[ self := set_waiting_for_time_out
                                           (PyList.slice_from w (Z.of_nat k)) nd2 ]>
                                (heap s2)) s2)).
    { eapply evolves_trans; [exact E2|].
      eapply evolves_insert; [eassumption|]. apply node_evolves_set_waiting. }
    split; [assumption|].
    eexists. split; [simpl; apply lookup_insert_eq|].
    right.
    assert (Hcls : cls (set_waiting_for_time_out (PyList.slice_from w (Z.of_nat k)) nd2)
                   = cls nd)
      by (rewrite <- (node_evolves_cls _ _ _ Hev2); destruct nd2; reflexivity).
    assert (Hwin : sliding_window
                     (set_waiting_for_time_out (PyList.slice_from w (Z.of_nat k)) nd2)
                   = sliding_window nd)
      by (rewrite <- (node_evolves_window _ _ _ Hev2); destruct nd2; reflexivity).
    rewrite Hwin.
    replace (waiting_for_time_out
               (set_waiting_for_time_out (PyList.slice_from w (Z.of_nat k)) nd2))
      with (drop k w)
      by (rewrite slice_from_count by apply count_before_le_length;
          destruct nd2; reflexivity).
    split; [apply sorted_by_drop, sorted_by_first_timestamp_sorted|].
    split; [apply drop_count_before, sorted_by_first_timestamp_sorted|].
    assert (E13 : evolves t (set_heap (<[ self := set_waiting_for_time_out w nd ]>
                                         (heap y)) y)
                    (set_heap (<[ self := set_waiting_for_time_out
                                            (PyList.slice_from w (Z.of_nat k)) nd2 ]>
                                 (heap s2)) s2)).
    { eapply evolves_trans.
      - eapply evolves_insert; [eassumption|]. apply node_evolves_set_EOF.
      - eapply evolves_insert; [eassumption|]. apply node_evolves_set_waiting. }
    destruct (evolves_lookup _ _ _ _ _ E13 Hr) as (rnd3 & Hr3 & Hev3).
    exists root, rnd3.
    split; [rewrite (get_root_evolves _ _ _ E13); assumption|].
    split; [assumption|].
    rewrite (node_evolves_cls _ _ _ Hev3). assumption.
  - apply ret_inv in H as [_ ->]. split; [apply evolves_refl|].
    exists nd. split; [assumption|]. now left.
Qed.

Lemma release_waiting_for_time_out_stable y :
  waiting_stable self t y -> Methods.release_waiting_for_time_out self t y = Ok (tt, y).
Proof.
  intros (nd & Hn & H). unfold Methods.release_waiting_for_time_out, bind.
  rewrite (read_Some _ _ _ Hn).
  destruct H as [H|(Hs & Hl & root & rnd & Hroot & Hr & Hc)].
  - rewrite H. reflexivity.
  - destruct (is_negation_class (cls nd) && is_last nd); [|reflexivity].
    rewrite (sorted_by_first_timestamp_id _ Hs).
    rewrite (modify_id _ _ _ _ Hn (set_waiting_for_time_out_same nd)).
    rewrite (find_all_later _ _ Hs Hl). simpl.
    rewrite Hroot. simpl. rewrite (read_Some _ _ _ Hr), Hc. simpl.
    rewrite slice_to_0, slice_from_0.
    rewrite (modify_id _ _ rnd _ Hr)
      by (rewrite app_nil_r; apply set_matches_to_handle_at_EOF_same).
    apply (modify_id _ _ _ _ Hn (set_waiting_for_time_out_same nd)).
Qed.

End Release.

(** ** Expiration in a settled state *)

Section Settled.
Variable rec_handle_new : nat -> nat -> M unit.
Variables (self : nat) (t : datetime).

Lemma revisit_settled_stable n y :
  revisit_settled t n y ->
  Methods.revisit_first_chance_node rec_handle_new self t n y = Ok (stops n y, y).
Proof.
  intros (nd & Hn & H).
  unfold Methods.revisit_first_chance_node, bind, stops.
  rewrite (read_Some _ _ _ Hn), Hn.
  destruct H as [Hw|(Hq & r & rnd & Hr & Hrn & Hs & Hl)].
  - rewrite Hw. reflexivity.
  - destruct (sliding_window nd =? timedelta_max); [reflexivity|].
    rewrite Hr. simpl. rewrite (read_Some _ _ _ Hrn).
    rewrite (find_all_later _ _ Hs Hl). simpl.
    rewrite slice_from_0.
    rewrite (modify_id _ _ _ _ Hrn (set_partial_matches_same rnd)).
    rewrite (read_Some _ _ _ Hn).
    rewrite (blocked_nil t nd Hq). reflexivity.
Qed.

Lemma for_each_until_settled (l : list nat) y :
  visited_settled t l y ->
  Methods.for_each_until l (Methods.revisit_first_chance_node rec_handle_new self t) y
  = Ok (tt, y).
Proof.
  induction l as [|n l IH]; simpl; [reflexivity|].
  intros [Hn Hrest]. unfold bind. rewrite (revisit_settled_stable _ _ Hn).
  destruct Hrest as [->|Hrest]; [reflexivity|].
  destruct (stops n y); [reflexivity | apply IH; assumption].
Qed.

Lemma revisit_stable_settled n y :
  stores_sorted y -> nothing_to_unblock y t ->
  revisit_stable t n y -> revisit_settled t n y.
Proof.
  intros Hs Hq (nd & Hn & H). exists nd. split; [assumption|].
  destruct H as [Hw|(r & rnd & Hr & Hrn & Hl)]; [now left|]. right.
  split; [apply (Hq n nd Hn)|].
  exists r, rnd. split; [assumption|]. split; [assumption|].
  split; [apply (Hs r rnd Hrn) | assumption].
Qed.

Lemma revisit_settled_trims n y y' :
  stores_sorted y -> nothing_to_unblock y t ->
  trims t y y' -> revisit_stable t n y -> revisit_settled t n y'.
Proof.
  intros Hs Hq Ht Hst. pose proof (trims_evolves _ _ _ Ht) as He.
  apply revisit_stable_settled.
  - eapply evolves_stores_sorted; eassumption.
  - eapply evolves_nothing_to_unblock; eassumption.
  - eapply revisit_stable_evolves; eassumption.
Qed.

(** After the loop, in a state where nothing was blocked, the nodes it
    reached are settled. *)
Lemma for_each_until_visited (l : list nat) : forall y y',
  stores_sorted y -> nothing_to_unblock y t ->
  Methods.for_each_until l (Methods.revisit_first_chance_node rec_handle_new self t) y
  = Ok (tt, y') ->
  trims t y y' /\ visited_settled t l y'.
Proof.
  induction l as [|n l IH]; intros y y' Hs Hq H; simpl in *.
  - apply ret_inv in H as [_ ->]. split; [apply trims_refl | exact I].
  - apply bind_inv in H as (stop & y1 & Hb & H).
    destruct (revisit_first_chance_node_inv rec_handle_new self t _ _ _ _ Hs Hq Hb)
      as (Ht1 & Hst & Hstop).
    pose proof (trims_evolves _ _ _ Ht1) as He1.
    pose proof (evolves_stores_sorted _ _ _ He1 Hs) as Hs1.
    pose proof (evolves_nothing_to_unblock _ _ _ He1 Hq) as Hq1.
    destruct stop.
    + apply ret_inv in H as [_ ->]. split; [assumption|]. split.
      * apply revisit_stable_settled; assumption.
      * left. rewrite (stops_evolves _ _ _ _ He1). symmetry. assumption.
    + destruct (IH _ _ Hs1 Hq1 H) as (Ht2 & Hv).
      split; [eapply trims_trans; eassumption|]. split.
      * eapply revisit_settled_trims; eassumption.
      * right. assumption.
Qed.

(** In a settled state the body of expiration changes nothing. *)
Lemma clean_expired_body_settled y :
  settled self t y ->
  Methods.clean_expired_partial_matches_body rec_handle_new self t y = Ok (tt, y).
Proof.
  intros (nd & Hn & H).
  unfold Methods.clean_expired_partial_matches_body, bind.
  rewrite (read_Some _ _ _ Hn).
  destruct H as [Hw|(Hs & Hl & Hwait & l & Hroute & Hv)]; [rewrite Hw; reflexivity|].
  destruct (sliding_window nd =? timedelta_max); [reflexivity|].
  rewrite (Store_clean_expired_live _ _ _ Hs Hl). simpl.
  rewrite (modify_id _ _ _ _ Hn (set_partial_matches_same nd)).
  rewrite (release_waiting_for_time_out_stable _ _ _ Hwait).
  unfold get_heap. unfold expiry_route in Hroute. rewrite Hroute. simpl.
  apply for_each_until_settled. assumption.
Qed.

(** After the body of expiration, in a state where nothing was blocked,
    the state is settled, and the store of [self] lost the expired
    matches. *)
Lemma clean_expired_body_quiet_settled s s1 :
  stores_sorted s -> nothing_to_unblock s t ->
  Methods.clean_expired_partial_matches_body rec_handle_new self t s = Ok (tt, s1) ->
  settled self t s1
  /\ exists nd nd1,
       heap s !! self = Some nd /\ heap s1 !! self = Some nd1
       /\ partial_matches nd1 = live_part (sliding_window nd) t (partial_matches nd).
Proof.
  intros Hs Hq H. unfold Methods.clean_expired_partial_matches_body in H.
  apply bind_inv in H as (nd & y0 & Hread & H).
  apply read_inv in Hread as [-> Hn].
  destruct (sliding_window nd =? timedelta_max) eqn:Hw.
  - apply ret_inv in H as [_ ->]. split.
    + exists nd. split; [assumption | now left].
    + exists nd, nd. unfold live_part. rewrite Hw. auto.
  - apply bind_inv in H as (pms & y0 & Hc & H). apply lift_inv in Hc as [Hc ->].
    destruct (Store_clean_expired_inv _ _ _ _ (Hs self nd Hn) Hc Hw) as [-> Hlive].
    set (k := count_before first_timestamp (t - sliding_window nd)
                           (partial_matches nd)) in *.
    apply bind_inv in H as ([] & sa & Hm & H).
    rewrite (modify_Some _ _ _ _ Hn) in Hm. inversion Hm; subst sa; clear Hm.
    match type of H with bind _ _ ?y = _ => set (sa := y) in * end.
    assert (Ta : trims t s sa).
    { eapply trims_insert; [eassumption|]. exists k. split; [reflexivity|].
      apply take_count_before. apply (Hs self nd Hn). }
    assert (Hna : heap sa !! self
                  = Some (set_partial_matches (drop k (partial_matches nd)) nd))
      by (simpl; apply lookup_insert_eq).
    apply bind_inv in H as ([] & sb & Hrel & H).
    destruct (release_waiting_for_time_out_inv _ _ _ _ Hrel) as (Eab & Hwait).
    apply bind_inv in H as (h & y0 & Hh & H). apply get_heap_inv in Hh as [-> ->].
    apply bind_inv in H as (l & y0 & Hl & H). apply lift_inv in Hl as [Hl ->].
    pose proof (evolves_trans _ _ _ _ (trims_evolves _ _ _ Ta) Eab) as Eb.
    pose proof (evolves_stores_sorted _ _ _ Eb Hs) as Hsb.
    pose proof (evolves_nothing_to_unblock _ _ _ Eb Hq) as Hqb.
    destruct (for_each_until_visited l _ _ Hsb Hqb H) as (Tb & Hv).
    pose proof (trims_evolves _ _ _ Tb) as Eb1.
    pose proof (evolves_trans _ _ _ _ Eab Eb1) as Ea1.
    destruct (evolves_lookup _ _ _ _ _ Ea1 Hna) as (nd1 & Hn1 & Hev1).
    assert (Hw1 : sliding_window nd1 = sliding_window nd)
      by (rewrite (node_evolves_window _ _ _ Hev1); destruct nd; reflexivity).
    assert (Hp1 : partial_matches nd1 = drop k (partial_matches nd)).
    { rewrite (node_evolves_live _ _ _ Hev1); destruct nd; [reflexivity | exact Hlive]. }
    split; [|exists nd, nd1; unfold live_part; rewrite Hw; auto].
    exists nd1. split; [assumption|]. right.
    split; [rewrite Hp1; apply sorted_by_drop; apply (Hs self nd Hn)|].
    split; [rewrite Hp1, Hw1; exact Hlive|].
    split; [apply (waiting_stable_trims _ _ _ _ Tb Hwait)|].
    exists l. split; [|assumption].
    unfold expiry_route.
    replace (parent nd1) with (parent nd)
      by (rewrite (node_evolves_parent _ _ _ Hev1); destruct nd; reflexivity).
    rewrite <- Hl. destruct (parent nd); apply (get_first_FCNodes_evolves _ _ _ Eb1).
Qed.
End Settled.

(** ** Expiration runs when nothing is unblocked *)

Section Runs.
Variable rec_handle_new : nat -> nat -> M unit.
Variables (self : nat) (t : datetime).

Lemma has_right_subtree_trims n y y' :
  trims t y y' -> has_right_subtree y n -> has_right_subtree y' n.
Proof.
  intros Ht (nd & r & rnd & Hn & Hr & Hrn).
  destruct (trims_lookup _ _ _ _ _ Ht Hn) as (nd' & Hn' & Htr).
  destruct (trims_lookup _ _ _ _ _ Ht Hrn) as (rnd' & Hrn' & _).
  exists nd', r, rnd'. split; [assumption|]. split; [|assumption].
  rewrite (node_evolves_right _ _ _ (node_trims_evolves _ _ _ Htr)). assumption.
Qed.

(** One round of the loop returns, and only trims a store. *)
Lemma revisit_first_chance_node_runs n y :
  stores_sorted y -> nothing_to_unblock y t -> has_right_subtree y n ->
  exists y',
    Methods.revisit_first_chance_node rec_handle_new self t n y = Ok (stops n y, y')
    /\ trims t y y'.
Proof.
  intros Hs Hq (nd & r & rnd & Hn & Hr & Hrn).
  assert (exists stop y',
             Methods.revisit_first_chance_node rec_handle_new self t n y
             = Ok (stop, y')) as (stop & y' & E).
  { unfold Methods.revisit_first_chance_node, bind.
    rewrite (read_Some _ _ _ Hn).
    destruct (sliding_window nd =? timedelta_max); [eauto|].
    rewrite Hr. simpl. rewrite (read_Some _ _ _ Hrn).
    unfold Store.find.
    rewrite (find_sorted first_timestamp _ _ (Hs r rnd Hrn)). simpl.
    rewrite (modify_Some _ _ _ _ Hrn).
    rewrite slice_from_count by apply count_before_le_length.
    match goal with
    | |- context [read n ?y1] =>
        assert (Tr : trims t y y1)
    end.
    { eapply trims_insert; [eassumption|].
      exists (count_before first_timestamp (t - sliding_window rnd)
                           (partial_matches rnd)).
      split; [reflexivity|]. apply take_count_before. apply (Hs r rnd Hrn). }
    destruct (trims_lookup _ _ _ _ _ Tr Hn) as (nd' & Hn' & _).
    rewrite (read_Some _ _ _ Hn').
    rewrite (blocked_nil t nd')
      by (apply (evolves_nothing_to_unblock _ _ _ (trims_evolves _ _ _ Tr) Hq n nd' Hn')).
    simpl. eauto. }
  destruct (revisit_first_chance_node_inv rec_handle_new self t _ _ _ _ Hs Hq E)
    as (Ht & _ & ->).
  eauto.
Qed.

(** The whole loop returns, and only trims stores. *)
Lemma for_each_until_runs (l : list nat) : forall y,
  stores_sorted y -> nothing_to_unblock y t -> Forall (has_right_subtree y) l ->
  exists y',
    Methods.for_each_until l (Methods.revisit_first_chance_node rec_handle_new self t) y
    = Ok (tt, y')
    /\ trims t y y'.
Proof.
  induction l as [|n l IH]; intros y Hs Hq Hall; simpl.
  - exists y. split; [reflexivity | apply trims_refl].
  - inversion Hall as [|? ? Hn Hrest]; subst.
    destruct (revisit_first_chance_node_runs n y Hs Hq Hn) as (y1 & E & T1).
    unfold bind. rewrite E.
    destruct (stops n y); [exists y1; split; [reflexivity | assumption]|].
    pose proof (trims_evolves _ _ _ T1) as E1.
    destruct (IH y1 (evolves_stores_sorted _ _ _ E1 Hs)
                 (evolves_nothing_to_unblock _ _ _ E1 Hq)) as (y' & E' & T').
    { eapply Forall_impl; [exact Hrest|]. intros m. apply has_right_subtree_trims.
      assumption. }
    exists y'. split; [assumption|]. eapply trims_trans; eassumption.
Qed.

(** Expiration of a node that is not the last negation node returns, and
    only trims stores. *)
Lemma clean_expired_body_runs s nd route :
  heap s !! self = Some nd ->
  is_negation_class (cls nd) && is_last nd = false ->
  stores_sorted s -> nothing_to_unblock s t ->
  expiry_route (heap s) self nd = Ok route ->
  Forall (has_right_subtree s) route ->
  exists s1,
    Methods.clean_expired_partial_matches_body rec_handle_new self t s = Ok (tt, s1)
    /\ trims t s s1.
Proof.
  intros Hn Hneg Hs Hq Hroute Hall.
  unfold Methods.clean_expired_partial_matches_body, bind.
  rewrite (read_Some _ _ _ Hn).
  destruct (sliding_window nd =? timedelta_max) eqn:Hw.
  { exists s. split; [reflexivity | apply trims_refl]. }
  rewrite (clean_expired_sorted _ _ _ (Hs self nd Hn)), Hw. simpl.
  rewrite (modify_Some _ _ _ _ Hn).
  set (k := count_before first_timestamp (t - sliding_window nd) (partial_matches nd)).
  match goal with
  | |- context [Methods.release_waiting_for_time_out self t ?y] => set (sa := y)
  end.
  assert (Ta : trims t s sa).
  { eapply trims_insert; [eassumption|]. exists k. split; [reflexivity|].
    apply take_count_before. apply (Hs self nd Hn). }
  assert (Hrel : Methods.release_waiting_for_time_out self t sa = Ok (tt, sa)).
  { apply release_waiting_for_time_out_stable.
    exists (set_partial_matches (drop k (partial_matches nd)) nd).
    split; [simpl; apply lookup_insert_eq|]. left. destruct nd; exact Hneg. }
  rewrite Hrel. unfold get_heap.
  assert (Hl : match parent nd with
               | Some p => Node.get_first_FCNodes (heap sa) p
               | None => Node.get_first_FCNodes (heap sa) self
               end = Ok route).
  { rewrite <- Hroute. unfold expiry_route.
    destruct (parent nd); apply (get_first_FCNodes_evolves _ _ _ (trims_evolves _ _ _ Ta)). }
  rewrite Hl. simpl.
  pose proof (trims_evolves _ _ _ Ta) as Ea.
  destruct (for_each_until_runs route sa (evolves_stores_sorted _ _ _ Ea Hs)
              (evolves_nothing_to_unblock _ _ _ Ea Hq)) as (s1 & E & T1).
  { eapply Forall_impl; [exact Hall|]. intros m. apply has_right_subtree_trims.
    assumption. }
  exists s1. split; [assumption|]. eapply trims_trans; eassumption.
Qed.

End Runs.

(** ** Adding a match to a sorted store *)

Section AddSorted.

Lemma node_add_partial_match_sorted self pm s nd :
  heap s !! self = Some nd ->
  sorted_by first_timestamp (partial_matches nd) ->
  Methods.add_partial_match self pm s
  = Ok (tt, set_heap (<[ self := with_match pm nd ]> (heap s)) s).
Proof.
  intros Hn Hs. unfold Methods.add_partial_match, bind.
  rewrite (read_Some _ _ _ Hn).
  unfold Store.add_partial_match, Store.find.
  rewrite (find_sorted first_timestamp _ _ Hs). simpl.
  rewrite (modify_Some _ _ _ _ Hn).
  unfold PyList.insert. rewrite clamp_nonneg by apply count_before_le_length.
  unfold with_match. destruct (parent nd) eqn:P; [|reflexivity].
  unfold Methods.put_unhandled.
  erewrite modify_Some by (simpl; apply lookup_insert_eq).
  simpl. rewrite insert_insert_eq. reflexivity.
Qed.

Lemma parent_with_match pm nd : parent (with_match pm nd) = parent nd.
Proof. unfold with_match. destruct (parent nd) eqn:P; simpl; congruence. Qed.

End AddSorted.

(** ** Sorted stores and blocked matches of a given state *)

Lemma stores_sorted_by_computation (s : State) :
  map_Forall (fun _ nd => StronglySorted (fun x y => first_timestamp x <= first_timestamp y)
                                         (partial_matches nd)) (heap s) ->
  stores_sorted s.
Proof. intros H n nd Hn. exact (H n nd Hn). Qed.

Lemma nothing_to_unblock_by_computation (s : State) (cutoff : datetime) :
  map_Forall (fun _ nd => Forall (fun x => cutoff <= fst x) (check_expired_timestamp nd))
             (heap s) ->
  nothing_to_unblock s cutoff.
Proof. intros H n nd Hn. exact (H n nd Hn). Qed.

Lemma cutoffs_representable_by_computation (origin : datetime) (s : State) (t : datetime) :
  map_Forall (fun _ nd => (sliding_window nd =? timedelta_max) = false ->
                          origin <= t - sliding_window nd <= origin + datetime_span)
             (heap s) ->
  cutoffs_representable origin s t.
Proof. intros H n nd Hn. exact (H n nd Hn). Qed.

(** * The claims *)

(** C9.  On a list sorted by [first_timestamp], [find_partial_match_by_timestamp]
    returns (it neither raises nor runs out of its loop) the number of
    elements whose [first_timestamp] is strictly below the given timestamp,
    which is the first index whose [first_timestamp] is at or above it. *)
Theorem find_partial_match_by_timestamp_counts
        (partial_matches : list PartialMatch) (timestamp : datetime) :
  sorted_by first_timestamp partial_matches ->
  Utils.find_partial_match_by_timestamp first_timestamp partial_matches timestamp
  = Ok (Z.of_nat (count_before first_timestamp timestamp partial_matches))
  /\ (forall (i : nat) (pm : PartialMatch),
         partial_matches !! i = Some pm ->
         (first_timestamp pm < timestamp
          <-> (i < count_before first_timestamp timestamp partial_matches)%nat)).
Proof.
  intros Hs. split.
  - apply find_sorted. assumption.
  - intros i pm Hi. apply count_before_spec; assumption.
Qed.

Lemma find_partial_match_by_timestamp_counts_witness :
  sorted_by first_timestamp [pm_at 0 1; pm_at 1 3; pm_at 2 3]
  /\ Utils.find_partial_match_by_timestamp first_timestamp
       [pm_at 0 1; pm_at 1 3; pm_at 2 3] 3 = Ok 1.
Proof.
  split.
  - repeat constructor; simpl; lia.
  - apply (find_partial_match_by_timestamp_counts [pm_at 0 1; pm_at 1 3; pm_at 2 3] 3).
    repeat constructor; simpl; lia.
Defined.

(** C10.  On two lists sorted under [key], [merge] returns a sorted
    permutation of their concatenation, of the summed length, in which an
    element of the second list stands before the elements of the first list
    with the same key; [merge_according_to] weaves the two [actual] lists in
    the order in which [merge] weaves the two [defs] lists, and raises
    exactly when a [defs] list and its [actual] list differ in length. *)
Theorem merge_sorted_permutation {A : Type} (key : A -> Z) (arr1 arr2 : list A) :
  sorted_by key arr1 -> sorted_by key arr2 ->
  exists ret,
    Utils.merge key arr1 arr2 = Ok ret
    /\ sorted_by key ret
    /\ Permutation ret (arr1 ++ arr2)
    /\ length ret = (length arr1 + length arr2)%nat
    /\ (exists tagged,
           Utils.merge (key_of_fst key) (from_first arr1) (from_second arr2)
           = Ok tagged
           /\ map fst tagged = ret
           /\ second_before_first_on_ties key tagged)
    /\ (forall (B : Type) (actual1 actual2 : list B),
           (Utils.merge_according_to key arr1 arr2 actual1 actual2 = raise Exception
            <-> (length arr1 <> length actual1 \/ length arr2 <> length actual2))
           /\ (length arr1 = length actual1 -> length arr2 = length actual2 ->
               exists woven,
                 Utils.merge (key_of_fst key)
                             (combine arr1 actual1) (combine arr2 actual2) = Ok woven
                 /\ map fst woven = ret
                 /\ Utils.merge_according_to key arr1 arr2 actual1 actual2
                    = Ok (map snd woven))).
Proof.
  intros H1 H2. exists (merge_spec key arr1 arr2).
  split; [apply merge_is_merge_spec|].
  split; [apply merge_spec_sorted; assumption|].
  split; [apply merge_spec_perm|].
  split; [apply merge_spec_length|].
  split.
  - exists (merge_spec (key_of_fst key) (from_first arr1) (from_second arr2)).
    split; [apply merge_is_merge_spec|].
    split; [apply merge_spec_untag|].
    apply merge_spec_ties. assumption.
  - intros B actual1 actual2. split; [apply merge_according_to_raises|].
    intros E1 E2.
    exists (merge_spec (key_of_fst key) (combine arr1 actual1) (combine arr2 actual2)).
    split; [apply merge_is_merge_spec|].
    split; [apply merge_spec_combine_fst; assumption|].
    apply merge_according_to_is_merge_spec; assumption.
Qed.

Lemma merge_sorted_permutation_witness :
  sorted_by (fun x : Z => x) [1; 3; 5]
  /\ sorted_by (fun x : Z => x) [2; 3; 4; 9]
  /\ exists ret,
       Utils.merge (fun x : Z => x) [1; 3; 5] [2; 3; 4; 9] = Ok ret
       /\ sorted_by (fun x : Z => x) ret
       /\ Permutation ret ([1; 3; 5] ++ [2; 3; 4; 9])
       /\ length ret = 7%nat.
Proof.
  split; [repeat constructor; simpl; lia|].
  split; [repeat constructor; simpl; lia|].
  destruct (merge_sorted_permutation (fun x : Z => x) [1; 3; 5] [2; 3; 4; 9])
    as (ret & Hm & Hs & Hp & Hl & _).
  - repeat constructor; simpl; lia.
  - repeat constructor; simpl; lia.
  - exists ret. repeat split; assumption.
Defined.

(** C4 (as stated it fails).  The specification's insertion policy, after
    equal keys, does not hold: a match added to a store that holds one match
    with the same [first_timestamp] is placed before it. *)
Lemma add_partial_match_not_after_equal_keys :
  exists result,
    Store.add_partial_match [pm_at 0 1] (pm_at 1 1) = Ok result
    /\ ~ inserted_after_equal_keys [pm_at 0 1] (pm_at 1 1) result.
Proof.
  exists [pm_at 1 1; pm_at 0 1]. split; [reflexivity|].
  intros (before & after & Hres & Hpms & Hall).
  destruct before as [|b before].
  - simpl in Hpms. subst after. inversion Hall as [|x l Hne _]; subst.
    apply Hne. reflexivity.
  - simpl in Hpms. inversion Hpms as [[Hb Hrest]].
    destruct before; [|discriminate].
    simpl in Hrest. subst after b. simpl in Hres. discriminate.
Qed.

(** C4 (amended).  On a store sorted by [first_timestamp],
    [add_partial_match] inserts the new match after the stored matches that
    start strictly earlier and before every stored match with an equal or
    later [first_timestamp]; the store stays sorted. *)
Theorem add_partial_match_before_equal_keys
        (partial_matches : list PartialMatch) (pm : PartialMatch) :
  sorted_by first_timestamp partial_matches ->
  exists result,
    Store.add_partial_match partial_matches pm = Ok result
    /\ inserted_before_equal_keys partial_matches pm result
    /\ sorted_by first_timestamp result.
Proof.
  intros Hs.
  set (k := count_before first_timestamp (first_timestamp pm) partial_matches).
  exists (take k partial_matches ++ pm :: drop k partial_matches).
  split; [apply add_partial_match_sorted; assumption|].
  split.
  - exists (take k partial_matches), (drop k partial_matches).
    split; [reflexivity|].
    split; [symmetry; apply take_drop|].
    split; [apply take_count_before | apply drop_count_before]; assumption.
  - apply (sorted_by_insert first_timestamp). assumption.
Qed.

Lemma add_partial_match_before_equal_keys_witness :
  sorted_by first_timestamp [pm_at 0 1; pm_at 1 3]
  /\ exists result,
       Store.add_partial_match [pm_at 0 1; pm_at 1 3] (pm_at 2 3) = Ok result
       /\ inserted_before_equal_keys [pm_at 0 1; pm_at 1 3] (pm_at 2 3) result
       /\ sorted_by first_timestamp result.
Proof.
  split.
  - repeat constructor; simpl; lia.
  - apply (add_partial_match_before_equal_keys [pm_at 0 1; pm_at 1 3] (pm_at 2 3)).
    repeat constructor; simpl; lia.
Defined.

(** C5.  Starting from the empty list, every sequence of
    [add_partial_match], [clean_expired_partial_matches],
    [consume_first_partial_match] and [_remove_partial_matches] leaves
    [partial_matches] sorted by [first_timestamp]; the only way such a
    sequence stops is the IndexError of consuming from an empty store. *)
Theorem partial_matches_stay_sorted (sliding_window : timedelta) (ops : list StoreOp) :
  match run_store_ops sliding_window ops [] with
  | Ok partial_matches => sorted_by first_timestamp partial_matches
  | Err e => e = PyRaise IndexError
  end.
Proof.
  apply run_store_ops_sorted. constructor.
Qed.

(** C3 (as stated it fails).  The guard does not look at the merged match:
    with threshold 5, a new match that ends at 1 joined with a stored match
    that ends at 9 gives a merged match that ends at 9, at or above the
    threshold, and the guard rejects it. *)
Lemma threshold_guard_rejects_late_merged_match :
  ~ threshold_guard_tests_merged (and_node 10 (Some 5)) (pm_at 0 1) (pm_at 1 9)
      [(1, qitem "B" "b" 1)] [(0, qitem "A" "a" 0)].
Proof.
  intros H.
  apply (H 5 [event_at "A" 9; event_at "A" 1] 2%nat
           {| pm_id := 2; events := [event_at "A" 9; event_at "A" 1];
              first_timestamp := 1; last_timestamp := 9 |});
    try reflexivity.
  simpl. lia.
Qed.

(** C3 (amended).  When the threshold of the node is set, the guard of
    [InternalNode._try_create_new_match] rejects a candidate that passed the
    other checks exactly when the new match [first_partial_match] ends before
    the threshold.  So an accepted candidate has a merged match that ends at
    or after the threshold, and a candidate whose merged match ends before
    the threshold is never accepted. *)
Theorem threshold_guard_tests_first_match
        (nd : Node) (first second : PartialMatch)
        (first_event_defs second_event_defs : list EventDef) (t : datetime) :
  threshold nd = Some t ->
  well_formed_pm first ->
  (Join.InternalNode_decide nd first second first_event_defs second_event_defs
   = Ok Join.RejectedByThreshold
   <-> (Join.outside_window nd first second = false
        /\ (exists evs,
               Join.merge_events_for_new_match nd first_event_defs second_event_defs
                                               (events first) (events second) = Ok evs
               /\ Join.validate_new_match nd evs = Ok true)
        /\ last_timestamp first < t))
  /\ (forall evs id pm,
         Join.InternalNode_decide nd first second first_event_defs second_event_defs
         = Ok (Join.Accepted evs) ->
         PartialMatch_init id evs = Ok pm ->
         t <= last_timestamp first /\ t <= last_timestamp pm)
  /\ (forall evs id pm,
         Join.merge_events_for_new_match nd first_event_defs second_event_defs
                                         (events first) (events second) = Ok evs ->
         PartialMatch_init id evs = Ok pm ->
         last_timestamp pm < t ->
         forall evs',
           Join.InternalNode_decide nd first second first_event_defs second_event_defs
           <> Ok (Join.Accepted evs')).
Proof.
  intros Ht Hwf.
  assert (Hrej : Join.threshold_rejects nd first = (last_timestamp first <? t)).
  { unfold Join.threshold_rejects. rewrite Ht. reflexivity. }
  split; [|split].
  - rewrite decide_rejected_by_threshold_iff, Hrej, Z.ltb_lt. reflexivity.
  - intros evs id pm Hd Hpm.
    destruct (decide_accepted_inv _ _ _ _ _ _ Hd) as (_ & Hm & _ & Hth).
    rewrite Hrej in Hth. apply Z.ltb_ge in Hth.
    pose proof (merged_last_ge_first_last _ _ _ _ _ _ _ _ Hwf Hm Hpm). lia.
  - intros evs id pm Hm Hpm Hlt evs' Hd.
    destruct (decide_accepted_inv _ _ _ _ _ _ Hd) as (_ & Hm' & _ & Hth).
    rewrite Hrej in Hth. apply Z.ltb_ge in Hth.
    pose proof (merged_last_ge_first_last _ _ _ _ _ _ _ _ Hwf Hm Hpm). lia.
Qed.

Lemma threshold_guard_tests_first_match_witness :
  threshold (and_node 10 (Some 5)) = Some 5
  /\ well_formed_pm (pm_at 0 1)
  /\ Join.InternalNode_decide (and_node 10 (Some 5)) (pm_at 0 1) (pm_at 1 9)
       [(1, qitem "B" "b" 1)] [(0, qitem "A" "a" 0)]
     = Ok Join.RejectedByThreshold.
Proof.
  split; [reflexivity|].
  split; [exists (event_at "A" 1), []; repeat split; reflexivity|].
  apply (proj1 (threshold_guard_tests_first_match
                  (and_node 10 (Some 5)) (pm_at 0 1) (pm_at 1 9)
                  [(1, qitem "B" "b" 1)] [(0, qitem "A" "a" 0)] 5
                  eq_refl
                  (ex_intro _ (event_at "A" 1)
                     (ex_intro _ [] (conj eq_refl (conj eq_refl eq_refl)))))).
  split; [reflexivity|].
  split; [|simpl; lia].
  exists [event_at "A" 9; event_at "A" 1]. split; reflexivity.
Defined.

(** C7 (as stated it fails).  In the FIRST_CHANCE tree of SEQ(NOT A a, B b)
    where b.value < 5, window 5, after A@0 and B@3 (value 1), the leaf of B
    handles B@9 with value 7: its condition is false and no error is raised,
    yet the expiration that comes first sends the blocked B@3 up again, by
    [handle_new_partial_match] of the root with the leaf as source, and the
    store of the root gains B@3. *)
Lemma failed_condition_event_reaches_parent : ~ failed_condition_adds_nothing.
Proof.
  intros H.
  assert (exists nd s',
             heap state_with_blocked_small_B !! 0%nat = Some nd
             /\ cls nd = LeafNode
             /\ leaf_event_type nd = event_type (event_with_value "B" 9 7)
             /\ FormulaOps.eval (condition nd)
                  {[ leaf_event_name nd := payload (event_with_value "B" 9 7) ]}
                = Ok false
             /\ Methods.handle_event 30 0 (event_with_value "B" 9 7)
                                     state_with_blocked_small_B = Ok (tt, s')
             /\ stored_spans (Ok state_with_blocked_small_B) 1 = []
             /\ stored_spans (Ok s') 1 = [(3, 3)])
    as (nd & s' & Hn & Hc & Ht & He & Hh & Hbefore & Hafter).
  { eexists. eexists.
    split; [vm_compute; reflexivity|].
    split; [vm_compute; reflexivity|].
    split; [vm_compute; reflexivity|].
    split; [vm_compute; reflexivity|].
    split; [vm_compute; reflexivity|].
    split; vm_compute; reflexivity. }
  unfold stored_spans in Hbefore, Hafter.
  destruct (heap s' !! 1%nat) as [nd'|] eqn:Hn'; [|discriminate].
  destruct (H _ _ _ _ _ _ Hn Hc Ht He Hh _ _ Hn') as (nd0 & Hn0 & Hsub).
  rewrite Hn0 in Hbefore.
  apply sublist_length in Hsub.
  apply (f_equal length) in Hbefore, Hafter.
  rewrite length_map in Hbefore, Hafter. simpl in Hbefore, Hafter. lia.
Qed.

(** The steps of [LeafNode.handle_event] after its expiration. *)
Lemma leaf_handle_event_steps (fuel leaf : nat) (event : Event) (s : State) :
  match Methods.clean_expired_partial_matches fuel leaf (timestamp event) s with
  | Err e => Methods.handle_event fuel leaf event s = Err e
  | Ok (_, s1) =>
      match heap s1 !! leaf with
      | None => Methods.handle_event fuel leaf event s = raise AttributeError
      | Some nd =>
          match FormulaOps.eval (condition nd)
                                {[ leaf_event_name nd := payload event ]} with
          | Err e => Methods.handle_event fuel leaf event s = Err e
          | Ok false => Methods.handle_event fuel leaf event s = Ok (tt, s1)
          | Ok true =>
              exists pm s2,
                new_PartialMatch [event] s1 = Ok (pm, s2)
                /\ events pm = [event]
                /\ first_timestamp pm = timestamp event
                /\ last_timestamp pm = timestamp event
                /\ match Methods.add_partial_match leaf pm s2 with
                   | Err e => Methods.handle_event fuel leaf event s = Err e
                   | Ok (_, s3) =>
                       (exists nd3, heap s3 !! leaf = Some nd3
                                    /\ pm ∈ partial_matches nd3)
                       /\ Methods.handle_event fuel leaf event s
                          = match parent nd with
                            | Some p => Methods.handle_new_partial_match fuel p leaf s3
                            | None => Ok (tt, s3)
                            end
                   end
          end
      end
  end.
Proof.
  unfold Methods.handle_event, Methods.LeafNode_handle_event, bind.
  destruct (Methods.clean_expired_partial_matches fuel leaf (timestamp event) s)
    as [[[] s1]|e]; [|reflexivity].
  unfold read, lookup_node.
  destruct (heap s1 !! leaf) as [nd|] eqn:Hnd; [|reflexivity].
  simpl. unfold lift at 1.
  destruct (FormulaOps.eval (condition nd) _) as [[|]|e]; simpl; try reflexivity.
  exists {| pm_id := next_pm s1; events := [event];
            first_timestamp := timestamp event; last_timestamp := timestamp event |}.
  eexists. split; [reflexivity|]. simpl.
  repeat (split; [reflexivity|]).
  change (min_timestamp event []) with (timestamp event).
  change (max_timestamp event []) with (timestamp event).
  match goal with |- context [Methods.add_partial_match leaf ?pm ?s2] =>
    destruct (Methods.add_partial_match leaf pm s2) as [[[] s3]|e] eqn:Hadd
  end; [|reflexivity].
  destruct (add_partial_match_inv _ _ _ _ Hadd) as (nd2 & pms & Hnd2 & Hst & _ & _ & Hheap).
  simpl in Hnd2. rewrite Hnd in Hnd2. inversion Hnd2; subst nd2; clear Hnd2.
  split.
  - eexists. split; [rewrite Hheap; apply lookup_insert_eq|].
    apply Store_add_partial_match_elem in Hst.
    destruct (parent nd); simpl; assumption.
  - unfold Methods.notify_parent, bind, read, lookup_node.
    rewrite Hheap, lookup_insert_eq.
    destruct (parent nd) eqn:P; simpl; rewrite ?P; reflexivity.
Qed.

(** [LeafNode.handle_event] in a state where expiration un-blocks nothing. *)
Lemma leaf_handle_event_quiet
      (fuel leaf : nat) (event : Event) (s : State) (origin : datetime)
      (nd : Node) (route : list nat) :
  heap s !! leaf = Some nd -> cls nd = LeafNode ->
  stores_sorted s -> nothing_to_unblock s (timestamp event) ->
  cutoffs_representable origin s (timestamp event) ->
  expiry_route (heap s) leaf nd = Ok route ->
  Forall (has_right_subtree s) route ->
  exists s1 nd1,
    Methods.clean_expired_partial_matches (S fuel) leaf (timestamp event) s = Ok (tt, s1)
    /\ trims (timestamp event) s s1
    /\ settled leaf (timestamp event) s1
    /\ heap s1 !! leaf = Some nd1
    /\ nd1 = set_partial_matches
               (live_part (sliding_window nd) (timestamp event) (partial_matches nd)) nd
    /\ match FormulaOps.eval (condition nd)
                             {[ leaf_event_name nd := payload event ]} with
       | Err e => Methods.handle_event (S fuel) leaf event s = Err e
       | Ok false => Methods.handle_event (S fuel) leaf event s = Ok (tt, s1)
       | Ok true =>
           Methods.handle_event (S fuel) leaf event s
           = let s2 := {| heap := <[ leaf := with_match (leaf_match (next_pm s1) event)
                                                        nd1 ]> (heap s1);
                          next_node := next_node s1;
                          next_pm := S (next_pm s1) |} in
             match parent nd with
             | Some p => Methods.handle_new_partial_match (S fuel) p leaf s2
             | None => Ok (tt, s2)
             end
       end.
Proof.
  intros Hn Hcls Hs Hq _ Hroute Hall.
  destruct (clean_expired_body_runs (Methods.handle_new_partial_match fuel) leaf
              (timestamp event) s nd route Hn) as (s1 & E & T); try assumption.
  { rewrite Hcls. reflexivity. }
  destruct (clean_expired_body_quiet_settled _ _ _ _ _ Hs Hq E)
    as (Hset & nd0 & nd1 & Hn0 & Hn1 & Hp).
  rewrite Hn in Hn0. inversion Hn0; subst nd0; clear Hn0.
  destruct (trims_lookup _ _ _ _ _ T Hn) as (nd1' & Hn1' & (k & Hk & _)).
  rewrite Hn1 in Hn1'. injection Hn1' as Heq. rewrite <- Heq in Hk. clear Heq.
  assert (Hnd1 : nd1 = set_partial_matches
                         (live_part (sliding_window nd) (timestamp event)
                                    (partial_matches nd)) nd).
  { rewrite <- Hp. rewrite Hk. reflexivity. }
  assert (Hs1 : sorted_by first_timestamp (partial_matches nd1)).
  { apply (evolves_stores_sorted _ _ _ (trims_evolves _ _ _ T) Hs leaf nd1 Hn1). }
  exists s1, nd1. split; [exact E|]. split; [exact T|]. split; [exact Hset|].
  split; [exact Hn1|].
  split; [exact Hnd1|].
  unfold Methods.handle_event, Methods.LeafNode_handle_event, bind.
  change (Methods.clean_expired_partial_matches (S fuel) leaf (timestamp event) s)
    with (Methods.clean_expired_partial_matches_body
            (Methods.handle_new_partial_match fuel) leaf (timestamp event) s).
  rewrite E. rewrite (read_Some _ _ _ Hn1).
  replace (condition nd1) with (condition nd) by (rewrite Hnd1; reflexivity).
  replace (leaf_event_name nd1) with (leaf_event_name nd) by (rewrite Hnd1; reflexivity).
  unfold lift at 1.
  destruct (FormulaOps.eval (condition nd) _) as [[|]|e]; simpl; try reflexivity.
  change (min_timestamp event []) with (timestamp event).
  change (max_timestamp event []) with (timestamp event).
  fold (leaf_match (next_pm s1) event).
  erewrite node_add_partial_match_sorted by (simpl; eassumption).
  unfold Methods.notify_parent, bind.
  erewrite read_Some by (simpl; apply lookup_insert_eq).
  rewrite parent_with_match.
  replace (parent nd1) with (parent nd) by (rewrite Hnd1; reflexivity).
  destruct (parent nd); reflexivity.
Qed.

(** C7 (amended).  [LeafNode.handle_event] first expires with the timestamp
    of the event, and this expiration may itself send a match that a
    FirstChance node had blocked up the tree.  In every state: if the
    expiration raises, so does [handle_event]; if the condition of the leaf
    is false on the binding [{name: payload}], [handle_event] returns,
    without an error, in the state the expiration left; otherwise it adds
    [PartialMatch([event])] to the leaf and, when the leaf has a parent,
    calls the parent's [handle_new_partial_match] with the leaf.  In a state
    where every store is sorted, no entry of a [check_expired_timestamp]
    list is due at the timestamp of the event, the cutoffs
    [timestamp - sliding_window] are instants a [datetime] can hold, and
    the FirstChance nodes that the expiration visits have their negative
    leaf, the expiration returns and only removes expired prefixes of
    stores: the store of the leaf keeps the matches with
    [first_timestamp >= timestamp - sliding_window], and no expired match
    is left in it or in the negative leaves visited; with a false condition
    that is all [handle_event] does, and otherwise the new match is inserted
    in the store of the leaf at its place in the order of first timestamps,
    put on its queue of unhandled matches when a parent exists, and the
    parent is called. *)
Theorem leaf_handle_event_expires_then_adds
        (fuel leaf : nat) (event : Event) (s : State) :
  match Methods.clean_expired_partial_matches fuel leaf (timestamp event) s with
  | Err e => Methods.handle_event fuel leaf event s = Err e
  | Ok (_, s1) =>
      match heap s1 !! leaf with
      | None => Methods.handle_event fuel leaf event s = raise AttributeError
      | Some nd =>
          match FormulaOps.eval (condition nd)
                                {[ leaf_event_name nd := payload event ]} with
          | Err e => Methods.handle_event fuel leaf event s = Err e
          | Ok false => Methods.handle_event fuel leaf event s = Ok (tt, s1)
          | Ok true =>
              exists pm s2,
                new_PartialMatch [event] s1 = Ok (pm, s2)
                /\ events pm = [event]
                /\ first_timestamp pm = timestamp event
                /\ last_timestamp pm = timestamp event
                /\ match Methods.add_partial_match leaf pm s2 with
                   | Err e => Methods.handle_event fuel leaf event s = Err e
                   | Ok (_, s3) =>
                       (exists nd3, heap s3 !! leaf = Some nd3
                                    /\ pm ∈ partial_matches nd3)
                       /\ Methods.handle_event fuel leaf event s
                          = match parent nd with
                            | Some p => Methods.handle_new_partial_match fuel p leaf s3
                            | None => Ok (tt, s3)
                            end
                   end
          end
      end
  end
  /\ forall (origin : datetime) (nd : Node) (route : list nat),
       heap s !! leaf = Some nd -> cls nd = LeafNode ->
       stores_sorted s -> nothing_to_unblock s (timestamp event) ->
       cutoffs_representable origin s (timestamp event) ->
       expiry_route (heap s) leaf nd = Ok route ->
       Forall (has_right_subtree s) route ->
       exists s1 nd1,
         Methods.clean_expired_partial_matches (S fuel) leaf (timestamp event) s
         = Ok (tt, s1)
         /\ trims (timestamp event) s s1
         /\ settled leaf (timestamp event) s1
         /\ heap s1 !! leaf = Some nd1
         /\ nd1 = set_partial_matches
                    (live_part (sliding_window nd) (timestamp event)
                               (partial_matches nd)) nd
         /\ match FormulaOps.eval (condition nd)
                                  {[ leaf_event_name nd := payload event ]} with
            | Err e => Methods.handle_event (S fuel) leaf event s = Err e
            | Ok false => Methods.handle_event (S fuel) leaf event s = Ok (tt, s1)
            | Ok true =>
                Methods.handle_event (S fuel) leaf event s
                = let s2 := {| heap := <[ leaf := with_match
                                                    (leaf_match (next_pm s1) event)
                                                    nd1 ]> (heap s1);
                               next_node := next_node s1;
                               next_pm := S (next_pm s1) |} in
                  match parent nd with
                  | Some p => Methods.handle_new_partial_match (S fuel) p leaf s2
                  | None => Ok (tt, s2)
                  end
            end.
Proof.
  split.
  - apply leaf_handle_event_steps.
  - intros origin nd route. apply leaf_handle_event_quiet.
Qed.

Lemma leaf_handle_event_expires_then_adds_witness :
  (exists s1,
      Methods.handle_event 30 0 (event_with_value "B" 9 9) state_after_small_B
      = Ok (tt, s1)
      /\ trims 9 state_after_small_B s1
      /\ stored_spans (Ok state_after_small_B) 0 = [(3, 3)]
      /\ stored_spans (Ok s1) 0 = [])
  /\ (exists s1 nd1,
        heap s1 !! 0%nat = Some nd1
        /\ trims 9 state_after_small_B s1
        /\ partial_matches nd1 = []
        /\ Methods.handle_event 30 0 (event_with_value "B" 9 2) state_after_small_B
           = Methods.handle_new_partial_match 30 1 0
               {| heap := <[ 0%nat := with_match
                                        (leaf_match (next_pm s1)
                                                    (event_with_value "B" 9 2))
                                        nd1 ]> (heap s1);
                  next_node := next_node s1;
                  next_pm := S (next_pm s1) |}).
Proof.
  assert (Hs : stores_sorted state_after_small_B)
    by (apply stores_sorted_by_computation; compute_done).
  assert (Hq : nothing_to_unblock state_after_small_B 9)
    by (apply nothing_to_unblock_by_computation; compute_done).
  assert (Hr : cutoffs_representable 0 state_after_small_B 9)
    by (apply cutoffs_representable_by_computation; compute_done).
  assert (Hall : Forall (has_right_subtree state_after_small_B) [1%nat]).
  { constructor; [|constructor]. eexists. eexists. eexists.
    split; [vm_compute; reflexivity|]. split; vm_compute; reflexivity. }
  split.
  - destruct (leaf_handle_event_expires_then_adds
                29 0 (event_with_value "B" 9 9) state_after_small_B) as [_ H].
    edestruct H as (s1 & nd1 & _ & T & _ & Hn1 & Hnd1 & Hcase);
      [vm_compute; reflexivity | vm_compute; reflexivity | exact Hs | exact Hq
       | exact Hr | vm_compute; reflexivity | exact Hall |].
    match type of Hcase with
    | match ?e with _ => _ end =>
        assert (Hev : e = Ok false) by (vm_compute; reflexivity);
        rewrite Hev in Hcase
    end.
    exists s1. split; [exact Hcase|]. split; [exact T|].
    split; [vm_compute; reflexivity|].
    unfold stored_spans. rewrite Hn1, Hnd1. vm_compute. reflexivity.
  - destruct (leaf_handle_event_expires_then_adds
                29 0 (event_with_value "B" 9 2) state_after_small_B) as [_ H].
    edestruct H as (s1 & nd1 & _ & T & _ & Hn1 & Hnd1 & Hcase);
      [vm_compute; reflexivity | vm_compute; reflexivity | exact Hs | exact Hq
       | exact Hr | vm_compute; reflexivity | exact Hall |].
    match type of Hcase with
    | match ?e with _ => _ end =>
        assert (Hev : e = Ok true) by (vm_compute; reflexivity);
        rewrite Hev in Hcase
    end.
    match type of Hcase with
    | context [parent ?x] =>
        assert (Hp : parent x = Some 1%nat) by (vm_compute; reflexivity);
        rewrite Hp in Hcase
    end.
    cbv beta iota zeta in Hcase.
    exists s1, nd1. split; [exact Hn1|]. split; [exact T|].
    split; [rewrite Hnd1; vm_compute; reflexivity|].
    exact Hcase.
Defined.

Section Output.

Lemma closes_app out1 out2 : closes (out1 ++ out2) = (closes out1 + closes out2)%nat.
Proof. unfold closes. rewrite List.filter_app, length_app. reflexivity. Qed.

Lemma closes_emit (ms : list (list Event)) : closes (map Tree.emit ms) = 0%nat.
Proof. induction ms; [reflexivity | assumption]. Qed.

Lemma closes_emit_events (pms : list PartialMatch) :
  closes (map (fun m => Tree.emit (events m)) pms) = 0%nat.
Proof. induction pms; [reflexivity | assumption]. Qed.

Lemma send_to_leaves_closes fuel root event leaves : forall out s,
  closes (fst (Mechanism.send_to_leaves fuel root event leaves out s)) = closes out.
Proof.
  induction leaves as [|leaf rest IH]; intros out s; simpl; [reflexivity|].
  destruct ((_ ;; _)%M s) as [[ms s']|e]; [|reflexivity].
  rewrite IH, closes_app, closes_emit. lia.
Qed.

Lemma send_events_closes fuel root listeners events : forall out s,
  closes (fst (Mechanism.send_events fuel root listeners events out s)) = closes out.
Proof.
  induction events as [|event rest IH]; intros out s; simpl; [reflexivity|].
  destruct (listeners !! event_type event) as [leaves|]; [|apply IH].
  pose proof (send_to_leaves_closes fuel root event leaves out s) as H.
  destruct (Mechanism.send_to_leaves fuel root event leaves out s) as [out' [s'|e]];
    simpl in H.
  - rewrite IH. assumption.
  - assumption.
Qed.

Lemma handle_EOF_output h root :
  match Tree.handle_EOF h root with
  | (eof, Ok _) =>
      exists rnd node nnd,
        h !! root = Some rnd
        /\ Node.get_first_last_negative_node h root = Ok node
        /\ h !! node = Some nnd
        /\ eof = map (fun m => Tree.emit (events m))
                     (matches_to_handle_at_EOF rnd ++ waiting_for_time_out nnd)
  | (eof, Err _) => closes eof = 0%nat
  end.
Proof.
  unfold Tree.handle_EOF, lookup_node.
  destruct (h !! root) as [rnd|] eqn:Hr; simpl; [|reflexivity].
  destruct (Node.get_first_last_negative_node h root) as [node|] eqn:Hn; simpl;
    [|apply closes_emit_events].
  destruct (h !! node) as [nnd|] eqn:Hnn; simpl; [|apply closes_emit_events].
  exists rnd, node, nnd. rewrite map_app. auto.
Qed.

End Output.

(** C6 (as stated it fails).  A run that raises does not close the output
    stream: on AND(A a, NOT B b) the join of the negation node raises
    NotImplementedError when the event B arrives, and [eval] ends there. *)
Lemma output_not_closed_when_eval_raises : ~ closed_once_in_every_run.
Proof.
  intros H.
  specialize (H 30%nat (Index 0) pattern_A_and_not_B POST_PROCESSING
                [event_at "A" 0; event_at "B" 1]).
  vm_compute in H. discriminate.
Qed.

(** C6 (amended).  When [eval] returns, the calls it made on the output
    stream are: the matches found while the events were sent; then, when the
    root is a negation node with [is_last], one [PatternMatch(events)] for
    each entry of [root.matches_to_handle_at_EOF] and one for each entry of
    [root.get_first_last_negative_node().waiting_for_time_out]; then
    [close], once and last.  When [eval] raises, the stream is not closed. *)
Theorem eval_closes_output_when_it_returns
        (fuel root : nat) (events_ : list Event) (s : State) :
  match Mechanism.eval fuel root events_ s with
  | (out, Ok s') =>
      exists emitted flushed,
        out = emitted ++ map (fun m => Tree.emit (events m)) flushed ++ [close]
        /\ closes emitted = 0%nat
        /\ EOF_matches (heap s') root = Some flushed
        /\ closes out = 1%nat
  | (out, Err _) => closes out = 0%nat
  end.
Proof.
  unfold Mechanism.eval.
  destruct (_ <~ Node.get_leaves (heap s) root ; _)%res as [listeners|e];
    [|reflexivity].
  pose proof (send_events_closes fuel root listeners events_ [] s) as Hc.
  destruct (Mechanism.send_events fuel root listeners events_ [] s) as [out [s'|e]];
    simpl in Hc; [|assumption].
  unfold Mechanism.root_is_last_negation, lookup_node.
  destruct (heap s' !! root) as [rnd|] eqn:Hr; simpl; [|assumption].
  destruct (is_negation_class (cls rnd) && is_last rnd) eqn:Hneg.
  - pose proof (handle_EOF_output (heap s') root) as He.
    destruct (Tree.handle_EOF (heap s') root) as [eof [[]|e]].
    + destruct He as (rnd' & node & nnd & Hr' & Hn & Hnn & ->).
      rewrite Hr in Hr'. inversion Hr'; subst rnd'; clear Hr'.
      eexists out, _. split; [reflexivity|]. split; [assumption|].
      split; [unfold EOF_matches; rewrite Hr, Hneg, Hn, Hnn; reflexivity|].
      rewrite !closes_app, closes_emit_events, Hc. reflexivity.
    + rewrite closes_app, He, Hc. reflexivity.
  - exists out, []. split; [reflexivity|]. split; [assumption|].
    split; [unfold EOF_matches; rewrite Hr, Hneg; reflexivity|].
    rewrite closes_app, Hc. reflexivity.
Qed.

(** C8 (as stated it fails).  In the FIRST_CHANCE tree of SEQ(NOT A a, B b),
    window 5, after A@0 and B@3, expiring the root with cutoff 9 sends the
    blocked B@3 up again and stores it at the root after the root's store was
    trimmed; a second call with the same cutoff removes it (3 < 9 - 5). *)
Lemma expiration_not_idempotent : ~ expiration_idempotent.
Proof.
  intros H.
  assert (exists s1 s2,
             Methods.clean_expired_partial_matches 30 1 9 state_with_blocked_match
             = Ok (tt, s1)
             /\ Methods.clean_expired_partial_matches 30 1 9 s1 = Ok (tt, s2)
             /\ stored_spans (Ok s1) 1 <> stored_spans (Ok s2) 1)
    as (s1 & s2 & E1 & E2 & Hne).
  { eexists. eexists.
    split; [vm_compute; reflexivity|].
    split; [vm_compute; reflexivity|].
    vm_compute. discriminate. }
  apply Hne. rewrite (H _ _ _ _ _ _ E1 E2). reflexivity.
Qed.

(** C8 (amended).  Inside the range of [datetime], when
    [clean_expired_partial_matches] has returned, a second call with the
    same cutoff leaves the whole state as the first call left it whenever
    that state is settled: the store of the node is sorted and holds no
    match that started before [cutoff - sliding_window], the matches that
    wait at it are released, and at the FirstChance nodes the call visits no
    entry of [check_expired_timestamp] is due and the store of the negative
    leaf holds no expired match.  The state is settled in particular when,
    before the first call, every store was sorted and no entry of a
    [check_expired_timestamp] list had an expiry instant before the cutoff,
    so that the call sent no blocked match up the tree again; the first
    call then removes from the node's [partial_matches] exactly the prefix
    of matches with [first_timestamp < cutoff - sliding_window] (nothing
    when the window is [timedelta.max]). *)
Theorem clean_expired_idempotent_when_settled
        (fuel self : nat) (cutoff origin : datetime) (s s1 : State) :
  cutoffs_representable origin s cutoff ->
  Methods.clean_expired_partial_matches fuel self cutoff s = Ok (tt, s1) ->
  (settled self cutoff s1 ->
   Methods.clean_expired_partial_matches fuel self cutoff s1 = Ok (tt, s1))
  /\ (stores_sorted s -> nothing_to_unblock s cutoff ->
      settled self cutoff s1
      /\ exists nd nd1 expired,
           heap s !! self = Some nd
           /\ heap s1 !! self = Some nd1
           /\ partial_matches nd = expired ++ partial_matches nd1
           /\ if sliding_window nd =? timedelta_max then expired = []
              else Forall (fun pm => first_timestamp pm < cutoff - sliding_window nd)
                          expired
                   /\ Forall (fun pm => cutoff - sliding_window nd <= first_timestamp pm)
                             (partial_matches nd1)).
Proof.
  intros _ H. destruct fuel as [|fuel]; [discriminate|]. simpl in H |- *. split.
  - apply clean_expired_body_settled.
  - intros Hs Hq.
    destruct (clean_expired_body_quiet_settled _ _ _ _ _ Hs Hq H)
      as (Hset & nd & nd1 & Hn & Hn1 & Hp).
    split; [exact Hset|]. unfold live_part in Hp.
    destruct (sliding_window nd =? timedelta_max) eqn:Hw.
    + exists nd, nd1, []. rewrite Hw, Hp. auto.
    + exists nd, nd1,
        (take (count_before first_timestamp (cutoff - sliding_window nd)
                            (partial_matches nd)) (partial_matches nd)).
      rewrite Hw, Hp. split; [assumption|]. split; [assumption|].
      split; [symmetry; apply take_drop|].
      split; [apply take_count_before | apply drop_count_before]; apply (Hs self nd Hn).
Qed.

Lemma clean_expired_idempotent_when_settled_witness :
  (exists s1,
      Methods.clean_expired_partial_matches 30 1 8 state_with_blocked_match = Ok (tt, s1)
      /\ stored_spans (Ok state_with_blocked_match) 1 = []
      /\ stored_spans (Ok s1) 1 = [(3, 3)]
      /\ settled 1 8 s1
      /\ Methods.clean_expired_partial_matches 30 1 8 s1 = Ok (tt, s1))
  /\ (stores_sorted state_with_negative_event
      /\ nothing_to_unblock state_with_negative_event 9
      /\ exists s1,
           Methods.clean_expired_partial_matches 30 2 9 state_with_negative_event
           = Ok (tt, s1)
           /\ stored_spans (Ok state_with_negative_event) 2 = [(0, 0)]
           /\ stored_spans (Ok s1) 2 = []
           /\ Methods.clean_expired_partial_matches 30 2 9 s1 = Ok (tt, s1)).
Proof.
  split.
  - eexists. split; [vm_compute; reflexivity|].
    split; [vm_compute; reflexivity|]. split; [vm_compute; reflexivity|].
    match goal with
    | |- settled ?n ?t ?y /\ _ => assert (Hset : settled n t y)
    end.
    { eexists. split; [vm_compute; reflexivity|]. right.
      split; [unfold sorted_by; compute_done|].
      split; [unfold all_live; compute_done|].
      split.
      { eexists. split; [vm_compute; reflexivity|]. left. reflexivity. }
      eexists. split; [vm_compute; reflexivity|].
      split; [|right; exact I].
      eexists. split; [vm_compute; reflexivity|]. right.
      split; [compute_done|].
      eexists. eexists. split; [reflexivity|]. split; [vm_compute; reflexivity|].
      split; [unfold sorted_by; compute_done | unfold all_live; compute_done]. }
    split; [exact Hset|].
    refine (proj1 (clean_expired_idempotent_when_settled
                     30 1 8 0 state_with_blocked_match _ _ _) Hset).
    + apply cutoffs_representable_by_computation. compute_done.
    + vm_compute. reflexivity.
  - assert (Hs : stores_sorted state_with_negative_event)
      by (apply stores_sorted_by_computation; compute_done).
    assert (Hq : nothing_to_unblock state_with_negative_event 9)
      by (apply nothing_to_unblock_by_computation; compute_done).
    assert (Hr : cutoffs_representable 0 state_with_negative_event 9)
      by (apply cutoffs_representable_by_computation; compute_done).
    split; [exact Hs|]. split; [exact Hq|].
    eexists. split; [vm_compute; reflexivity|].
    split; [vm_compute; reflexivity|]. split; [vm_compute; reflexivity|].
    match goal with
    | |- Methods.clean_expired_partial_matches ?f ?n ?t ?y = _ =>
        assert (Hfirst : Methods.clean_expired_partial_matches
                           f n t state_with_negative_event = Ok (tt, y))
          by (vm_compute; reflexivity);
        destruct (clean_expired_idempotent_when_settled _ _ _ 0 _ _ Hr Hfirst)
          as [Hidem Hquiet]
    end.
    apply Hidem. apply (Hquiet Hs Hq).
Defined.

(** C1 (the code breaks it).  On SEQ(NOT A a, B b) with window 5 and the
    stream A@0, B@3, B@7, POST_PROCESSING emits the match [B@7] only, and
    FIRST_CHANCE emits [B@3] as well: when A@0 expires, the blocked B@3 is
    sent up again and the root, a FirstChanceNode, accepts it without
    looking at the threshold. *)
Lemma negation_modes_disagree :
  let stream := [event_at "A" 0; event_at "B" 3; event_at "B" 7] in
  let post := Mechanism.run 30 (Index 0) pattern_not_A_then_B POST_PROCESSING stream in
  let first_chance := Mechanism.run 30 (Index 0) pattern_not_A_then_B FIRST_CHANCE stream in
  returns (snd post) = true
  /\ emitted_matches (fst post) = [[("B", 7)]]
  /\ returns (snd first_chance) = true
  /\ emitted_matches (fst first_chance) = [[("B", 3)]; [("B", 7)]].
Proof. vm_compute. repeat split; reflexivity. Qed.

(** C2 (the code breaks it).  On SEQ(NOT A a, B b, NOT C c, D d, E e, F f)
    with window 5, in FIRST_CHANCE mode, after the events A@0, B@1, D@6,
    E@11, A@12, delivered in timestamp order, the SeqNode over B, D and E
    stores the partial match [B@1, D@6, E@11], whose timestamps span 10. *)
Lemma stored_match_wider_than_window :
  let stream := [event_at "A" 0; event_at "B" 1; event_at "D" 6; event_at "E" 11;
                 event_at "A" 12] in
  let run := Mechanism.run 30 left_deep_4 pattern_not_A_B_not_C_D_E_F FIRST_CHANCE stream in
  returns (snd run) = true
  /\ node_window (snd run) 1 = Some 5
  /\ stored_spans (snd run) 1 = [(1, 11)].
Proof. vm_compute. repeat split; reflexivity. Qed.

(** * Further properties *)

(** ** misc/Utils.py *)

Section IsSorted.
Context {A : Type} (key : A -> Z).

Lemma is_sorted_cons x y l :
  Utils.is_sorted key (x :: y :: l)
  = (key x <=? key y) && Utils.is_sorted key (y :: l).
Proof.
  change (Utils.is_sorted key (x :: y :: l))
    with (if key x >? key y then false else Utils.is_sorted key (y :: l)).
  rewrite Z.gtb_ltb.
  destruct (Z.ltb_spec (key y) (key x)), (Z.leb_spec (key x) (key y));
    try lia; reflexivity.
Qed.

Lemma is_sorted_spec (arr : list A) :
  Utils.is_sorted key arr = true <-> sorted_by key arr.
Proof.
  induction arr as [|x l IH].
  - split; [constructor | reflexivity].
  - destruct l as [|y l].
    + split; [repeat constructor | reflexivity].
    + rewrite is_sorted_cons, andb_true_iff, IH, Z.leb_le. split.
      * intros [Hxy Hs]. apply sorted_by_cons; [assumption|].
        destruct (sorted_by_cons_inv key _ _ Hs) as [_ Hall].
        constructor; [assumption|].
        eapply Forall_impl; [exact Hall|]. simpl. intros. lia.
      * intros H. destruct (sorted_by_cons_inv key _ _ H) as [Hs Hall].
        split; [|assumption]. inversion Hall; assumption.
Qed.

Lemma is_sorted_false_adjacent (arr : list A) :
  Utils.is_sorted key arr = false
  <-> exists (i : nat) (x y : A),
        arr !! i = Some x /\ arr !! S i = Some y /\ key y < key x.
Proof.
  induction arr as [|x l IH].
  - split; [discriminate|]. intros (i & a & b & H & _). discriminate.
  - destruct l as [|y l].
    + split; [discriminate|]. intros (i & a & b & _ & H & _).
      destruct i; discriminate.
    + rewrite is_sorted_cons, andb_false_iff, IH, Z.leb_gt. split.
      * intros [Hxy|(i & a & b & Ha & Hb & Hab)].
        -- exists 0%nat, x, y. auto.
        -- exists (S i), a, b. auto.
      * intros (i & a & b & Ha & Hb & Hab). destruct i as [|i].
        -- left. simpl in Ha, Hb. inversion Ha; inversion Hb; subst. assumption.
        -- right. exists i, a, b. auto.
Qed.

(** X1.  [is_sorted] returns True exactly on the lists that are in ascending
    order of [key] (ties allowed), and False exactly when some element is
    followed directly by one with a smaller key. *)
Theorem is_sorted_true_iff_ascending (arr : list A) :
  (Utils.is_sorted key arr = true <-> sorted_by key arr)
  /\ (Utils.is_sorted key arr = false
      <-> exists (i : nat) (x y : A),
            arr !! i = Some x /\ arr !! S i = Some y /\ key y < key x).
Proof. split; [apply is_sorted_spec | apply is_sorted_false_adjacent]. Qed.
End IsSorted.

Section FindAnyList.
Context {A : Type} (key : A -> Z).

Lemma getitem_prev (l : list A) (mid : Z) :
  0 <= mid < Z.of_nat (length l) ->
  exists prev,
    PyList.getitem l (mid - 1) = Ok prev
    /\ (1 <= mid -> l !! Z.to_nat (mid - 1) = Some prev).
Proof.
  intros Hmid. destruct (Z.eq_dec mid 0) as [->|Hnz].
  - destruct (lookup_lt_is_Some_2 l (length l - 1)) as [x Hx]; [lia|].
    exists x. split; [|lia]. apply getitem_last. assumption.
  - destruct (lookup_lt_is_Some_2 l (Z.to_nat (mid - 1))) as [x Hx]; [lia|].
    exists x. split; [|auto]. apply getitem_Z; [lia | assumption].
Qed.

(** The binary search on any list: what is below [start] is below the
    timestamp, what is at [end_] and just above is not, so the loop cannot
    run out of candidates. *)
Lemma find_loop_crossing (l : list A) (t : Z) :
  (forall x, l !! 0%nat = Some x -> key x < t) ->
  forall (fuel : nat) (start end_ : Z),
    0 <= start -> 0 <= end_ <= Z.of_nat (length l) - 1 -> start <= end_ + 1 ->
    end_ - start + 1 <= Z.of_nat fuel ->
    (forall x, l !! Z.to_nat (Z.max 0 (start - 1)) = Some x -> key x < t) ->
    (forall x, l !! Z.to_nat end_ = Some x -> t <= key x) ->
    (forall x, l !! Z.to_nat (end_ + 1) = Some x -> t <= key x) ->
    exists k,
      Utils.find_loop key fuel l t start end_ = Ok k
      /\ 1 <= k <= Z.of_nat (length l) - 1
      /\ (forall x, l !! Z.to_nat (k - 1) = Some x -> key x < t)
      /\ (forall x, l !! Z.to_nat k = Some x -> t <= key x).
Proof.
  intros H0 fuel.
  induction fuel as [|fuel IH]; intros start end_ Hs He Hse Hfuel Hlo Hhi Hhi'.
  - exfalso.
    destruct (lookup_lt_is_Some_2 l (Z.to_nat end_)) as [x Hx]; [lia|].
    specialize (Hhi x Hx).
    replace (Z.max 0 (start - 1)) with end_ in Hlo by lia.
    specialize (Hlo x Hx). lia.
  - destruct (Z.leb_spec start end_) as [Hle|Hgt].
    2:{ exfalso.
        destruct (lookup_lt_is_Some_2 l (Z.to_nat end_)) as [x Hx]; [lia|].
        specialize (Hhi x Hx).
        replace (Z.max 0 (start - 1)) with end_ in Hlo by lia.
        specialize (Hlo x Hx). lia. }
    simpl. replace (start <=? end_) with true by (symmetry; apply Z.leb_le; lia).
    set (mid := (start + end_) / 2).
    assert (Hmid : start <= mid <= end_).
    { unfold mid. split.
      - apply Z.div_le_lower_bound; lia.
      - apply Z.div_le_upper_bound; lia. }
    destruct (lookup_lt_is_Some_2 l (Z.to_nat mid)) as [pm_mid Hpm]; [lia|].
    rewrite (getitem_Z l mid pm_mid) by (lia || assumption). simpl.
    destruct (getitem_prev l mid) as (prev & -> & Hprev); [lia|]. simpl.
    assert (Hmid0 : t <= key pm_mid -> 1 <= mid).
    { intros Hge. destruct (Z.eq_dec mid 0) as [Hz|]; [|lia].
      rewrite Hz in Hpm. specialize (H0 _ Hpm). lia. }
    destruct (Z.ltb_spec (key prev) t) as [Hp|Hp],
             (Z.leb_spec t (key pm_mid)) as [Hm|Hm]; simpl.
    + exists mid. split; [reflexivity|]. split; [lia|]. split.
      * intros x Hx. rewrite (Hprev (Hmid0 Hm)) in Hx. inversion Hx; subst. assumption.
      * intros x Hx. rewrite Hpm in Hx. inversion Hx; subst. assumption.
    + replace (t >? key pm_mid) with true by (symmetry; apply Z.gtb_lt; lia).
      apply IH; try lia; try assumption.
      intros x Hx. replace (Z.max 0 (mid + 1 - 1)) with mid in Hx by lia.
      rewrite Hpm in Hx. inversion Hx; subst. assumption.
    + replace (t >? key pm_mid) with false
        by (symmetry; rewrite Z.gtb_ltb; apply Z.ltb_ge; lia).
      pose proof (Hmid0 Hm) as H1.
      apply IH; try lia; try assumption.
      * intros x Hx. rewrite (Hprev H1) in Hx. inversion Hx; subst. assumption.
      * intros x Hx. replace (mid - 1 + 1) with mid in Hx by lia.
        rewrite Hpm in Hx. inversion Hx; subst. assumption.
    + replace (t >? key pm_mid) with true by (symmetry; apply Z.gtb_lt; lia).
      apply IH; try lia; try assumption.
      intros x Hx. replace (Z.max 0 (mid + 1 - 1)) with mid in Hx by lia.
      rewrite Hpm in Hx. inversion Hx; subst. assumption.
Qed.

Lemma find_any_list (l : list A) (t : Z) :
  exists k,
    Utils.find_partial_match_by_timestamp key l t = Ok k
    /\ 0 <= k <= Z.of_nat (length l)
    /\ (forall x, 0 < k -> l !! Z.to_nat (k - 1) = Some x -> key x < t)
    /\ (forall x, l !! Z.to_nat k = Some x -> t <= key x).
Proof.
  unfold Utils.find_partial_match_by_timestamp.
  destruct l as [|pm0 rest].
  - exists 0. split; [reflexivity|]. split; [simpl; lia|].
    split; [intros; lia | intros x Hx; discriminate].
  - rewrite Z.geb_leb.
    destruct (Z.leb_spec t (key pm0)) as [H0|H0].
    { exists 0. split; [reflexivity|]. split; [simpl length; lia|].
      split; [intros; lia|]. intros x Hx. simpl in Hx. inversion Hx; subst. assumption. }
    destruct (Z.eqb_spec (Z.of_nat (length (pm0 :: rest))) 1) as [H1|H1].
    { exists 1. split; [reflexivity|]. split; [lia|]. split.
      - intros x _ Hx. simpl in Hx. inversion Hx; subst. assumption.
      - intros x Hx. apply lookup_lt_Some in Hx. lia. }
    set (l := pm0 :: rest) in *.
    assert (Hlen : (2 <= length l)%nat) by (simpl in *; lia).
    destruct (lookup_lt_is_Some_2 l (length l - 1)) as [last Hlast]; [lia|].
    rewrite (getitem_last l last Hlast). cbn [res_bind].
    destruct (Z.ltb_spec (key last) t) as [Hl|Hl].
    { exists (Z.of_nat (length l)). split; [reflexivity|]. split; [lia|]. split.
      - intros x _ Hx.
        replace (Z.to_nat (Z.of_nat (length l) - 1)) with (length l - 1)%nat in Hx by lia.
        rewrite Hlast in Hx. inversion Hx; subst. assumption.
      - intros x Hx. apply lookup_lt_Some in Hx. lia. }
    destruct (find_loop_crossing l t) with (fuel := length l) (start := 0)
                                           (end_ := Z.of_nat (length l) - 1)
      as (k & Hk & Hr & Hb & Ha); try lia.
    + intros x Hx. simpl in Hx. inversion Hx; subst. assumption.
    + intros x Hx. simpl in Hx. inversion Hx; subst. assumption.
    + intros x Hx.
      replace (Z.to_nat (Z.of_nat (length l) - 1)) with (length l - 1)%nat in Hx by lia.
      rewrite Hlast in Hx. inversion Hx; subst. assumption.
    + intros x Hx. apply lookup_lt_Some in Hx. lia.
    + exists k. split; [exact Hk|]. split; [lia|]. split; [|exact Ha].
      intros x _. apply Hb.
Qed.

(** X2.  On every list, sorted or not, [find_partial_match_by_timestamp]
    returns: the [raise Exception()] after its loop is never reached and no
    index is out of range.  The index [k] it returns is within [0..len]
    and is a crossing point: the element before it is below the timestamp
    and the element at it is not. *)
Theorem find_partial_match_by_timestamp_never_raises (l : list A) (t : Z) :
  exists k,
    Utils.find_partial_match_by_timestamp key l t = Ok k
    /\ 0 <= k <= Z.of_nat (length l)
    /\ (forall x, 0 < k -> l !! Z.to_nat (k - 1) = Some x -> key x < t)
    /\ (forall x, l !! Z.to_nat k = Some x -> t <= key x).
Proof. apply find_any_list. Qed.
End FindAnyList.

Section MergeOrder.
Context {A : Type} (key : A -> Z).

Lemma merge_spec_sublist_l (l1 l2 : list A) : sublist l1 (merge_spec key l1 l2).
Proof.
  revert l2. induction l1 as [|a l1 IH1]; intros l2.
  - apply sublist_nil_l.
  - induction l2 as [|b l2 IH2].
    + rewrite merge_spec_nil_r. reflexivity.
    + rewrite merge_spec_cons. destruct (key a <? key b).
      * apply sublist_skip, IH1.
      * apply sublist_cons, IH2.
Qed.

Lemma merge_spec_sublist_r (l1 l2 : list A) : sublist l2 (merge_spec key l1 l2).
Proof.
  revert l2. induction l1 as [|a l1 IH1]; intros l2.
  - rewrite merge_spec_nil_l. reflexivity.
  - induction l2 as [|b l2 IH2].
    + apply sublist_nil_l.
    + rewrite merge_spec_cons. destruct (key a <? key b).
      * apply sublist_cons, IH1.
      * apply sublist_skip, IH2.
Qed.

(** X3.  [merge] returns on any two lists, sorted or not, and interleaves
    them: the result holds the elements of both and keeps the elements of
    each list in the order they had. *)
Theorem merge_interleaves (arr1 arr2 : list A) :
  exists ret,
    Utils.merge key arr1 arr2 = Ok ret
    /\ sublist arr1 ret
    /\ sublist arr2 ret
    /\ Permutation ret (arr1 ++ arr2).
Proof.
  exists (merge_spec key arr1 arr2).
  split; [apply merge_is_merge_spec|].
  split; [apply merge_spec_sublist_l|].
  split; [apply merge_spec_sublist_r | apply merge_spec_perm].
Qed.
End MergeOrder.

Section MergeAccordingToOrder.
Context {A B : Type} (key : A -> Z).

Lemma sublist_map {C D} (f : C -> D) (l1 l2 : list C) :
  sublist l1 l2 -> sublist (map f l1) (map f l2).
Proof.
  induction 1; simpl; [constructor | apply sublist_skip | apply sublist_cons];
    assumption.
Qed.

(** X4.  When the lengths agree, [merge_according_to] interleaves the two
    [actual] lists: each of them keeps its order in the result, whatever
    the keys of the [arr] lists are. *)
Theorem merge_according_to_interleaves (arr1 arr2 : list A) (actual1 actual2 : list B) :
  length arr1 = length actual1 -> length arr2 = length actual2 ->
  exists ret,
    Utils.merge_according_to key arr1 arr2 actual1 actual2 = Ok ret
    /\ sublist actual1 ret
    /\ sublist actual2 ret
    /\ length ret = (length actual1 + length actual2)%nat.
Proof.
  intros E1 E2.
  rewrite (merge_according_to_is_merge_spec key) by assumption.
  eexists. split; [reflexivity|]. split; [|split].
  - rewrite <- (snd_combine arr1 actual1 E1) at 1.
    apply sublist_map, merge_spec_sublist_l.
  - rewrite <- (snd_combine arr2 actual2 E2) at 1.
    apply sublist_map, merge_spec_sublist_r.
  - rewrite length_map, merge_spec_length, !length_combine. lia.
Qed.
End MergeAccordingToOrder.

Lemma merge_according_to_interleaves_witness :
  exists ret,
    Utils.merge_according_to (fun x : Z => x) [1; 4] [2] ["a"; "d"] ["b"] = Ok ret
    /\ sublist ["a"; "d"] ret
    /\ sublist ["b"] ret
    /\ length ret = 3%nat.
Proof.
  apply (merge_according_to_interleaves (fun x : Z => x) [1; 4] [2] ["a"; "d"] ["b"]);
    reflexivity.
Defined.

Section MergeAccordingToItself.
Context {A : Type} (key : A -> Z).

Lemma map_fst_snd_eq {C} (l : list (C * C)) :
  Forall (fun p => fst p = snd p) l -> map snd l = map fst l.
Proof.
  induction 1 as [|p l Hp _ IH]; [reflexivity|]. simpl. rewrite IH, Hp. reflexivity.
Qed.

Lemma combine_diag (l : list A) : Forall (fun p => fst p = snd p) (combine l l).
Proof. induction l; simpl; constructor; auto. Qed.

(** X5.  Given the same lists as [arr] and as [actual], [merge_according_to]
    is [merge]. *)
Theorem merge_according_to_itself_is_merge (arr1 arr2 : list A) :
  Utils.merge_according_to key arr1 arr2 arr1 arr2 = Utils.merge key arr1 arr2.
Proof.
  rewrite (merge_according_to_is_merge_spec key) by reflexivity.
  rewrite merge_is_merge_spec. f_equal.
  rewrite map_fst_snd_eq.
  - apply merge_spec_combine_fst; reflexivity.
  - rewrite (merge_spec_perm (key_of_fst key)).
    apply Forall_app. split; apply combine_diag.
Qed.
End MergeAccordingToItself.

Section SortedByKey.
Context {A : Type} (key : A -> Z).

Lemma insert_by_key_perm (x : A) (l : list A) :
  Permutation (insert_by_key key x l) (x :: l).
Proof.
  induction l as [|y l IH]; simpl; [reflexivity|].
  destruct (key x <=? key y); [reflexivity|].
  rewrite IH. apply perm_swap.
Qed.

Lemma sorted_by_key_perm (l : list A) : Permutation (sorted_by_key key l) l.
Proof.
  induction l as [|x l IH]; simpl; [reflexivity|].
  rewrite insert_by_key_perm, IH. reflexivity.
Qed.
End SortedByKey.

Section Occurrences.

Lemma insert_by_key_stable (x : Z * Z) (l : list (Z * Z)) :
  StronglySorted count_then_position l -> Forall (fun z => fst x < fst z) l ->
  StronglySorted count_then_position (insert_by_key snd x l).
Proof.
  induction 1 as [|y l Hs IH Hall]; intros Hx; simpl.
  - repeat constructor.
  - inversion Hx as [|? ? Hxy Hxl]; subst.
    destruct (Z.leb_spec (snd x) (snd y)) as [Hle|Hgt].
    + constructor; [constructor; assumption|].
      constructor; [unfold count_then_position; lia|].
      rewrite Forall_forall in Hall, Hxl |- *. intros z Hz.
      specialize (Hall z Hz). specialize (Hxl z Hz). unfold count_then_position in *. lia.
    + constructor; [apply IH; assumption|].
      rewrite (insert_by_key_perm snd x l).
      constructor; [unfold count_then_position; lia | assumption].
Qed.

Lemma sorted_by_key_stable (l : list (Z * Z)) :
  StronglySorted (fun p q => fst p < fst q) l ->
  StronglySorted count_then_position (sorted_by_key snd l).
Proof.
  induction 1 as [|x l Hs IH Hall]; simpl; [constructor|].
  apply insert_by_key_stable; [assumption|].
  rewrite (sorted_by_key_perm snd l). assumption.
Qed.

Context (occurrences : gmap string Z).

Lemma occurrences_from_positions (qitems : list QItem) :
  forall (i : Z) (temp_list : list (Z * Z)),
    occurrences_from i qitems occurrences = Some temp_list ->
    map fst temp_list = map (fun k => i + Z.of_nat k) (seq 0 (length qitems))
    /\ Forall2 (fun q p => occurrences !! q_event_type q = Some (snd p))
               qitems temp_list.
Proof.
  induction qitems as [|q rest IH]; intros i temp_list H; simpl in H.
  - inversion H; subst. split; [reflexivity | constructor].
  - destruct (occurrences !! q_event_type q) as [n|] eqn:Hq; [|discriminate].
    destruct (occurrences_from (i + 1) rest occurrences) as [tl|] eqn:Hr;
      [|discriminate].
    inversion H; subst. destruct (IH _ _ Hr) as [Hf Ho].
    split.
    + simpl. rewrite Hf. f_equal; [lia|].
      rewrite <- seq_shift, map_map. apply map_ext. intros k. lia.
    + constructor; assumption.
Qed.

Lemma occurrences_from_None (qitems : list QItem) :
  forall i : Z,
    occurrences_from i qitems occurrences = None ->
    exists q, q ∈ qitems /\ occurrences !! q_event_type q = None.
Proof.
  induction qitems as [|q rest IH]; intros i H; simpl in H; [discriminate|].
  destruct (occurrences !! q_event_type q) as [n|] eqn:Hq.
  - destruct (occurrences_from (i + 1) rest occurrences) eqn:Hr; [discriminate|].
    destruct (IH _ Hr) as (q' & Hin & Hn).
    exists q'. split; [right; assumption | assumption].
  - exists q. split; [left | assumption].
Qed.

Lemma occurrences_from_increasing (qitems : list QItem) :
  forall (i : Z) (temp_list : list (Z * Z)),
    occurrences_from i qitems occurrences = Some temp_list ->
    StronglySorted (fun p q => fst p < fst q) temp_list
    /\ Forall (fun p => i <= fst p) temp_list.
Proof.
  induction qitems as [|q rest IH]; intros i temp_list H; simpl in H.
  - inversion H; subst. split; constructor.
  - destruct (occurrences !! q_event_type q) as [n|]; [|discriminate].
    destruct (occurrences_from (i + 1) rest occurrences) as [tl|] eqn:Hr;
      [|discriminate].
    inversion H; subst. destruct (IH _ _ Hr) as [Hs Hall]. split.
    + constructor; [assumption|].
      eapply Forall_impl; [exact Hall|]. simpl. intros. lia.
    + constructor; [simpl; lia|].
      eapply Forall_impl; [exact Hall|]. simpl. intros. lia.
Qed.

Lemma occurrences_from_at (qitems : list QItem) (temp_list : list (Z * Z)) :
  occurrences_from 0 qitems occurrences = Some temp_list ->
  Forall (fun p => snd p = occurrences_at qitems occurrences (fst p)) temp_list.
Proof.
  intros H. destruct (occurrences_from_positions _ _ _ H) as [Hf Ho].
  rewrite Forall_lookup. intros k p Hp.
  assert (Hfst : fst p = Z.of_nat k).
  { assert (Hk : map fst temp_list !! k = Some (fst p))
      by (rewrite list_lookup_fmap, Hp; reflexivity).
    rewrite Hf in Hk. rewrite list_lookup_fmap in Hk.
    destruct (seq 0 (length qitems) !! k) as [k'|] eqn:Hs; [|discriminate].
    apply lookup_seq in Hs as [-> _]. simpl in Hk. inversion Hk. lia. }
  destruct (Forall2_lookup_r _ _ _ _ _ Ho Hp) as (q & Hq & Hocc).
  unfold occurrences_at. rewrite Hfst, Nat2Z.id, Hq, Hocc. reflexivity.
Qed.

Lemma count_then_position_by_occurrences (qitems : list QItem) (l : list (Z * Z)) :
  Forall (fun p => snd p = occurrences_at qitems occurrences (fst p)) l ->
  StronglySorted count_then_position l ->
  StronglySorted (by_occurrences_then_position qitems occurrences) (map fst l).
Proof.
  intros Hall Hs. induction Hs as [|x l Hs IH Hx]; simpl; [constructor|].
  inversion Hall as [|? ? Hx0 Hl]; subst.
  constructor; [apply IH; assumption|].
  rewrite Forall_forall in Hx, Hl. rewrite Forall_forall. intros i Hi.
  apply list_elem_of_fmap in Hi as (p & -> & Hp).
  specialize (Hx p Hp). specialize (Hl p Hp).
  unfold by_occurrences_then_position, count_then_position in *.
  rewrite <- Hx0, <- Hl. assumption.
Qed.

(** X6.  [get_order_by_occurrences] fails (with the KeyError of the dictionary)
    exactly when the type of some placeholder has no entry in
    [occurrences].  Otherwise it returns the positions [0..len-1], each
    once, in ascending order of the occurrences of their types, the
    earlier position first when two types occur equally often. *)
Theorem get_order_by_occurrences_sorts_positions (qitems : list QItem) :
  match get_order_by_occurrences qitems occurrences with
  | None => exists q, q ∈ qitems /\ occurrences !! q_event_type q = None
  | Some order =>
      (forall q, q ∈ qitems -> is_Some (occurrences !! q_event_type q))
      /\ Permutation order (map Z.of_nat (seq 0 (length qitems)))
      /\ StronglySorted (by_occurrences_then_position qitems occurrences) order
  end.
Proof.
  unfold get_order_by_occurrences.
  destruct (occurrences_from 0 qitems occurrences) as [temp_list|] eqn:H.
  - destruct (occurrences_from_positions _ _ _ H) as [Hf Ho].
    destruct (occurrences_from_increasing _ _ _ H) as [Hinc _].
    split; [|split].
    + intros q Hq. apply list_elem_of_lookup in Hq as [k Hk].
      destruct (Forall2_lookup_l _ _ _ _ _ Ho Hk) as (p & _ & Hp). eauto.
    + rewrite (sorted_by_key_perm snd temp_list), Hf.
      erewrite map_ext; [reflexivity|]. intros k. simpl. lia.
    + apply count_then_position_by_occurrences.
      * rewrite (sorted_by_key_perm snd temp_list). apply occurrences_from_at, H.
      * apply sorted_by_key_stable, Hinc.
  - apply (occurrences_from_None _ _ H).
Qed.
End Occurrences.

(** ** base/Formula.py *)

Section Terms.

Lemma get_term_of_spec (t : Term) (names : string -> bool) :
  FormulaOps.get_term_of t names
  = if forallb names (term_names t) then Some t else None.
Proof.
  induction t as [v|name f|l IHl r IHr|l IHl r IHr|l IHl r IHr]; simpl.
  - reflexivity.
  - rewrite andb_true_r. reflexivity.
  - rewrite IHl, IHr, forallb_app.
    destruct (forallb names (term_names l)), (forallb names (term_names r));
      reflexivity.
  - rewrite IHl, IHr, forallb_app.
    destruct (forallb names (term_names l)), (forallb names (term_names r));
      reflexivity.
  - rewrite IHl, IHr, forallb_app.
    destruct (forallb names (term_names l)), (forallb names (term_names r));
      reflexivity.
Qed.

(** X7.  [get_term_of] returns the term itself when every identifier in it, at
    any depth, is in [names], and None otherwise: it never builds a
    different term. *)
Theorem get_term_of_keeps_or_drops (t : Term) (names : string -> bool) :
  FormulaOps.get_term_of t names
  = if forallb names (term_names t) then Some t else None.
Proof. apply get_term_of_spec. Qed.

Lemma Term_eval_ext (t : Term) (b1 b2 : Binding) :
  (forall n, n ∈ term_names t -> b1 !! n = b2 !! n) ->
  FormulaOps.Term_eval t b1 = FormulaOps.Term_eval t b2.
Proof.
  induction t as [v|name f|l IHl r IHr|l IHl r IHr|l IHl r IHr]; simpl; intros H.
  - reflexivity.
  - rewrite (H name) by (left). reflexivity.
  - rewrite IHl, IHr; [reflexivity | |]; intros n Hn; apply H;
      rewrite elem_of_app; auto.
  - rewrite IHl, IHr; [reflexivity | |]; intros n Hn; apply H;
      rewrite elem_of_app; auto.
  - rewrite IHl, IHr; [reflexivity | |]; intros n Hn; apply H;
      rewrite elem_of_app; auto.
Qed.
End Terms.

Section Formulas.

Lemma formula_names_And (l r : Formula) :
  formula_names (AndFormula l r) = formula_names l ++ formula_names r.
Proof. unfold formula_names. simpl. apply flat_map_app. Qed.

Lemma formula_names_Atomic op (l r : Term) :
  formula_names (AtomicFormula op l r) = term_names l ++ term_names r.
Proof. unfold formula_names, atom_names. simpl. apply app_nil_r. Qed.

(** X8.  The value of a formula, or the error its evaluation raises, depends
    only on what the binding gives to the identifiers of the formula. *)
Theorem eval_depends_on_its_identifiers (f : Formula) (b1 b2 : Binding) :
  (forall n, n ∈ formula_names f -> b1 !! n = b2 !! n) ->
  FormulaOps.eval f b1 = FormulaOps.eval f b2.
Proof.
  induction f as [op l r|l IHl r IHr|]; intros H.
  - rewrite formula_names_Atomic in H. simpl.
    rewrite (Term_eval_ext l b1 b2), (Term_eval_ext r b1 b2); [reflexivity | |];
      intros n Hn; apply H; rewrite elem_of_app; auto.
  - rewrite formula_names_And in H. simpl.
    rewrite IHl, IHr; [reflexivity | |]; intros n Hn; apply H;
      rewrite elem_of_app; auto.
  - reflexivity.
Qed.

Lemma eval_And_true (l r : Formula) (b : Binding) :
  FormulaOps.eval (AndFormula l r) b = Ok true
  <-> FormulaOps.eval l b = Ok true /\ FormulaOps.eval r b = Ok true.
Proof.
  simpl. destruct (FormulaOps.eval l b) as [[]|e], (FormulaOps.eval r b) as [[]|e'];
    simpl; split; try intros [? ?]; try discriminate; auto.
Qed.

(** X9.  The atomic conditions that [get_formula_of] keeps are those all of
    whose identifiers are in [names], in the order of the formula;
    [TrueFormula] is dropped, and the method returns None exactly when
    nothing is kept. *)
Theorem get_formula_of_keeps_atoms_within (f : Formula) (names : string -> bool) :
  conjuncts (Tree.or_TrueFormula (FormulaOps.get_formula_of f names))
  = List.filter (atom_within names) (conjuncts f)
  /\ (FormulaOps.get_formula_of f names = None
      <-> List.filter (atom_within names) (conjuncts f) = []).
Proof.
  induction f as [op l r|l [IHl Nl] r [IHr Nr]|]; simpl.
  - rewrite !get_term_of_spec.
    unfold atom_within, atom_names. simpl. rewrite forallb_app.
    destruct (forallb names (term_names l)), (forallb names (term_names r));
      simpl; (split; [reflexivity|]); split; intros; (discriminate || reflexivity).
  - rewrite List.filter_app, <- IHl, <- IHr.
    destruct (FormulaOps.get_formula_of l names) as [l'|],
             (FormulaOps.get_formula_of r names) as [r'|]; simpl.
    + split; [reflexivity|]. split; [discriminate|].
      intros H. apply app_eq_nil in H as [H _].
      simpl in IHl. rewrite IHl in H. apply Nl in H. discriminate.
    + split; [rewrite app_nil_r; reflexivity|]. split; [discriminate|].
      rewrite app_nil_r. intros H.
      simpl in IHl. rewrite IHl in H. apply Nl in H. discriminate.
    + split; [reflexivity|]. split; [discriminate|].
      intros H. simpl in IHr. rewrite IHr in H. apply Nr in H. discriminate.
    + split; [reflexivity|]. split; reflexivity.
  - split; [reflexivity|]. split; reflexivity.
Qed.

(** X10.  A condition that [get_formula_of] returns is implied by the formula
    it was taken from: where the formula holds, so does its part for
    [names]. *)
Theorem get_formula_of_is_implied (f g : Formula) (names : string -> bool)
        (binding : Binding) :
  FormulaOps.eval f binding = Ok true ->
  FormulaOps.get_formula_of f names = Some g ->
  FormulaOps.eval g binding = Ok true.
Proof.
  revert g. induction f as [op l r|l IHl r IHr|]; intros g He Hg.
  - simpl in Hg. rewrite !get_term_of_spec in Hg.
    destruct (forallb names (term_names l)), (forallb names (term_names r));
      try discriminate.
    inversion Hg; subst. exact He.
  - apply eval_And_true in He as [Hl Hr]. simpl in Hg.
    destruct (FormulaOps.get_formula_of l names) as [l'|],
             (FormulaOps.get_formula_of r names) as [r'|];
      inversion Hg; subst.
    + apply eval_And_true. split; [apply IHl | apply IHr]; auto.
    + apply IHl; auto.
    + apply IHr; auto.
  - discriminate.
Qed.

(** X11.  When every identifier of the formula is in [names], the condition a
    node takes from it ([get_formula_of], or [TrueFormula] for None)
    evaluates as the formula does, errors included. *)
Theorem get_formula_of_all_names_is_equivalent (f : Formula) (names : string -> bool)
        (binding : Binding) :
  forallb names (formula_names f) = true ->
  FormulaOps.eval (Tree.or_TrueFormula (FormulaOps.get_formula_of f names)) binding
  = FormulaOps.eval f binding.
Proof.
  induction f as [op l r|l IHl r IHr|]; intros H.
  - rewrite formula_names_Atomic, forallb_app in H.
    apply andb_true_iff in H as [Hl Hr].
    simpl. rewrite !get_term_of_spec, Hl, Hr. reflexivity.
  - rewrite formula_names_And, forallb_app in H.
    apply andb_true_iff in H as [Hl Hr].
    specialize (IHl Hl). specialize (IHr Hr). simpl in *.
    destruct (FormulaOps.get_formula_of l names) as [l'|],
             (FormulaOps.get_formula_of r names) as [r'|]; simpl in *.
    + rewrite IHl, IHr. reflexivity.
    + rewrite <- IHr, IHl. simpl.
      destruct (FormulaOps.eval l binding) as [[]|]; reflexivity.
    + rewrite <- IHl, IHr. simpl.
      destruct (FormulaOps.eval r binding) as [[]|]; reflexivity.
    + rewrite <- IHl, <- IHr. reflexivity.
  - reflexivity.
Qed.

(** X12.  [get_events_in_a_condition_with] raises AttributeError exactly when
    the formula holds a [TrueFormula], which has no such method.
    Otherwise it keeps the atomic conditions that compare two identifiers
    one of which is [name], in the order of the formula, and returns None
    exactly when there is none. *)
Theorem get_events_in_a_condition_with_keeps_comparisons (f : Formula) (name : string) :
  match FormulaOps.get_events_in_a_condition_with f name with
  | Ok kept =>
      has_TrueFormula f = false
      /\ conjuncts (Tree.or_TrueFormula kept)
         = List.filter (atom_compares name) (conjuncts f)
      /\ (kept = None <-> List.filter (atom_compares name) (conjuncts f) = [])
  | Err e => has_TrueFormula f = true /\ e = PyRaise AttributeError
  end.
Proof.
  induction f as [op l r|l IHl r IHr|].
  - simpl. unfold atom_compares. simpl.
    destruct l as [?|nl ?|? ?|? ?|? ?], r as [?|nr ?|? ?|? ?|? ?]; simpl;
      try (split; [reflexivity|]; split; [reflexivity|]; split; reflexivity).
    destruct (bool_decide (nl = name)); simpl.
    + split; [reflexivity|]. split; [reflexivity|]. split; discriminate.
    + destruct (bool_decide (nr = name)); simpl.
      * split; [reflexivity|]. split; [reflexivity|]. split; discriminate.
      * split; [reflexivity|]. split; [reflexivity|]. split; reflexivity.
  - cbn [FormulaOps.get_events_in_a_condition_with has_TrueFormula conjuncts].
    rewrite List.filter_app.
    destruct (FormulaOps.get_events_in_a_condition_with r name) as [r'|er];
      cbn [res_bind].
    2:{ destruct IHr as [-> ->]. rewrite orb_true_r. split; reflexivity. }
    destruct (FormulaOps.get_events_in_a_condition_with l name) as [l'|el];
      cbn [res_bind].
    2:{ destruct IHl as [-> ->]. split; reflexivity. }
    destruct IHl as (-> & <- & Nl), IHr as (-> & <- & Nr).
    destruct l' as [l'|], r' as [r'|]; simpl.
    + split; [reflexivity|]. split; [reflexivity|]. split; [discriminate|].
      intros H. apply app_eq_nil in H as [H _]. apply Nl in H. discriminate.
    + split; [reflexivity|]. split; [rewrite app_nil_r; reflexivity|].
      split; [discriminate|]. rewrite app_nil_r. intros H. apply Nl in H. discriminate.
    + split; [reflexivity|]. split; [reflexivity|]. split; [discriminate|].
      intros H. apply Nr in H. discriminate.
    + split; [reflexivity|]. split; [reflexivity|]. split; reflexivity.
  - simpl. split; reflexivity.
Qed.

(** X13.  [get_all_terms] adds to [term_set] the names of the identifiers that
    stand directly on a side of an atomic condition, and nothing else: an
    identifier inside an arithmetic term is not listed. *)
Theorem get_all_terms_lists_direct_identifiers (f : Formula) (term_set : gset string) :
  FormulaOps.get_all_terms f term_set
  = term_set ∪ list_to_set (flat_map atom_identifiers (conjuncts f)).
Proof.
  revert term_set. induction f as [op l r|l IHl r IHr|]; intros term_set.
  - simpl. unfold atom_identifiers. simpl.
    destruct l as [?|nl ?|? ?|? ?|? ?], r as [?|nr ?|? ?|? ?|? ?]; simpl;
      rewrite ?app_nil_r; simpl; rewrite ?union_empty_r_L, <- ?union_assoc_L;
      reflexivity.
  - simpl. rewrite IHr, IHl, flat_map_app, list_to_set_app_L.
    symmetry. apply (assoc_L (∪)).
  - simpl. rewrite union_empty_r_L. reflexivity.
Qed.
End Formulas.

Lemma eval_depends_on_its_identifiers_witness :
  FormulaOps.eval condition_on_a_and_b (binding_of_a_and_b 1 2)
  = FormulaOps.eval condition_on_a_and_b
      (<[ "c" := ∅ ]> (binding_of_a_and_b 1 2)).
Proof.
  apply (eval_depends_on_its_identifiers condition_on_a_and_b).
  intros n Hn. vm_compute in Hn.
  apply elem_of_cons in Hn as [->|Hn]; [reflexivity|].
  apply elem_of_cons in Hn as [->|Hn]; [reflexivity|].
  inversion Hn.
Defined.

Lemma get_formula_of_is_implied_witness :
  FormulaOps.eval condition_on_a_and_b (binding_of_a_and_b 1 2) = Ok true
  /\ FormulaOps.eval
       (AtomicFormula SmallerThanOp (IdentifierTerm "a" value_of) (AtomicTerm 5))
       (binding_of_a_and_b 1 2) = Ok true.
Proof.
  split; [vm_compute; reflexivity|].
  apply (get_formula_of_is_implied condition_on_a_and_b _ (String.eqb "a")).
  - vm_compute. reflexivity.
  - reflexivity.
Defined.

Lemma get_formula_of_all_names_is_equivalent_witness :
  FormulaOps.eval
    (Tree.or_TrueFormula
       (FormulaOps.get_formula_of condition_on_a_and_b
                                  (fun n => String.eqb n "a" || String.eqb n "b")))
    (binding_of_a_and_b 7 2)
  = FormulaOps.eval condition_on_a_and_b (binding_of_a_and_b 7 2).
Proof.
  apply (get_formula_of_all_names_is_equivalent condition_on_a_and_b).
  reflexivity.
Defined.

(** ** The store of a node, on any list *)

Section StoreAnyList.

Lemma insert_at (pms : list PartialMatch) (pm : PartialMatch) (k : Z) :
  0 <= k <= Z.of_nat (length pms) ->
  PyList.insert pms k pm = take (Z.to_nat k) pms ++ pm :: drop (Z.to_nat k) pms.
Proof.
  intros Hk. unfold PyList.insert.
  rewrite <- (Z2Nat.id k) at 1 2 by lia.
  rewrite (clamp_nonneg pms (Z.to_nat k)) by lia. reflexivity.
Qed.

(** X14.  [add_partial_match] does not fail, whether the store is sorted or
    not: it puts the new match at one position and leaves the stored
    matches as they were, in their order.  The match before that position
    starts before the new one and the match after it does not. *)
Theorem add_partial_match_inserts_once (pms : list PartialMatch) (pm : PartialMatch) :
  exists k : nat,
    (k <= length pms)%nat
    /\ Store.add_partial_match pms pm = Ok (take k pms ++ pm :: drop k pms)
    /\ (forall x, pms !! k = Some x -> first_timestamp pm <= first_timestamp x)
    /\ (forall j x, S j = k -> pms !! j = Some x ->
                    first_timestamp x < first_timestamp pm).
Proof.
  destruct (find_any_list first_timestamp pms (first_timestamp pm))
    as (k & Hf & Hk & Hb & Ha).
  exists (Z.to_nat k). split; [lia|]. split; [|split].
  - unfold Store.add_partial_match, Store.find. rewrite Hf. simpl.
    rewrite insert_at by lia. reflexivity.
  - exact Ha.
  - intros j x Hj Hx. apply (Hb x); [lia|].
    replace (Z.to_nat (k - 1)) with j by lia. assumption.
Qed.

(** X15.  With the window [timedelta.max], [clean_expired_partial_matches]
    keeps the whole store, and computes no cutoff.  Otherwise, when the
    cutoff [last_timestamp - sliding_window] is an instant that a
    [datetime] can hold (below [datetime.min] the subtraction raises
    OverflowError), it does not fail on the store, sorted or not, and what
    it keeps is the store without some first matches: the first match it
    keeps does not start before the cutoff, and the last one it drops
    does. *)
Theorem clean_expired_drops_a_prefix (origin : datetime) (sliding_window : timedelta)
        (pms : list PartialMatch) (last_timestamp : datetime) :
  if sliding_window =? timedelta_max
  then Store.clean_expired_partial_matches sliding_window pms last_timestamp = Ok pms
  else
    representable origin (last_timestamp - sliding_window) ->
    exists k : nat,
      (k <= length pms)%nat
      /\ Store.clean_expired_partial_matches sliding_window pms last_timestamp
         = Ok (drop k pms)
      /\ (forall x, pms !! k = Some x ->
                    last_timestamp - sliding_window <= first_timestamp x)
      /\ (forall j x, S j = k -> pms !! j = Some x ->
                      first_timestamp x < last_timestamp - sliding_window).
Proof.
  unfold Store.clean_expired_partial_matches.
  destruct (sliding_window =? timedelta_max); [reflexivity|]. intros _.
  destruct (find_any_list first_timestamp pms (last_timestamp - sliding_window))
    as (k & Hf & Hk & Hb & Ha).
  exists (Z.to_nat k). split; [lia|]. split; [|split].
  - unfold Store.find. rewrite Hf. simpl.
    rewrite <- (Z2Nat.id k) at 1 by lia.
    rewrite slice_from_count by lia. reflexivity.
  - exact Ha.
  - intros j x Hj Hx. apply (Hb x); [lia|].
    replace (Z.to_nat (k - 1)) with j by lia. assumption.
Qed.

(** X16.  A match that starts no later than the first stored match (or comes
    to an empty store) is put at the front, before stored matches with the
    same [first_timestamp]: it is the next match
    [consume_first_partial_match] returns, and the store is then as it was
    before. *)
Theorem add_at_front_then_consume (pms : list PartialMatch) (pm : PartialMatch) :
  (forall x, head pms = Some x -> first_timestamp pm <= first_timestamp x) ->
  (r <~ Store.add_partial_match pms pm ; Store.consume_first_partial_match r)%res
  = Ok (pm, pms).
Proof.
  intros H. unfold Store.add_partial_match, Store.find,
              Utils.find_partial_match_by_timestamp.
  destruct pms as [|x rest]; [reflexivity|].
  specialize (H x eq_refl).
  replace (first_timestamp x >=? first_timestamp pm) with true
    by (symmetry; rewrite Z.geb_leb; apply Z.leb_le; lia).
  reflexivity.
Qed.

Lemma remove_others (l : list PartialMatch) (pm : PartialMatch) :
  Forall (fun x => pm_id x <> pm_id pm) l ->
  Store.remove_partial_matches l [pm] = l.
Proof.
  induction 1 as [|x l Hx _ IH]; [reflexivity|].
  unfold Store.remove_partial_matches. cbn [List.filter].
  replace (negb (Store.pm_in x [pm])) with true.
  - f_equal. exact IH.
  - unfold Store.pm_in, pm_same. simpl.
    destruct (Nat.eqb_spec (pm_id x) (pm_id pm)); [contradiction | reflexivity].
Qed.

(** X17.  Adding a match whose identity no stored match has, and removing it
    again with [_remove_partial_matches], gives the store back, sorted or
    not. *)
Theorem add_then_remove_restores (pms : list PartialMatch) (pm : PartialMatch) :
  Forall (fun x => pm_id x <> pm_id pm) pms ->
  (r <~ Store.add_partial_match pms pm ;
   Ok (Store.remove_partial_matches r [pm]))%res = Ok pms.
Proof.
  intros Hfresh.
  destruct (find_any_list first_timestamp pms (first_timestamp pm))
    as (k & Hf & Hk & _).
  unfold Store.add_partial_match, Store.find. rewrite Hf. simpl.
  rewrite insert_at by lia. f_equal.
  unfold Store.remove_partial_matches.
  rewrite List.filter_app. cbn [List.filter].
  replace (negb (Store.pm_in pm [pm])) with false
    by (unfold Store.pm_in, pm_same; simpl; rewrite Nat.eqb_refl; reflexivity).
  fold (Store.remove_partial_matches (take (Z.to_nat k) pms) [pm]).
  fold (Store.remove_partial_matches (drop (Z.to_nat k) pms) [pm]).
  rewrite !remove_others by (apply Forall_take || apply Forall_drop; assumption).
  apply take_drop.
Qed.

Lemma count_before_app {A} (key : A -> Z) (t : Z) (l1 l2 : list A) :
  count_before key t (l1 ++ l2)
  = (count_before key t l1 + count_before key t l2)%nat.
Proof. unfold count_before. rewrite List.filter_app, length_app. reflexivity. Qed.

Lemma count_before_all_lt {A} (key : A -> Z) (t : Z) (l : list A) :
  Forall (fun x => key x < t) l -> count_before key t l = length l.
Proof.
  unfold count_before. induction 1 as [|x l Hx _ IH]; [reflexivity|]. simpl.
  destruct (Z.ltb_spec (key x) t); [|lia]. simpl. rewrite IH. reflexivity.
Qed.

(** X18.  On a sorted store, expiring with a cutoff and then with a later one
    gives what expiring once with the later cutoff gives. *)
Theorem clean_expired_later_cutoff_absorbs (sliding_window : timedelta)
        (pms : list PartialMatch) (t1 t2 : datetime) :
  sorted_by first_timestamp pms -> t1 <= t2 ->
  (pms1 <~ Store.clean_expired_partial_matches sliding_window pms t1 ;
   Store.clean_expired_partial_matches sliding_window pms1 t2)%res
  = Store.clean_expired_partial_matches sliding_window pms t2.
Proof.
  intros Hs Ht. rewrite !clean_expired_sorted by assumption. simpl.
  destruct (sliding_window =? timedelta_max) eqn:Hw.
  - rewrite clean_expired_sorted, Hw by assumption. reflexivity.
  - set (c1 := count_before first_timestamp (t1 - sliding_window) pms).
    assert (Hc : count_before first_timestamp (t2 - sliding_window) pms
                 = (c1 + count_before first_timestamp (t2 - sliding_window)
                                      (drop c1 pms))%nat).
    { rewrite <- (take_drop c1 pms) at 1. rewrite count_before_app. f_equal.
      rewrite count_before_all_lt.
      - rewrite length_take.
        pose proof (count_before_le_length first_timestamp pms (t1 - sliding_window)).
        fold c1 in H. lia.
      - eapply Forall_impl; [apply take_count_before; assumption|].
        simpl. intros. lia. }
    rewrite clean_expired_sorted, Hw by (apply sorted_by_drop; assumption).
    rewrite drop_drop, Hc. reflexivity.
Qed.
End StoreAnyList.

Lemma add_at_front_then_consume_witness :
  (r <~ Store.add_partial_match [pm_at 0 3; pm_at 1 4] (pm_at 2 3) ;
   Store.consume_first_partial_match r)%res
  = Ok (pm_at 2 3, [pm_at 0 3; pm_at 1 4]).
Proof.
  apply (add_at_front_then_consume [pm_at 0 3; pm_at 1 4] (pm_at 2 3)).
  intros x Hx. inversion Hx; subst. simpl. lia.
Defined.

Lemma add_then_remove_restores_witness :
  (r <~ Store.add_partial_match [pm_at 0 1; pm_at 1 4] (pm_at 2 3) ;
   Ok (Store.remove_partial_matches r [pm_at 2 3]))%res
  = Ok [pm_at 0 1; pm_at 1 4].
Proof.
  apply (add_then_remove_restores [pm_at 0 1; pm_at 1 4] (pm_at 2 3)).
  repeat constructor; simpl; lia.
Defined.

Lemma clean_expired_later_cutoff_absorbs_witness :
  (pms1 <~ Store.clean_expired_partial_matches 5 [pm_at 0 1; pm_at 1 4; pm_at 2 9] 7 ;
   Store.clean_expired_partial_matches 5 pms1 12)%res
  = Store.clean_expired_partial_matches 5 [pm_at 0 1; pm_at 1 4; pm_at 2 9] 12.
Proof.
  apply (clean_expired_later_cutoff_absorbs 5 [pm_at 0 1; pm_at 1 4; pm_at 2 9] 7 12).
  - repeat constructor; simpl; lia.
  - lia.
Defined.

(** ** The join *)

Section JoinFacts.

(** X19.  A match that a [SeqNode] accepts holds the events of the two matches
    it joins, each once, in ascending order of their timestamps; the
    candidate passed the window test on the end of the new match and the
    start of the stored one. *)
Theorem seq_join_in_time_order (nd : Node) (first second : PartialMatch)
        (first_event_defs second_event_defs : list EventDef) (evs : list Event) :
  cls nd = SeqNode ->
  Join.InternalNode_decide nd first second first_event_defs second_event_defs
  = Ok (Join.Accepted evs) ->
  sorted_by timestamp evs
  /\ Permutation evs (events first ++ events second)
  /\ (sliding_window nd = timedelta_max
      \/ Z.abs (last_timestamp first - first_timestamp second) <= sliding_window nd).
Proof.
  intros Hc Hd.
  destruct (decide_accepted_inv _ _ _ _ _ _ Hd) as (Hw & Hm & Hv & _).
  split; [|split].
  - unfold Join.validate_new_match in Hv. rewrite Hc in Hv.
    destruct (Utils.is_sorted timestamp evs) eqn:Hsorted; [|discriminate].
    apply is_sorted_spec. assumption.
  - eapply merge_events_perm. exact Hm.
  - unfold Join.outside_window in Hw. apply andb_false_iff in Hw as [Hw|Hw].
    + left. apply negb_false_iff, Z.eqb_eq in Hw. assumption.
    + right. rewrite Z.gtb_ltb in Hw. apply Z.ltb_ge in Hw. assumption.
Qed.

(** X20.  A negation node of a pattern whose top operator is not SEQ decides no
    candidate inside the window: the join raises NotImplementedError (or
    the Exception of [merge_according_to], when an event list and its
    definitions differ in length).  It returns, with a false value, only
    for a candidate outside the window. *)
Theorem negation_join_only_for_SEQ (nd : Node) (first second : PartialMatch)
        (first_event_defs second_event_defs : list EventDef) :
  top_operator nd <> SeqOperator ->
  Join.InternalNegationNode_try_create_new_match
    nd first second first_event_defs second_event_defs
  = if Join.outside_window nd first second then Ok false
    else if (length first_event_defs =? length (events first))%nat
            && (length second_event_defs =? length (events second))%nat
         then raise NotImplementedError
         else raise Exception.
Proof.
  intros Hop. unfold Join.InternalNegationNode_try_create_new_match.
  destruct (Join.outside_window nd first second); [reflexivity|].
  destruct (Nat.eqb_spec (length first_event_defs) (length (events first))) as [E1|E1];
    [destruct (Nat.eqb_spec (length second_event_defs) (length (events second)))
       as [E2|E2]|]; simpl.
  - rewrite (merge_according_to_is_merge_spec get_index) by assumption. simpl.
    destruct (top_operator nd); [contradiction | reflexivity | reflexivity].
  - replace (Utils.merge_according_to get_index first_event_defs second_event_defs
                                      (events first) (events second))
      with (@raise (list Event) Exception); [reflexivity|].
    symmetry. apply merge_according_to_raises. auto.
  - replace (Utils.merge_according_to get_index first_event_defs second_event_defs
                                      (events first) (events second))
      with (@raise (list Event) Exception); [reflexivity|].
    symmetry. apply merge_according_to_raises. auto.
Qed.
End JoinFacts.

Lemma seq_join_in_time_order_witness :
  sorted_by timestamp [event_at "A" 1; event_at "A" 4]
  /\ Permutation [event_at "A" 1; event_at "A" 4]
                 (events (pm_at 1 4) ++ events (pm_at 0 1))
  /\ (sliding_window (seq_node 10) = timedelta_max
      \/ Z.abs (last_timestamp (pm_at 1 4) - first_timestamp (pm_at 0 1))
         <= sliding_window (seq_node 10)).
Proof.
  apply (seq_join_in_time_order (seq_node 10) (pm_at 1 4) (pm_at 0 1)
           [(1, qitem "B" "b" 1)] [(0, qitem "A" "a" 0)]);
    reflexivity.
Defined.

Lemma negation_join_only_for_SEQ_witness :
  Join.InternalNegationNode_try_create_new_match
    negation_node_under_AND (pm_at 1 4) (pm_at 0 1)
    [(1, qitem "B" "b" 1)] [(0, qitem "A" "a" 0)]
  = raise NotImplementedError.
Proof.
  rewrite (negation_join_only_for_SEQ negation_node_under_AND); [reflexivity|].
  discriminate.
Defined.

(** ** Navigation *)

Section Navigation.

Lemma get_root_from_is_a_root (h : gmap nat Node) :
  forall (budget self r : nat),
    Node.get_root_from budget h self = Ok r ->
    exists nd, h !! r = Some nd /\ parent nd = None.
Proof.
  induction budget as [|budget IH]; intros self r H; simpl in H; [discriminate|].
  unfold lookup_node in H.
  destruct (h !! self) as [nd|] eqn:Hn; simpl in H; [|discriminate].
  destruct (parent nd) as [p|] eqn:Hp.
  - eapply IH. exact H.
  - inversion H; subst. eauto.
Qed.

(** X21.  What [get_root] returns is a node without a parent, and [get_root] of
    that node is the node itself. *)
Theorem get_root_is_a_root (h : gmap nat Node) (self r : nat) :
  Node.get_root h self = Ok r ->
  (exists nd, h !! r = Some nd /\ parent nd = None)
  /\ Node.get_root h r = Ok r.
Proof.
  intros H. apply get_root_from_is_a_root in H as (nd & Hn & Hp).
  split; [eauto|].
  unfold Node.get_root, depth_budget. simpl. unfold lookup_node.
  rewrite Hn. simpl. rewrite Hp. reflexivity.
Qed.
End Navigation.

Lemma get_root_is_a_root_witness :
  (exists nd, heap state_of_one_leaf !! 0%nat = Some nd /\ parent nd = None)
  /\ Node.get_root (heap state_of_one_leaf) 0 = Ok 0%nat.
Proof.
  apply (get_root_is_a_root (heap state_of_one_leaf) 0 0). reflexivity.
Defined.

Lemma clean_expired_drops_a_prefix_witness :
  representable 0 (10 - 5)
  /\ exists k : nat,
       (k <= 2)%nat
       /\ Store.clean_expired_partial_matches 5 [pm_at 0 7; pm_at 1 2] 10
          = Ok (drop k [pm_at 0 7; pm_at 1 2])
       /\ (forall x, [pm_at 0 7; pm_at 1 2] !! k = Some x -> 10 - 5 <= first_timestamp x)
       /\ (forall j x, S j = k -> [pm_at 0 7; pm_at 1 2] !! j = Some x ->
                       first_timestamp x < 10 - 5).
Proof.
  assert (H : representable 0 (10 - 5)) by (unfold representable, datetime_span; lia).
  split; [exact H|].
  exact (clean_expired_drops_a_prefix 0 5 [pm_at 0 7; pm_at 1 2] 10 H).
Defined.

(** ** TreeBasedEvaluationMechanism.eval *)

Section Listeners.
Context (h : gmap nat Node).

Lemma register_listeners_appends (leaves : list nat) :
  forall (listeners result : gmap string (list nat)),
    Mechanism.register_listeners h leaves listeners = Ok result ->
    forall t, result !! t = appended (listeners !! t) (leaves_of_type h t leaves).
Proof.
  induction leaves as [|leaf rest IH]; intros listeners result H t; simpl in H.
  - inversion H; subst. simpl. destruct (result !! t); simpl;
      [rewrite app_nil_r|]; reflexivity.
  - unfold lookup_node in H. destruct (h !! leaf) as [nd|] eqn:Hl; simpl in H;
      [|discriminate].
    rewrite (IH _ _ H t). unfold leaves_of_type. simpl. unfold has_type at 2.
    rewrite Hl. fold (leaves_of_type h t rest).
    destruct (decide (leaf_event_type nd = t)) as [E|E].
    + rewrite (bool_decide_eq_true_2 _ E). subst t.
      destruct (listeners !! leaf_event_type nd) as [l|]; rewrite lookup_insert_eq;
        simpl.
      * rewrite <- app_assoc. simpl.
        destruct (leaves_of_type h (leaf_event_type nd) rest), l; reflexivity.
      * destruct (leaves_of_type h (leaf_event_type nd) rest); reflexivity.
    + rewrite (bool_decide_eq_false_2 _ E).
      destruct (listeners !! leaf_event_type nd) as [l|];
        rewrite lookup_insert_ne by assumption; reflexivity.
Qed.

Lemma register_listeners_fails (leaves : list nat) :
  forall (listeners : gmap string (list nat)) (e : error),
    Mechanism.register_listeners h leaves listeners = Err e ->
    e = PyRaise AttributeError /\ exists leaf, leaf ∈ leaves /\ h !! leaf = None.
Proof.
  induction leaves as [|leaf rest IH]; intros listeners e H; simpl in H;
    [discriminate|].
  unfold lookup_node in H. destruct (h !! leaf) as [nd|] eqn:Hl; simpl in H.
  - destruct (IH _ _ H) as (-> & leaf' & Hin & Hn).
    split; [reflexivity|]. exists leaf'. split; [right; assumption | assumption].
  - inversion H; subst. split; [reflexivity|].
    exists leaf. split; [left | assumption].
Qed.

(** X22.  The dictionary [event_types_listeners] that [eval] builds maps an
    event type to the leaves of that type, in the order of [get_leaves],
    and has no entry for a type that no leaf has; building it fails only
    on a reference to a missing node. *)
Theorem register_listeners_groups_by_type (leaves : list nat) :
  match Mechanism.register_listeners h leaves ∅ with
  | Ok listeners =>
      forall t, listeners !! t
                = match leaves_of_type h t leaves with
                  | [] => None
                  | l => Some l
                  end
  | Err e =>
      e = PyRaise AttributeError /\ exists leaf, leaf ∈ leaves /\ h !! leaf = None
  end.
Proof.
  destruct (Mechanism.register_listeners h leaves ∅) as [listeners|e] eqn:H.
  - intros t. rewrite (register_listeners_appends _ _ _ H t), lookup_empty.
    destruct (leaves_of_type h t leaves); reflexivity.
  - eapply register_listeners_fails. exact H.
Qed.
End Listeners.

Section OtherTypes.

Lemma send_events_skips fuel root listeners (event : Event) (post : list Event) :
  listeners !! event_type event = None ->
  forall (pre : list Event) out s,
    Mechanism.send_events fuel root listeners (pre ++ event :: post) out s
    = Mechanism.send_events fuel root listeners (pre ++ post) out s.
Proof.
  intros Hn. induction pre as [|e pre IH]; intros out s; simpl.
  - rewrite Hn. reflexivity.
  - destruct (listeners !! event_type e) as [leaves|]; [|apply IH].
    destruct (Mechanism.send_to_leaves fuel root e leaves out s) as [out' [s'|err]];
      [apply IH | reflexivity].
Qed.

(** X23.  An event whose type no leaf of the tree has is ignored: the run with
    the event gives the output and the final state (or the error) of the
    run without it. *)
Theorem eval_ignores_other_types (fuel root : nat) (pre post : list Event)
        (event : Event) (s : State) (leaves : list nat) :
  Node.get_leaves (heap s) root = Ok leaves ->
  leaves_of_type (heap s) (event_type event) leaves = [] ->
  Mechanism.eval fuel root (pre ++ event :: post) s
  = Mechanism.eval fuel root (pre ++ post) s.
Proof.
  intros Hl Hnone. unfold Mechanism.eval. rewrite Hl. simpl.
  destruct (Mechanism.register_listeners (heap s) leaves ∅) as [listeners|e] eqn:Hr;
    [|reflexivity].
  rewrite send_events_skips; [reflexivity|].
  rewrite (register_listeners_appends _ _ _ _ Hr), lookup_empty, Hnone. reflexivity.
Qed.
End OtherTypes.

Section Drain.
Context (root : nat).

Lemma get_matches_drains (pms : list PartialMatch) :
  forall (budget : nat) (s : State) (nd : Node),
    heap s !! root = Some nd -> partial_matches nd = pms ->
    (length pms <= budget)%nat ->
    exists s',
      Tree.get_matches budget root s = Ok (map events pms, s')
      /\ heap s' !! root = Some (set_partial_matches [] nd)
      /\ (forall n, n <> root -> heap s' !! n = heap s !! n)
      /\ next_node s' = next_node s /\ next_pm s' = next_pm s.
Proof.
  induction pms as [|pm rest IH]; intros budget s nd Hn Hp Hb.
  - exists s. split; [|split; [|auto]].
    + destruct budget; simpl; unfold bind; rewrite (read_Some _ _ _ Hn), Hp;
        reflexivity.
    + rewrite <- Hp, set_partial_matches_same. assumption.
  - destruct budget as [|budget]; [simpl in Hb; lia|].
    set (nd1 := set_partial_matches rest nd).
    set (s1 := set_heap (<[ root := nd1 ]> (heap s)) s).
    destruct (IH budget s1 nd1) as (s' & Hg & Hr & Ho & Hnn & Hnp).
    { simpl. apply lookup_insert_eq. }
    { reflexivity. }
    { simpl in Hb. lia. }
    exists s'. split; [|split; [|split]].
    + simpl. unfold bind at 1. rewrite (read_Some _ _ _ Hn), Hp.
      unfold bind at 1. unfold Tree.consume_first_partial_match.
      unfold bind at 1. rewrite (read_Some _ _ _ Hn), Hp. simpl.
      unfold bind at 1. unfold lift. unfold bind at 1.
      rewrite (modify_Some _ _ _ _ Hn). fold nd1. fold s1. unfold ret at 1.
      unfold bind. rewrite Hg. reflexivity.
    + rewrite Hr. reflexivity.
    + intros n Hne. rewrite (Ho n Hne). simpl. apply lookup_insert_ne. auto.
    + simpl in *. auto.
Qed.

(** X24.  [get_matches], run to its end as [eval] does, returns the events of
    every match stored at the root, in the order of the store, and leaves
    the root's store empty; it changes no other node, and it fails only
    when there is no root. *)
Theorem drain_matches_empties_root (s : State) :
  match heap s !! root with
  | Some nd =>
      exists s',
        Tree.drain_matches root s = Ok (map events (partial_matches nd), s')
        /\ heap s' !! root = Some (set_partial_matches [] nd)
        /\ (forall n, n <> root -> heap s' !! n = heap s !! n)
  | None => Tree.drain_matches root s = raise AttributeError
  end.
Proof.
  destruct (heap s !! root) as [nd|] eqn:Hn.
  - destruct (get_matches_drains (partial_matches nd)
                (length (partial_matches nd)) s nd Hn eq_refl)
      as (s' & Hg & Hr & Ho & _); [lia|].
    exists s'. split; [|auto].
    unfold Tree.drain_matches, bind. rewrite (read_Some _ _ _ Hn). exact Hg.
  - unfold Tree.drain_matches, bind, read, lookup_node. rewrite Hn. reflexivity.
Qed.








End Drain.

Lemma eval_ignores_other_types_witness :
  Mechanism.eval 30 0 ([event_at "A" 4] ++ event_at "B" 5 :: [event_at "A" 6])
                 state_of_empty_leaf
  = Mechanism.eval 30 0 ([event_at "A" 4] ++ [event_at "A" 6]) state_of_empty_leaf.
Proof.
  apply (eval_ignores_other_types 30 0 [event_at "A" 4] [event_at "A" 6]
           (event_at "B" 5) state_of_empty_leaf [0%nat]);
    reflexivity.
Defined.


(** ** Tree.__construct_tree *)

Section ConstructTree.
Context (is_sequence : bool) (args : list QItem) (w : timedelta).

Lemma getitem_cases {A} (l : list A) (i : Z) :
  (- Z.of_nat (length l) <= i < Z.of_nat (length l) /\ exists x, PyList.getitem l i = Ok x)
  \/ (~ (- Z.of_nat (length l) <= i < Z.of_nat (length l))
      /\ PyList.getitem l i = raise IndexError).
Proof.
  unfold PyList.getitem.
  destruct (Z.leb_spec 0 i), (Z.ltb_spec i (Z.of_nat (length l))); simpl.
  - left. split; [lia|].
    destruct (lookup_lt_is_Some_2 l (Z.to_nat i)) as [x ->]; [lia|]. eauto.
  - destruct (Z.leb_spec (- Z.of_nat (length l)) i), (Z.ltb_spec i 0); simpl;
      try lia; right; (split; [lia | reflexivity]).
  - destruct (Z.leb_spec (- Z.of_nat (length l)) i), (Z.ltb_spec i 0); simpl;
      try lia.
    + left. split; [lia|].
      destruct (lookup_lt_is_Some_2 l (Z.to_nat (Z.of_nat (length l) + i)))
        as [x ->]; [lia|]. eauto.
    + right. split; [lia | reflexivity].
  - lia.
Qed.

Lemma tree_shape_frame lo hi (h h' : gmap nat Node) :
  (forall n, (lo <= n < hi)%nat -> h' !! n = h !! n) ->
  forall ts root,
    tree_shape is_sequence args w lo hi h root ts ->
    tree_shape is_sequence args w lo hi h' root ts.
Proof.
  intros Hf. induction ts as [i|l IHl r IHr]; intros root [Hr H]; simpl.
  - split; [assumption|].
    destruct H as (nd & q & Hn & H). exists nd, q. rewrite Hf by assumption. auto.
  - split; [assumption|].
    destruct H as (nd & ln & rn & Hn & Hc & Hl & Hrr & Sl & Sr).
    exists nd, ln, rn. rewrite Hf by assumption. auto 10.
Qed.

Lemma tree_shape_widen lo hi lo' hi' (h : gmap nat Node) :
  (lo' <= lo)%nat -> (hi <= hi')%nat ->
  forall ts root,
    tree_shape is_sequence args w lo hi h root ts ->
    tree_shape is_sequence args w lo' hi' h root ts.
Proof.
  intros Hlo Hhi. induction ts as [i|l IHl r IHr]; intros root [Hr H]; simpl.
  - split; [lia | assumption].
  - split; [lia|].
    destruct H as (nd & ln & rn & Hn & Hc & Hl & Hrr & Sl & Sr).
    exists nd, ln, rn. auto 10.
Qed.

Lemma tree_shape_root lo hi h root ts :
  tree_shape is_sequence args w lo hi h root ts ->
  exists nd, h !! root = Some nd /\ is_negation_class (cls nd) = false.
Proof.
  destruct ts; intros [_ H]; simpl in H.
  - destruct H as (nd & q & Hn & Hc & _). exists nd. rewrite Hc. auto.
  - destruct H as (nd & ln & rn & Hn & Hc & _). exists nd. rewrite Hc.
    destruct is_sequence; auto.
Qed.

Lemma get_event_definitions_positive (h : gmap nat Node) (n : nat) (nd : Node) :
  h !! n = Some nd -> is_negation_class (cls nd) = false ->
  exists defs, Node.get_event_definitions h n = Ok defs.
Proof.
  intros Hn Hc. unfold Node.get_event_definitions, depth_budget. simpl.
  unfold lookup_node. rewrite Hn. simpl.
  destruct (cls nd); try discriminate; eauto.
Qed.

Lemma merged_event_definitions_positive c (l r : list EventDef) :
  is_negation_class c = false ->
  exists defs, Tree.merged_event_definitions c l r = Ok defs.
Proof.
  destruct c; try discriminate; intros _; simpl; eauto.
  rewrite merge_is_merge_spec. eauto.
Qed.

Lemma set_subtrees_positive (s : State) (self l r : nat) (nd lnd rnd : Node) :
  heap s !! self = Some nd -> heap s !! l = Some lnd -> heap s !! r = Some rnd ->
  self <> l -> self <> r ->
  is_negation_class (cls nd) = false ->
  is_negation_class (cls lnd) = false -> is_negation_class (cls rnd) = false ->
  exists defs,
    Tree.set_subtrees self (Some l) (Some r) s
    = Ok (tt, set_heap (<[ self := set_event_defs defs
                                     (set_right_subtree (Some r)
                                        (set_left_subtree (Some l) nd)) ]> (heap s)) s).
Proof.
  intros Hn Hl Hr Hsl Hsr Hc Hcl Hcr.
  set (nd1 := set_right_subtree (Some r) (set_left_subtree (Some l) nd)).
  set (s1 := set_heap (<[ self := nd1 ]> (heap s)) s).
  assert (Hl1 : heap s1 !! l = Some lnd) by (simpl; rewrite lookup_insert_ne; auto).
  assert (Hr1 : heap s1 !! r = Some rnd) by (simpl; rewrite lookup_insert_ne; auto).
  assert (Hn1 : heap s1 !! self = Some nd1) by (simpl; apply lookup_insert_eq).
  destruct (get_event_definitions_positive _ _ _ Hl1 Hcl) as [ld Hld].
  destruct (get_event_definitions_positive _ _ _ Hr1 Hcr) as [rd Hrd].
  destruct (merged_event_definitions_positive (cls nd1) ld rd Hc) as [defs Hdefs].
  exists defs. unfold Tree.set_subtrees.
  unfold bind at 1. rewrite (modify_Some _ _ _ _ Hn). fold nd1. fold s1.
  unfold bind at 1. unfold get_heap at 1.
  unfold bind at 1. unfold lift, deref.
  unfold bind at 1. rewrite Hld.
  unfold bind at 1.
  unfold bind at 1. rewrite Hrd.
  unfold bind at 1. rewrite (read_Some _ _ _ Hn1).
  unfold bind at 1. rewrite Hdefs.
  rewrite (modify_Some _ _ _ _ Hn1). simpl. rewrite insert_insert_eq. reflexivity.
Qed.

Lemma depth_lt_nodes ts : (structure_depth ts < structure_nodes ts)%nat.
Proof. induction ts; simpl; lia. Qed.

Lemma construct_tree_spec :
  forall (ts : TreeStructure) (parent_ : option nat) (s : State),
    heap_below s ->
    match Tree.construct_tree is_sequence ts args w parent_ s with
    | Ok (root, s') =>
        heap_below s'
        /\ (next_node s <= next_node s')%nat
        /\ next_pm s' = next_pm s
        /\ (forall n, (n < next_node s)%nat -> heap s' !! n = heap s !! n)
        /\ (size (heap s) + structure_nodes ts <= size (heap s'))%nat
        /\ (exists nd, heap s' !! root = Some nd /\ parent nd = parent_)
        /\ tree_shape is_sequence args w (next_node s) (next_node s') (heap s') root ts
        /\ Forall (index_in_range args) (structure_indices ts)
    | Err e =>
        e = PyRaise IndexError
        /\ Exists (fun i => ~ index_in_range args i) (structure_indices ts)
    end.
Proof.
  induction ts as [i|l IHl r IHr]; intros parent_ s Hb.
  - simpl. unfold bind, lift.
    destruct (getitem_cases args i) as [[Hi [q Hq]]|[Hi Hq]]; rewrite Hq.
    + unfold alloc. simpl.
      assert (Hfresh : heap s !! next_node s = None).
      { destruct (heap s !! next_node s) eqn:E; [|reflexivity].
        assert (next_node s < next_node s)%nat by (apply Hb; eauto). lia. }
      split; [|split; [lia|split; [reflexivity|split; [|split; [|split; [|split]]]]]].
      * intros n [x Hx]. simpl in *.
        destruct (decide (n = next_node s)) as [->|Hne]; [lia|].
        rewrite lookup_insert_ne in Hx by auto.
        assert (n < next_node s)%nat by (apply Hb; eauto). lia.
      * intros n Hn. apply lookup_insert_ne. lia.
      * rewrite map_size_insert_None by assumption. lia.
      * eexists. split; [apply lookup_insert_eq | reflexivity].
      * split; [lia|]. eexists _, q. rewrite lookup_insert_eq.
        repeat split; assumption.
      * constructor; [exact Hi | constructor].
    + split; [reflexivity|]. left. exact Hi.
  - cbn [Tree.construct_tree structure_indices structure_nodes].
    set (c := next_node s).
    set (cnode := Tree.new_node (if is_sequence then SeqNode else AndNode) w parent_).
    set (s1 := {| heap := <[ c := cnode ]> (heap s); next_node := S c;
                  next_pm := next_pm s |}).
    assert (Hfresh : heap s !! c = None).
    { destruct (heap s !! c) eqn:E; [|reflexivity].
      assert (c < next_node s)%nat by (apply Hb; eauto). unfold c in *. lia. }
    assert (Hb1 : heap_below s1).
    { intros n [x Hx]. simpl in *.
      destruct (decide (n = c)) as [->|Hne]; [lia|].
      rewrite lookup_insert_ne in Hx by auto.
      assert (n < next_node s)%nat by (apply Hb; eauto). unfold c. lia. }
    unfold bind at 1. unfold alloc at 1. fold c. fold cnode. fold s1.
    specialize (IHl (Some c) s1 Hb1).
    unfold bind at 1.
    destruct (Tree.construct_tree is_sequence l args w (Some c) s1) as [[ln s2]|e].
    2:{ destruct IHl as [-> Hex]. split; [reflexivity|].
        apply Exists_app. left. assumption. }
    destruct IHl as (Hb2 & Hn2 & Hp2 & Hf2 & Hs2 & (lnd & Hln & Hlp) & Sl & Il).
    specialize (IHr (Some c) s2 Hb2).
    unfold bind at 1.
    destruct (Tree.construct_tree is_sequence r args w (Some c) s2) as [[rn s3]|e].
    2:{ destruct IHr as [-> Hex]. split; [reflexivity|].
        apply Exists_app. right. assumption. }
    destruct IHr as (Hb3 & Hn3 & Hp3 & Hf3 & Hs3 & (rnd & Hrn & Hrp) & Sr & Ir).
    simpl in Hn2, Hp2, Hf2, Hs2.
    assert (Hlr : (S c <= ln < next_node s2)%nat) by (destruct l; apply Sl).
    assert (Hrr : (next_node s2 <= rn < next_node s3)%nat) by (destruct r; apply Sr).
    assert (Hc3 : heap s3 !! c = Some cnode).
    { rewrite Hf3 by lia. rewrite Hf2 by lia. simpl. apply lookup_insert_eq. }
    assert (Hl3 : heap s3 !! ln = Some lnd) by (rewrite Hf3 by lia; assumption).
    destruct (tree_shape_root _ _ _ _ _ Sl) as (lnd' & Hln' & Hlc).
    rewrite Hln in Hln'. inversion Hln'; subst lnd'; clear Hln'.
    destruct (tree_shape_root _ _ _ _ _ Sr) as (rnd' & Hrn' & Hrc).
    rewrite Hrn in Hrn'. inversion Hrn'; subst rnd'; clear Hrn'.
    destruct (set_subtrees_positive s3 c ln rn cnode lnd rnd) as [defs Hset];
      try assumption; try lia.
    { unfold cnode. simpl. destruct is_sequence; reflexivity. }
    unfold bind at 1. rewrite Hset. unfold ret.
    set (nd' := set_event_defs defs
                  (set_right_subtree (Some rn) (set_left_subtree (Some ln) cnode))).
    assert (Hs4 : size (<[ c := nd' ]> (heap s3)) = size (heap s3)).
    { apply map_size_insert_Some. eauto. }
    split; [|split; [|split; [|split; [|split; [|split; [|split]]]]]].
    + intros n [x Hx]. simpl in *.
      destruct (decide (n = c)) as [->|Hne]; [lia|].
      rewrite lookup_insert_ne in Hx by auto. apply Hb3. eauto.
    + simpl. unfold c in *. lia.
    + simpl. rewrite Hp3, Hp2. reflexivity.
    + intros n Hn. simpl. rewrite lookup_insert_ne by (unfold c; lia).
      rewrite Hf3 by (unfold c in *; lia). rewrite Hf2 by (unfold c in *; lia).
      simpl. apply lookup_insert_ne. unfold c; lia.
    + simpl. rewrite Hs4.
      rewrite map_size_insert_None in Hs2 by assumption. lia.
    + exists nd'. split; [simpl; apply lookup_insert_eq | reflexivity].
    + simpl. split; [unfold c in *; lia|].
      exists nd', ln, rn. rewrite lookup_insert_eq.
      split; [reflexivity|]. split; [reflexivity|].
      split; [reflexivity|]. split; [reflexivity|]. split.
      * apply (tree_shape_widen (S c) (next_node s2)); [unfold c; lia | lia|].
        apply (tree_shape_frame _ _ (heap s2)); [|assumption].
        intros n Hn. rewrite lookup_insert_ne by lia. apply Hf3. lia.
      * apply (tree_shape_widen (next_node s2) (next_node s3));
          [unfold c in *; lia | lia|].
        apply (tree_shape_frame _ _ (heap s3)); [|assumption].
        intros n Hn. apply lookup_insert_ne. lia.
    + apply Forall_app. split; assumption.
Qed.

Lemma tree_shape_get_leaves lo hi (h : gmap nat Node) :
  forall ts root budget,
    tree_shape is_sequence args w lo hi h root ts ->
    (structure_depth ts < budget)%nat ->
    exists leaves,
      Node.get_leaves_from budget h root = Ok leaves
      /\ Forall2 (is_leaf_for args w h) leaves (structure_indices ts).
Proof.
  induction ts as [i|l IHl r IHr]; intros root budget [Hr H] Hd;
    (destruct budget as [|budget]; [lia|]); simpl in H.
  - exists [root]. split.
    + destruct H as (nd & q & Hn & Hc & _). simpl. unfold lookup_node.
      rewrite Hn. simpl. rewrite Hc. reflexivity.
    + repeat constructor. exact H.
  - destruct H as (nd & ln & rn & Hn & Hc & Hl & Hrr & Sl & Sr).
    simpl in Hd.
    destruct (IHl ln budget Sl) as (ll & Hll & Fl); [lia|].
    destruct (IHr rn budget Sr) as (lr & Hlr & Fr); [lia|].
    exists (ll ++ lr). split.
    + simpl. unfold lookup_node. rewrite Hn. simpl. rewrite Hc, Hl, Hrr, Hll, Hlr.
      destruct is_sequence; reflexivity.
    + simpl. apply Forall2_app; assumption.
Qed.

(** X26.  [__construct_tree] fails exactly when an index of the tree structure
    is not a position of [args] (counting from the end when negative),
    and then with IndexError.  When it returns, [get_leaves] of the tree
    lists one leaf for each index of the structure, from left to right:
    the leaf took the type, the name and the position of [args[i]], has
    the window of the pattern and an empty store. *)
Theorem construct_tree_leaves (ts : TreeStructure) (parent_ : option nat) (s : State) :
  heap_below s ->
  match Tree.construct_tree is_sequence ts args w parent_ s with
  | Ok (root, s') =>
      Forall (index_in_range args) (structure_indices ts)
      /\ exists leaves,
           Node.get_leaves (heap s') root = Ok leaves
           /\ Forall2 (is_leaf_for args w (heap s')) leaves (structure_indices ts)
  | Err e =>
      e = PyRaise IndexError
      /\ Exists (fun i => ~ index_in_range args i) (structure_indices ts)
  end.
Proof.
  intros Hb. pose proof (construct_tree_spec ts parent_ s Hb) as H.
  destruct (Tree.construct_tree is_sequence ts args w parent_ s) as [[root s']|e];
    [|exact H].
  destruct H as (_ & _ & _ & _ & Hs & _ & Sh & Hi).
  split; [exact Hi|].
  apply (tree_shape_get_leaves _ _ _ _ _ _ Sh).
  unfold depth_budget. pose proof (depth_lt_nodes ts). lia.
Qed.
End ConstructTree.

(** ** Tree.__init__ on a pattern without negation *)

Section NoNegation.

Lemma same_parents_refl s : same_parents s s.
Proof. intros n. reflexivity. Qed.

Lemma same_parents_trans s1 s2 s3 :
  same_parents s1 s2 -> same_parents s2 s3 -> same_parents s1 s3.
Proof. intros H1 H2 n. rewrite H2. apply H1. Qed.

Lemma set_condition_same_parents (n : nat) (c : Formula) (s s' : State) :
  modify n (set_condition c) s = Ok (tt, s') -> same_parents s s'.
Proof.
  intros H. apply modify_inv in H as (nd & Hn & ->). intros m. simpl.
  destruct (decide (m = n)) as [->|Hne].
  - rewrite lookup_insert_eq, Hn. reflexivity.
  - rewrite lookup_insert_ne by auto. reflexivity.
Qed.

Lemma apply_formula_same_parents :
  forall (budget self : nat) (f : Formula) (s s' : State),
    Tree.apply_formula budget self f s = Ok (tt, s') -> same_parents s s'.
Proof.
  induction budget as [|budget IH]; intros self f s s' H; simpl in H;
    [discriminate|].
  apply bind_inv in H as (nd & s0 & Hr & H).
  apply read_inv in Hr as [-> Hn].
  destruct (cls nd).
  - destruct (FormulaOps.get_formula_of f _) as [c|].
    + eapply set_condition_same_parents. exact H.
    + apply ret_inv in H as [_ ->]. apply same_parents_refl.
  - apply bind_inv in H as ([] & s1 & Hm & H).
    apply bind_inv in H as (l & s2 & Hl & H). apply lift_inv in Hl as [_ ->].
    apply bind_inv in H as ([] & s3 & Ha & H).
    apply bind_inv in H as (r & s4 & Hrr & H). apply lift_inv in Hrr as [_ ->].
    eapply same_parents_trans; [eapply set_condition_same_parents; exact Hm|].
    eapply same_parents_trans; eapply IH; eassumption.
  - apply bind_inv in H as ([] & s1 & Hm & H).
    apply bind_inv in H as (l & s2 & Hl & H). apply lift_inv in Hl as [_ ->].
    apply bind_inv in H as ([] & s3 & Ha & H).
    apply bind_inv in H as (r & s4 & Hrr & H). apply lift_inv in Hrr as [_ ->].
    eapply same_parents_trans; [eapply set_condition_same_parents; exact Hm|].
    eapply same_parents_trans; eapply IH; eassumption.
  - apply bind_inv in H as ([] & s1 & Hm & H).
    apply bind_inv in H as (l & s2 & Hl & H). apply lift_inv in Hl as [_ ->].
    apply bind_inv in H as ([] & s3 & Ha & H).
    apply bind_inv in H as (r & s4 & Hrr & H). apply lift_inv in Hrr as [_ ->].
    eapply same_parents_trans; [eapply set_condition_same_parents; exact Hm|].
    eapply same_parents_trans; eapply IH; eassumption.
  - apply bind_inv in H as ([] & s1 & Hm & H).
    apply bind_inv in H as (l & s2 & Hl & H). apply lift_inv in Hl as [_ ->].
    apply bind_inv in H as ([] & s3 & Ha & H).
    apply bind_inv in H as (r & s4 & Hrr & H). apply lift_inv in Hrr as [_ ->].
    eapply same_parents_trans; [eapply set_condition_same_parents; exact Hm|].
    eapply same_parents_trans; eapply IH; eassumption.
Qed.

Lemma heap_below_initial_state : heap_below Mechanism.initial_state.
Proof. intros n [x Hx]. simpl in Hx. rewrite lookup_empty in Hx. discriminate. Qed.

Lemma bind_congr {A B} (m : M A) (k1 k2 : A -> M B) (s : State) :
  (forall a s', m s = Ok (a, s') -> k1 a s' = k2 a s') ->
  bind m k1 s = bind m k2 s.
Proof. intros H. unfold bind. destruct (m s) as [[a s']|]; auto. Qed.

Lemma init_without_negation (tree_structure : TreeStructure) (pattern : Pattern) :
  negative_args pattern = [] ->
  Tree.init tree_structure pattern POST_PROCESSING Mechanism.initial_state
  = Tree.init tree_structure pattern FIRST_CHANCE Mechanism.initial_state.
Proof.
  intros Hneg. unfold Tree.init.
  apply bind_congr. intros root s1 Hc.
  pose proof (construct_tree_spec
                (bool_decide (structure_top_operator pattern = SeqOperator))
                (structure_args pattern) (window pattern) tree_structure None
                Mechanism.initial_state heap_below_initial_state) as Hs.
  rewrite Hc in Hs. destruct Hs as (_ & _ & _ & _ & _ & (nd & Hn & Hp) & _).
  apply bind_congr. intros h s1' Hh. apply get_heap_inv in Hh as [-> ->].
  apply bind_congr. intros [] s2 Ha.
  apply apply_formula_same_parents in Ha. specialize (Ha root).
  rewrite Hn in Ha. simpl in Ha.
  destruct (heap s2 !! root) as [nd2|] eqn:Hn2; [|discriminate].
  simpl in Ha. inversion Ha as [Hp2]. rewrite Hp in Hp2.
  unfold Tree.create_PostProcessing_Tree, Tree.create_FirstChanceNegation_Tree.
  rewrite Hneg. simpl. unfold bind, ret, get_heap, lift.
  unfold Node.get_root, depth_budget. simpl. unfold lookup_node.
  rewrite Hn2. simpl. rewrite Hp2. reflexivity.
Qed.

(** X27.  On a pattern without negated placeholders the negation mode makes no
    difference: [Tree] builds the same tree in POST_PROCESSING and in
    FIRST_CHANCE mode, and the evaluation of any stream gives the same
    output and the same final state, or the same error. *)
Theorem modes_agree_without_negation (tree_structure : TreeStructure)
        (pattern : Pattern) :
  negative_args pattern = [] ->
  Tree.init tree_structure pattern POST_PROCESSING Mechanism.initial_state
  = Tree.init tree_structure pattern FIRST_CHANCE Mechanism.initial_state
  /\ forall (fuel : nat) (events : list Event),
       Mechanism.run fuel tree_structure pattern POST_PROCESSING events
       = Mechanism.run fuel tree_structure pattern FIRST_CHANCE events.
Proof.
  intros Hneg. split; [apply init_without_negation; assumption|].
  intros fuel events. unfold Mechanism.run.
  rewrite (init_without_negation _ _ Hneg). reflexivity.
Qed.
End NoNegation.

Lemma construct_tree_leaves_witness :
  heap_below Mechanism.initial_state
  /\ match Tree.construct_tree true (Pair (Index 0) (Index (-1)))
                               [qitem "A" "a" 0; qitem "B" "b" 1] 5 None
                               Mechanism.initial_state with
     | Ok (root, s') =>
         Forall (index_in_range [qitem "A" "a" 0; qitem "B" "b" 1])
                (structure_indices (Pair (Index 0) (Index (-1))))
         /\ exists leaves,
              Node.get_leaves (heap s') root = Ok leaves
              /\ Forall2 (is_leaf_for [qitem "A" "a" 0; qitem "B" "b" 1] 5 (heap s'))
                         leaves (structure_indices (Pair (Index 0) (Index (-1))))
     | Err e =>
         e = PyRaise IndexError
         /\ Exists (fun i => ~ index_in_range [qitem "A" "a" 0; qitem "B" "b" 1] i)
                   (structure_indices (Pair (Index 0) (Index (-1))))
     end.
Proof.
  split; [apply heap_below_initial_state|].
  apply (construct_tree_leaves true [qitem "A" "a" 0; qitem "B" "b" 1] 5
           (Pair (Index 0) (Index (-1))) None Mechanism.initial_state).
  apply heap_below_initial_state.
Defined.

Lemma modes_agree_without_negation_witness :
  Mechanism.run 30 (Pair (Index 0) (Index 1)) pattern_A_then_B POST_PROCESSING
                [event_at "A" 1; event_at "B" 2]
  = Mechanism.run 30 (Pair (Index 0) (Index 1)) pattern_A_then_B FIRST_CHANCE
                  [event_at "A" 1; event_at "B" 2].
Proof.
  apply (modes_agree_without_negation (Pair (Index 0) (Index 1)) pattern_A_then_B).
  reflexivity.
Defined.
